(** * semantic-search: indexing orchestrator, vector store, retrieval and rerank fusion

    A shallow embedding of the TypeScript sources
    ([utils.ts], [types.ts], [sqlite.ts] in its two variants, [nlp.ts],
    [constants.ts], [store.ts] in its two variants) and the properties the
    specification states about them.

    JavaScript numbers are IEEE 754 binary64 values and are modelled by
    Rocq's primitive [float]; array lengths, indices and [topK] are integers
    and are modelled by [nat] and [Z]. *)

From Stdlib Require Import ZArith Zpower List Bool Lia Floats Reals Lra Ascii String.
From Stdlib.Strings Require Byte.
From stdpp Require Import base option list strings gmap sorting.
Set Warnings "-inexact-float".

Open Scope Z_scope.

(* ===================================================================== *)
(** * JavaScript numbers *)
(* ===================================================================== *)

Module Js.

Definition number := float.

(** [x >= y] on numbers: false as soon as one side is NaN. *)
Definition ge (x y : number) : bool := (y <=? x)%float.


(** ToBoolean on a number: [0], [-0] and [NaN] are falsy. *)
Definition truthy (x : number) : bool := negb (is_zero x || is_nan x).

(** [x || d] on numbers. *)
Definition or_else (x d : number) : number := if truthy x then x else d.

(** An integer that fits a 63-bit word, as a number. *)
Definition of_Z (z : Z) : number :=
  if z <? 0 then PrimFloat.opp (PrimFloat.of_uint63 (Uint63.of_Z (- z)))
  else PrimFloat.of_uint63 (Uint63.of_Z z).

Definition of_nat (n : nat) : number := of_Z (Z.of_nat n).

(** [Array.prototype.slice(0, end)] for an integer [end]: a negative [end]
    counts from the end of the array. *)
Definition slice0 {A} (l : list A) (e : Z) : list A :=
  if e <? 0 then firstn (Z.to_nat (Z.max (Z.of_nat (length l) + e) 0)) l
  else firstn (Z.to_nat e) l.

(** [SortCompare]: the comparator's result, with NaN read as [+0]; the
    sort only looks at whether it is positive (the first argument goes
    after the second). *)
Definition after (v : number) : bool := (0 <? v)%float.

(** [Array.prototype.sort(cmp)]: a stable insertion sort driven by the
    comparator, which is what the specification of [sort] allows for a
    consistent comparator. [cmp a b] is the comparator's number. *)
Section Sort.
Context {A : Type} (cmp : A -> A -> number).

Fixpoint sort_insert (x : A) (l : list A) : list A :=
  match l with
  | [] => [x]
  | y :: l' => if after (cmp x y) then y :: sort_insert x l' else x :: y :: l'
  end.

Definition sort (l : list A) : list A := foldr sort_insert [] l.

End Sort.

End Js.

(* ===================================================================== *)
(** * utils.ts *)
(* ===================================================================== *)

(** The arithmetic [normalize] uses. The code runs at the binary64
    instance; the real-number instance is the same code in exact
    arithmetic. *)
Class JsArith (N : Type) := {
  n_zero : N;
  n_one : N;
  n_add : N -> N -> N;
  n_mul : N -> N -> N;
  n_div : N -> N -> N;
  n_sqrt : N -> N;
  n_truthy : N -> bool
}.

#[export] Instance float_arith : JsArith float := {
  n_zero := 0%float;
  n_one := 1%float;
  n_add := PrimFloat.add;
  n_mul := PrimFloat.mul;
  n_div := PrimFloat.div;
  n_sqrt := PrimFloat.sqrt;
  n_truthy := Js.truthy
}.

#[export] Instance real_arith : JsArith R := {
  n_zero := 0%R;
  n_one := 1%R;
  n_add := Rplus;
  n_mul := Rmult;
  n_div := Rdiv;
  n_sqrt := R_sqrt.sqrt;
  n_truthy := fun x => if Req_dec_T x 0%R then false else true
}.

Module Utils.

Section Normalize.
Context {N : Type} `{JsArith N}.

(** [v.reduce((s, x) => s + x * x, 0)] *)
Definition sum_squares (v : list N) : N :=
  fold_left (fun s x => n_add s (n_mul x x)) v n_zero.

(** [Math.sqrt(...) || 1] *)
Definition norm_or_1 (v : list N) : N :=
  let n := n_sqrt (sum_squares v) in
  if n_truthy n then n else n_one.

(** [normalize(v)] *)
Definition normalize (v : list N) : list N :=
  let norm := norm_or_1 v in
  map (fun x => n_div x norm) v.

End Normalize.

(** [a[i]] on an array of numbers; an index out of range reads
    [undefined], which arithmetic turns into NaN. *)
Definition at_index (a : list Js.number) (i : nat) : Js.number :=
  nth i a PrimFloat.nan.

(** The loop [for (let i = 0; i < n; i++) s += a[i] * b[i]]: [k] counts
    the iterations that remain, [i] is the loop variable. *)
Fixpoint cosine_loop (a b : list Js.number) (k i : nat) (s : Js.number) : Js.number :=
  match k with
  | O => s
  | S k' => cosine_loop a b k' (S i) (s + at_index a i * at_index b i)%float
  end.

(** [cosine(a, b)] *)
Definition cosine (a b : list Js.number) : Js.number :=
  let n := Nat.min (length a) (length b) in
  cosine_loop a b n 0%nat 0%float.

End Utils.

(* ===================================================================== *)
(** * Float32Array and Buffer *)
(* ===================================================================== *)

(** A [Float32Array] holds IEEE 754 binary32 values; its [ArrayBuffer]
    holds their 32-bit patterns, least significant byte first. An element
    is modelled by its bit pattern. *)
Module Float32.

Definition prec32 : Z := 24.
Definition emax32 : Z := 128.

(** Conversion of a binary64 to the nearest binary32, ties to even. *)
Definition round (x : spec_float) : spec_float :=
  match x with
  | S754_finite s m e => binary_round prec32 emax32 s m e
  | _ => x
  end.

Definition sign_bit (s : bool) : Z := if s then 2 ^ 31 else 0.

(** The bit pattern of a binary32: sign, 8 bits of biased exponent, 23
    bits of fraction. A NaN is stored as the quiet NaN [0x7FC00000]. *)
Definition pattern (x : spec_float) : Z :=
  match x with
  | S754_zero s => sign_bit s
  | S754_infinity s => sign_bit s + 255 * 2 ^ 23
  | S754_nan => 255 * 2 ^ 23 + 2 ^ 22
  | S754_finite s m e =>
      if Z.pos m <? 2 ^ 23 then sign_bit s + Z.pos m
      else sign_bit s + (e + 150) * 2 ^ 23 + (Z.pos m - 2 ^ 23)
  end.

(** Storing a number into a [Float32Array] element. *)
Definition bits (x : Js.number) : Z := pattern (round (Prim2SF x)) mod 2 ^ 32.

(** The binary32 a bit pattern stands for. *)
Definition of_pattern (w : Z) : spec_float :=
  let s := Z.testbit w 31 in
  let ex := (w / 2 ^ 23) mod 256 in
  let fr := w mod 2 ^ 23 in
  if ex =? 255 then (if fr =? 0 then S754_infinity s else S754_nan)
  else if ex =? 0 then
    match fr with
    | Z.pos m => S754_finite s m (-149)
    | _ => S754_zero s
    end
  else
    match fr + 2 ^ 23 with
    | Z.pos m => S754_finite s m (ex - 150)
    | _ => S754_nan
    end.

(** Reading a [Float32Array] element: the binary32 as a number (every
    binary32 is a binary64). *)
Definition widen (x : spec_float) : Js.number :=
  match x with
  | S754_finite s m e => SF2Prim (binary_round prec emax s m e)
  | _ => SF2Prim x
  end.

Definition of_bits (w : Z) : Js.number := widen (of_pattern w).

(** [Math.fround]: what a number becomes when stored into a
    [Float32Array] and read back. *)
Definition fround (x : Js.number) : Js.number := of_bits (bits x).

Definition byte_of_Z (z : Z) : Byte.byte :=
  default Byte.x00 (Byte.of_N (Z.to_N (z mod 256))).

Definition Z_of_byte (b : Byte.byte) : Z := Z.of_N (Byte.to_N b).

(** The four bytes of a 32-bit word, least significant first. *)
Definition le_bytes (w : Z) : list Byte.byte :=
  [byte_of_Z w; byte_of_Z (w / 2 ^ 8); byte_of_Z (w / 2 ^ 16); byte_of_Z (w / 2 ^ 24)].

Definition le_word (b0 b1 b2 b3 : Byte.byte) : Z :=
  Z_of_byte b0 + 2 ^ 8 * Z_of_byte b1 + 2 ^ 16 * Z_of_byte b2 + 2 ^ 24 * Z_of_byte b3.

(** The first [n] 32-bit elements of a byte buffer; [None] when the
    buffer is too short (the [RangeError] of the typed-array
    constructor). *)
Fixpoint words (n : nat) (bs : list Byte.byte) : option (list Z) :=
  match n with
  | O => Some []
  | S n' =>
      match bs with
      | b0 :: b1 :: b2 :: b3 :: rest =>
          ws ← words n' rest; Some (le_word b0 b1 b2 b3 :: ws)
      | _ => None
      end
  end.

End Float32.

Module Blob.

(** [toFloat32Blob(vec)]: [Buffer.from(new Float32Array(vec).buffer)] *)
Definition toFloat32Blob (vec : list Js.number) : list Byte.byte :=
  concat (map (fun x => Float32.le_bytes (Float32.bits x)) vec).

(** [fromFloat32Blob(blob, dim)]: a [Float32Array] view of
    [dim ?? Math.floor(blob.byteLength / 4)] elements over the buffer,
    copied into an array of numbers. *)
Definition fromFloat32Blob (blob : list Byte.byte) (dim : option nat) : option (list Js.number) :=
  let n := match dim with
           | Some d => d
           | None => (length blob / 4)%nat
           end in
  ws ← Float32.words n blob; Some (map Float32.of_bits ws).

End Blob.

(* ===================================================================== *)
(** * types.ts *)
(* ===================================================================== *)

Record FileMetadata := {
  fm_id : string;
  fm_path : string;
  fm_filename : string;
  fm_mimetype : option string;
  fm_size : option Z;
  fm_createdAt : option string;
  fm_modifiedAt : option string
}.

(** [embedding] is optional: the sqlite-vec variant of [rowToRecord]
    returns records without the field. *)
Record FileRecord := {
  fr_id : string;
  fr_metadata : FileMetadata;
  fr_summary : string;
  fr_embedding : option (list Js.number)
}.

Record SearchResult := {
  sr_id : string;
  sr_score : Js.number;
  sr_cosineSimilarity : Js.number;
  sr_metadata : FileMetadata;
  sr_summary : string
}.

(** A retrieved candidate [{ rec, score }]. *)
Record Candidate := {
  c_rec : FileRecord;
  c_score : Js.number
}.

(** A reranked entry [{ id, score }]. *)
Record Scored := {
  s_id : string;
  s_score : Js.number
}.

Record TokenUsage := {
  tu_prompt : Z;
  tu_completion : Z;
  tu_total : Z
}.

(* ===================================================================== *)
(** * Errors and results *)
(* ===================================================================== *)

Inductive Error :=
| InvalidEmbedding   (* 'Invalid embedding data: must be non-empty array' *)
| InvalidValues      (* 'Embedding contains invalid values: ...' *)
| SqliteError        (* a statement failed *)
| ProviderError      (* the Azure OpenAI client threw *)
| FsError            (* fs.statSync / fs.openSync threw *)
| TypeError
| RangeError.

Inductive Result (A : Type) :=
| Ok (a : A)
| Throw (e : Error).
Arguments Ok {A} a.
Arguments Throw {A} e.


(* ===================================================================== *)
(** * The environment: file system, libraries and the Azure OpenAI client *)
(* ===================================================================== *)

Record Stat := {
  st_isDirectory : bool;
  st_size : Z;
  st_birthtime : string;   (* birthtime.toISOString() *)
  st_mtime : string        (* mtime.toISOString() *)
}.

Record ChatMessage := {
  msg_role : string;
  msg_content : string
}.

Record ChatResponse := {
  chat_content : option string;     (* choices?.[0]?.message?.content *)
  chat_usage : option TokenUsage
}.

Record EmbeddingResponse := {
  emb_vector : option (list Js.number);   (* data[0]?.embedding *)
  emb_usage : option TokenUsage
}.

(** The sqlite-vec virtual table [vec_files]: the dimension it was created
    with and its rows. *)
Record VecTable := {
  vt_dim : nat;
  vt_rows : list (string * list Js.number)
}.

(** What the code does not define itself. [None] stands for a call that
    throws. *)
Record Env := {
  fs_statSync : string -> option Stat;
  fs_glob : string -> list string;        (* fg('**/*', onlyFiles, absolute) *)
  fs_readFile : string -> option string;  (* the bytes of the file *)
  buffer_toString : string -> string;     (* buffer.toString('utf8') *)
  path_resolve : string -> string;
  path_basename : string -> string;
  mime_lookup : string -> option string;
  uuidv4 : nat -> string;                 (* the n-th identifier drawn *)
  chat_create : string -> list ChatMessage -> option ChatResponse;
  embeddings_create : string -> string -> option EmbeddingResponse;
  JSON_parse : string -> option (list Scored);
  vec0_insert_ok : nat -> list Js.number -> bool;
  vec0_knn : VecTable -> list Js.number -> Z -> option (list (string * Js.number))
}.

(** [a || b] on optional strings: the empty string is falsy. *)
Definition str_or (a b : option string) : option string :=
  match a with
  | Some s => if decide (s = EmptyString) then b else a
  | None => b
  end.

(* ===================================================================== *)
(** * sqlite.ts *)
(* ===================================================================== *)

Module Sqlite.

(** A row of the table [files]. The column [embedding] is the BLOB of the
    brute-force variant; the sqlite-vec variant has no such column and
    leaves it empty. *)
Record Row := {
  row_id : string;
  row_path : string;
  row_filename : string;
  row_mimetype : option string;
  row_size : option Z;
  row_createdAt : option string;
  row_modifiedAt : option string;
  row_summary : string;
  row_embedding : list Byte.byte
}.

(** The database: the table [files] in rowid order, the virtual table
    [vec_files] when it exists, and the field [vectorTableReady] of the
    store object. *)
Record Store := {
  files : list Row;
  vec_files : option VecTable;
  vectorTableReady : bool
}.

(** The two variants of [SqliteStore]: [BlobScan] stores embeddings as
    BLOBs and scans them, [SqliteVec] keeps them in [vec_files]. *)
Inductive Backend := BlobScan | SqliteVec.

(** A fresh store object over an existing database file. *)
Definition open (fs : list Row) (vt : option VecTable) : Store :=
  {| files := fs; vec_files := vt; vectorTableReady := false |}.

Definition set_files (t : list Row) (s : Store) : Store :=
  {| files := t; vec_files := vec_files s; vectorTableReady := vectorTableReady s |}.

Definition set_vec (v : option VecTable) (s : Store) : Store :=
  {| files := files s; vec_files := v; vectorTableReady := vectorTableReady s |}.

(** [INSERT INTO files ... ON CONFLICT(id) DO UPDATE SET ...]: every
    column but [id] is overwritten; a new row goes last. *)
Definition upsert_row (r : Row) (t : list Row) : list Row :=
  if existsb (fun x => bool_decide (row_id x = row_id r)) t
  then map (fun x => if decide (row_id x = row_id r) then r else x) t
  else t ++ [r].

Section WithEnv.
Context (env : Env).

(** The bound parameters of the [INSERT]. *)
Definition row_of_record (b : Backend) (rec : FileRecord) : Row :=
  let md := fr_metadata rec in
  {| row_id := fr_id rec;
     row_path := fm_path md;
     row_filename := fm_filename md;
     row_mimetype := str_or (fm_mimetype md) (str_or (mime_lookup env (fm_filename md)) None);
     row_size := fm_size md;
     row_createdAt := fm_createdAt md;
     row_modifiedAt := fm_modifiedAt md;
     row_summary := fr_summary rec;
     row_embedding :=
       match b with
       | BlobScan => Blob.toFloat32Blob (default [] (fr_embedding rec))
       | SqliteVec => []
       end |}.

(** [ensureVectorTable(embeddingDimension)] *)
Definition ensureVectorTable (dim : nat) (s : Store) : Store :=
  if vectorTableReady s then s
  else {| files := files s;
          vec_files := Some {| vt_dim := dim; vt_rows := [] |};
          vectorTableReady := true |}.

(** [DELETE FROM vec_files WHERE id = ?] *)
Definition vec_delete (id : string) (vt : VecTable) : VecTable :=
  {| vt_dim := vt_dim vt;
     vt_rows := List.filter (fun r => negb (bool_decide (fst r = id))) (vt_rows vt) |}.

(** [INSERT INTO vec_files (id, embedding) VALUES (?, ?)] *)
Definition vec_insert (id : string) (e : list Js.number) (vt : VecTable) : VecTable :=
  {| vt_dim := vt_dim vt; vt_rows := vt_rows vt ++ [(id, e)] |}.

(** [embedding.every(n => typeof n === 'number' && !isNaN(n))] *)
Definition all_numbers (e : list Js.number) : bool :=
  forallb (fun n => negb (is_nan n)) e.

(** [upsert(record)] of the sqlite-vec variant. *)
Definition upsert_vec (rec : FileRecord) (s : Store) : Store * Result unit :=
  match fr_embedding rec with
  | None | Some [] => (s, Throw InvalidEmbedding)
  | Some e =>
      if negb (all_numbers e) then (s, Throw InvalidValues)
      else
        let s1 := ensureVectorTable (length e) s in
        let s2 := set_files (upsert_row (row_of_record SqliteVec rec) (files s1)) s1 in
        match vec_files s2 with
        | None => (s2, Throw SqliteError)
        | Some vt =>
            let vt1 := vec_delete (fr_id rec) vt in
            if vec0_insert_ok env (vt_dim vt1) e
            then (set_vec (Some (vec_insert (fr_id rec) e vt1)) s2, Ok ())
            else (set_vec (Some vt1) s2, Throw SqliteError)
        end
  end.

(** [upsert(record)] of the BLOB variant. *)
Definition upsert_blob (rec : FileRecord) (s : Store) : Store * Result unit :=
  (set_files (upsert_row (row_of_record BlobScan rec) (files s)) s, Ok ()).

Definition upsert (b : Backend) (rec : FileRecord) (s : Store) : Store * Result unit :=
  match b with
  | BlobScan => upsert_blob rec s
  | SqliteVec => upsert_vec rec s
  end.

(** [x || undefined] on the nullable columns. *)
Definition nonzero (z : option Z) : option Z :=
  match z with
  | Some 0 => None
  | _ => z
  end.

(** [rowToRecord(row)] *)
Definition rowToRecord (b : Backend) (r : Row) : Result FileRecord :=
  let md := {| fm_id := row_id r;
               fm_path := row_path r;
               fm_filename := row_filename r;
               fm_mimetype := str_or (row_mimetype r) None;
               fm_size := nonzero (row_size r);
               fm_createdAt := str_or (row_createdAt r) None;
               fm_modifiedAt := str_or (row_modifiedAt r) None |} in
  match b with
  | SqliteVec =>
      Ok {| fr_id := row_id r; fr_metadata := md; fr_summary := row_summary r;
            fr_embedding := None |}
  | BlobScan =>
      match Blob.fromFloat32Blob (row_embedding r) None with
      | Some e =>
          Ok {| fr_id := row_id r; fr_metadata := md; fr_summary := row_summary r;
                fr_embedding := Some e |}
      | None => Throw RangeError
      end
  end.

(** [.get()] of a [SELECT * FROM files WHERE ...]: the first matching row,
    [null] when there is none. *)
Definition select_one (b : Backend) (p : Row -> bool) (s : Store) : Result (option FileRecord) :=
  match List.find p (files s) with
  | None => Ok None
  | Some r =>
      match rowToRecord b r with
      | Ok rec => Ok (Some rec)
      | Throw e => Throw e
      end
  end.

(** [getById(id)] *)
Definition getById (b : Backend) (id : string) (s : Store) : Result (option FileRecord) :=
  select_one b (fun r => bool_decide (row_id r = id)) s.

(** [getByPath(filePath)] *)
Definition getByPath (b : Backend) (p : string) (s : Store) : Result (option FileRecord) :=
  select_one b (fun r => bool_decide (row_path r = p)) s.

(** [count()] *)
Definition count (s : Store) : nat := length (files s).

(** [retrieveByEmbedding] of the BLOB variant: score every row, sort by
    [(a, b) => b.score - a.score], keep [topK]. *)
Fixpoint score_rows (q : list Js.number) (rows : list Row) : Result (list Candidate) :=
  match rows with
  | [] => Ok []
  | r :: rows' =>
      match Blob.fromFloat32Blob (row_embedding r) None, rowToRecord BlobScan r with
      | Some e, Ok rec =>
          match score_rows q rows' with
          | Ok cs => Ok ({| c_rec := rec; c_score := Utils.cosine q e |} :: cs)
          | Throw err => Throw err
          end
      | _, _ => Throw RangeError
      end
  end.

Definition by_score_desc (a b : Candidate) : Js.number := (c_score b - c_score a)%float.

Definition retrieve_blob (q : list Js.number) (topK : Z) (s : Store) : Result (list Candidate) :=
  match score_rows q (files s) with
  | Ok results => Ok (Js.slice0 (Js.sort by_score_desc results) topK)
  | Throw e => Throw e
  end.

(** [retrieveByEmbedding] of the sqlite-vec variant: the rows the index
    returns, joined with [files], with [1 - distance] as the score. *)
Fixpoint join_vec (s : Store) (hits : list (string * Js.number)) : Result (list Candidate) :=
  match hits with
  | [] => Ok []
  | (id, distance) :: hits' =>
      match getById SqliteVec id s with
      | Throw e => Throw e
      | Ok found =>
          match join_vec s hits' with
          | Throw e => Throw e
          | Ok cs =>
              match found with
              | Some rec => Ok ({| c_rec := rec; c_score := (1 - distance)%float |} :: cs)
              | None => Ok cs
              end
          end
      end
  end.

Definition retrieve_vec (q : list Js.number) (topK : Z) (s : Store) : Result (list Candidate) :=
  match vec_files s with
  | None => Throw SqliteError
  | Some vt =>
      match vec0_knn env vt q topK with
      | None => Throw SqliteError
      | Some hits => join_vec s hits
      end
  end.

Definition retrieveByEmbedding (b : Backend) (q : list Js.number) (topK : Z) (s : Store)
  : Result (list Candidate) :=
  match b with
  | BlobScan => retrieve_blob q topK s
  | SqliteVec => retrieve_vec q topK s
  end.

End WithEnv.

End Sqlite.

(* ===================================================================== *)
(** * Effects: the store, the log of outside calls, the identifiers drawn *)
(* ===================================================================== *)

(** A request sent to the Azure OpenAI client. *)
Inductive Call :=
| CallChat (model : string) (messages : list ChatMessage)
| CallEmbed (model : string) (input : string).

(** What the progress manager is told. *)
Inductive Progress :=
| PStart (file : string)
| PSkip (file : string)
| PComplete (file : string)
| PError (file : string) (e : Error).

(** The log: every provider request with the file (or query) it was made
    for, every record handed to [upsert], every progress call. *)
Inductive Event :=
| EvCall (origin : string) (c : Call)
| EvUpsert (rec : FileRecord)
| EvProgress (p : Progress).

Record World := {
  w_db : Sqlite.Store;
  w_log : list Event;
  w_uuids : nat          (* how many identifiers [uuidv4] has handed out *)
}.

(** Computations that read and write the world and may throw. *)
Definition M (A : Type) : Type := World -> World * Result A.

#[export] Instance M_ret : MRet M := fun A a w => (w, Ok a).

#[export] Instance M_bind : MBind M := fun A B f m w =>
  match m w with
  | (w', Ok a) => f a w'
  | (w', Throw e) => (w', Throw e)
  end.

Definition throw {A} (e : Error) : M A := fun w => (w, Throw e).

Definition of_result {A} (r : Result A) : M A := fun w => (w, r).

Definition of_option {A} (e : Error) (o : option A) : M A :=
  match o with
  | Some a => mret a
  | None => throw e
  end.

Definition emit (ev : Event) : M unit := fun w =>
  ({| w_db := w_db w; w_log := w_log w ++ [ev]; w_uuids := w_uuids w |}, Ok ()).

Definition read_db {A} (f : Sqlite.Store -> Result A) : M A := fun w => (w, f (w_db w)).

Definition write_db {A} (f : Sqlite.Store -> Sqlite.Store * Result A) : M A := fun w =>
  let '(s, r) := f (w_db w) in
  ({| w_db := s; w_log := w_log w; w_uuids := w_uuids w |}, r).

(** [try { m } catch { h }] *)
Definition try_catch {A} (m : M A) (h : Error -> M A) : M A := fun w =>
  match m w with
  | (w', Ok a) => (w', Ok a)
  | (w', Throw e) => h e w'
  end.

(** A provider request: logged, then answered by the client. *)
Definition request {A} (origin : string) (c : Call) (answer : option A) : M A :=
  _ ← emit (EvCall origin c); of_option ProviderError answer.

(* ===================================================================== *)
(** * constants.ts *)
(* ===================================================================== *)

Module DEFAULT_CONFIG.
Definition MAX_CHARS_DEFAULT : Z := 50000.
Definition DEFAULT_CONCURRENCY : Z := 3.
Definition DEFAULT_TOP_K : Z := 5.
Definition CANDIDATE_MULTIPLIER : Z := 3.
Definition MIN_CANDIDATES : Z := 10.
End DEFAULT_CONFIG.

(* ===================================================================== *)
(** * nlp.ts *)
(* ===================================================================== *)

Module Nlp.

Record AzureClients := {
  embeddingDeployment : string;
  rerankDeployment : string
}.

Record SummarizeResult := {
  sum_summary : string;
  sum_partial : bool;
  sum_tokens : TokenUsage
}.

Record EmbedResult := {
  er_embedding : list Js.number;
  er_tokens : TokenUsage
}.

Definition nl : string := String (ascii_of_nat 10) EmptyString.

(** Texts are held in UTF-8. What [trim] strips is WhiteSpace and
    LineTerminator of ECMAScript; their encodings take one byte (U+0009
    to U+000D, U+0020), two (U+00A0) or three (U+1680, U+2000 to U+200A,
    U+2028, U+2029, U+202F, U+205F, U+3000, U+FEFF). *)
Definition is_space (c : ascii) : bool :=
  let n := nat_of_ascii c in
  (n =? 32)%nat || ((9 <=? n)%nat && (n <=? 13)%nat).

Definition is_space2 (c1 c2 : ascii) : bool :=
  ((nat_of_ascii c1 =? 194) && (nat_of_ascii c2 =? 160))%nat.

Definition is_space3 (c1 c2 c3 : ascii) : bool :=
  let n1 := nat_of_ascii c1 in
  let n2 := nat_of_ascii c2 in
  let n3 := nat_of_ascii c3 in
  ((n1 =? 225) && (n2 =? 154) && (n3 =? 128)
   || (n1 =? 226) && (n2 =? 128)
      && ((128 <=? n3) && (n3 <=? 138) || (n3 =? 168) || (n3 =? 169) || (n3 =? 175))
   || (n1 =? 226) && (n2 =? 129) && (n3 =? 159)
   || (n1 =? 227) && (n2 =? 128) && (n3 =? 128)
   || (n1 =? 239) && (n2 =? 187) && (n3 =? 191))%nat.

(** The bytes left when the encodings recognised by [sp2] and [sp3] (and
    the one-byte ones) are taken off the front. *)
Fixpoint strip (sp2 : ascii -> ascii -> bool) (sp3 : ascii -> ascii -> ascii -> bool)
    (l : list ascii) : list ascii :=
  match l with
  | c1 :: l1 =>
      if is_space c1 then strip sp2 sp3 l1
      else match l1 with
           | c2 :: l2 =>
               if sp2 c1 c2 then strip sp2 sp3 l2
               else match l2 with
                    | c3 :: l3 => if sp3 c1 c2 c3 then strip sp2 sp3 l3 else l
                    | [] => l
                    end
           | [] => l
           end
  | [] => []
  end.

Definition ltrim (l : list ascii) : list ascii := strip is_space2 is_space3 l.

(** The same on the reversed text, where an encoding comes last byte
    first. *)
Definition ltrim_reversed (l : list ascii) : list ascii :=
  strip (fun c2 c1 => is_space2 c1 c2) (fun c3 c2 c1 => is_space3 c1 c2 c3) l.

(** [String.prototype.trim] *)
Definition trim (s : string) : string :=
  string_of_list_ascii (rev (ltrim_reversed (rev (ltrim (list_ascii_of_string s))))).

(** [Array.prototype.join] *)
Fixpoint join (sep : string) (l : list string) : string :=
  match l with
  | [] => EmptyString
  | [s] => s
  | s :: l' => s +:+ sep +:+ join sep l'
  end.

Definition zero_usage : TokenUsage :=
  {| tu_prompt := 0; tu_completion := 0; tu_total := 0 |}.

(** [readTextFile(filePath, maxChars)] of utils.ts: the first
    [Math.min(stats.size, maxChars)] bytes of the file, decoded as UTF-8.
    [Buffer.alloc] throws a [RangeError] on a negative length. *)
Definition readTextFile (env : Env) (filePath : string) (maxChars : Z) : Result (string * bool) :=
  match fs_readFile env filePath with
  | None => Throw FsError
  | Some bytes =>
      let size := Z.of_nat (String.length bytes) in
      let length := Z.min size maxChars in
      if length <? 0 then Throw RangeError
      else Ok (buffer_toString env (substring 0 (Z.to_nat length) bytes), maxChars <? size)
  end.

Section WithEnv.
Context (env : Env) (azure : AzureClients).

Definition summarize_messages (text : string) : list ChatMessage :=
  [ {| msg_role := "system";
       msg_content := "You are a helpful assistant that writes concise, factual summaries. Temperature 0." |};
    {| msg_role := "user";
       msg_content :=
         "Summarize this text (truncated if too long) into 2–3 sentences describing its main topics, entities, and keywords. Be concise and factual."
         +:+ nl +:+ nl +:+ "TEXT BEGIN" +:+ nl +:+ text +:+ nl +:+ "TEXT END" |} ].

(** [summarizeFile(azure, filePath, maxChars)] *)
Definition summarizeFile (filePath : string) (maxChars : Z) : M SummarizeResult :=
  '(text, truncated) ← of_result (readTextFile env filePath maxChars);
  let messages := summarize_messages text in
  response ← request filePath (CallChat (rerankDeployment azure) messages)
               (chat_create env (rerankDeployment azure) messages);
  mret {| sum_summary := trim (default EmptyString (chat_content response));
          sum_partial := truncated;
          sum_tokens := default zero_usage (chat_usage response) |}.

(** [embedText(azure, text)]; [origin] is the file or query the text
    belongs to. *)
Definition embedText (origin : string) (text : string) : M EmbedResult :=
  response ← request origin (CallEmbed (embeddingDeployment azure) text)
               (embeddings_create env (embeddingDeployment azure) text);
  vec ← of_option TypeError (emb_vector response);
  let usage := default zero_usage (emb_usage response) in
  mret {| er_embedding := Utils.normalize vec;
          er_tokens := {| tu_prompt := tu_prompt usage; tu_completion := 0;
                          tu_total := tu_total usage |} |}.

Definition rerank_item (c : string * string) : string :=
  "ID: " +:+ fst c +:+ nl +:+ "SUMMARY: " +:+ snd c.

Definition rerank_messages (query : string) (candidates : list (string * string))
  : list ChatMessage :=
  let list := join (nl +:+ nl) (map rerank_item candidates) in
  [ {| msg_role := "system";
       msg_content := "You are a precise reranker. Only output strict JSON." |};
    {| msg_role := "user";
       msg_content :=
         "Query: " +:+ query +:+ nl +:+ nl
         +:+ "You are a reranker. For each item, output a JSON array of {id, score} with score 0-100 for relevance to the query. Only output JSON."
         +:+ nl +:+ nl +:+ "ITEMS:" +:+ nl +:+ list |} ].

(** [JSON.parse(content) as Array<{ id; score }>]: [None] when
    [JSON.parse] throws. The text ["[]"] is the empty array. *)
Definition parse_ranking (content : string) : option (list Scored) :=
  if decide (content = "[]") then Some [] else JSON_parse env content.

Definition by_score_desc (a b : Scored) : Js.number := (s_score b - s_score a)%float.

(** [response.choices?.[0]?.message?.content?.toString() || '[]'] *)
Definition content_or_empty_array (response : ChatResponse) : string :=
  match chat_content response with
  | Some s => if decide (s = EmptyString) then "[]" else s
  | None => "[]"
  end.

(** The [catch] branch of [rerank]: the first [topK] candidates, scored
    [candidates.length - i]. *)
Definition fallback (candidates : list (string * string)) (topK : Z) : list Scored :=
  imap (fun i c => {| s_id := fst c;
                      s_score := Js.of_Z (Z.of_nat (length candidates) - Z.of_nat i) |})
       (Js.slice0 candidates topK).

(** [rerank(azure, query, candidates, topK)]; a candidate is
    [{ id, summary }]. *)
Definition rerank (query : string) (candidates : list (string * string)) (topK : Z)
  : M (list Scored) :=
  let messages := rerank_messages query candidates in
  response ← request query (CallChat (rerankDeployment azure) messages)
               (chat_create env (rerankDeployment azure) messages);
  let content := content_or_empty_array response in
  match parse_ranking content with
  | Some parsed => mret (Js.slice0 (Js.sort by_score_desc parsed) topK)
  | None => mret (fallback candidates topK)
  end.

End WithEnv.

End Nlp.

(* ===================================================================== *)
(** * utils.ts: [isTextLike] *)
(* ===================================================================== *)

Module TextLike.

Definition lower (c : ascii) : ascii :=
  let n := nat_of_ascii c in
  if (65 <=? n)%nat && (n <=? 90)%nat then ascii_of_nat (n + 32) else c.

(** [toLowerCase] on ASCII text. *)
Definition toLowerCase (s : string) : string :=
  string_of_list_ascii (map lower (list_ascii_of_string s)).

Definition ends_with (suffix s : string) : bool :=
  String.prefix (string_of_list_ascii (rev (list_ascii_of_string suffix)))
                (string_of_list_ascii (rev (list_ascii_of_string s))).

Definition extensions : list string :=
  ["txt"; "md"; "js"; "ts"; "tsx"; "jsx"; "json"; "yml"; "yaml"; "py"; "java"; "cs";
   "go"; "rs"; "rb"; "php"; "sh"; "bat"; "ps1"; "csv"; "tsv"; "css"; "html"; "xml";
   "sql"].

(** [isTextLike(filename)]: the lower-cased name ends with a dot and one
    of the listed extensions. *)
Definition isTextLike (filename : string) : bool :=
  let lc := toLowerCase filename in
  existsb (fun ext => ends_with ("." +:+ ext) lc) extensions.

End TextLike.

(* ===================================================================== *)
(** * store.ts *)
(* ===================================================================== *)

Module SemanticStore.

Record StoreConfig := {
  cfg_azure : Nlp.AzureClients;
  cfg_backend : Sqlite.Backend;      (* which [SqliteStore] the build links *)
  cfg_maxChars : Z                   (* summarizer.maxChars *)
}.

Record SearchOpts := {
  topK : option Z;
  minSimilarity : option Js.number;
  minScore : option Js.number
}.

Record IndexOptions := {
  concurrency : option positive;
  force : bool
}.

(** What [indexFile] knows when it reaches its first [await]. *)
Record Job := {
  job_file : string;
  job_stat : Stat;
  job_filename : string;
  job_resolved : string;
  job_existing : option FileRecord;
  job_id : string
}.

(** [l.slice(i, i + n)] for every [i = 0, n, 2n, ...] below [l.length]. *)
Fixpoint chunks_fuel {A} (fuel : nat) (n : nat) (l : list A) : list (list A) :=
  match fuel with
  | O => []
  | S fuel' =>
      match l with
      | [] => []
      | _ => take n l :: chunks_fuel fuel' n (drop n l)
      end
  end.

Definition chunks {A} (n : nat) (l : list A) : list (list A) :=
  chunks_fuel (length l) n l.

(** [for (const x of l) await f(x)] *)
Fixpoint for_each {A} (f : A -> M unit) (l : list A) : M unit :=
  match l with
  | [] => mret ()
  | x :: l' => _ ← f x; for_each f l'
  end.

Section WithEnv.
Context (env : Env) (config : StoreConfig).
(** The two defaults of the newer constants.ts, which is not among the
    sources. *)
Context (DEFAULT_MIN_SIMILARITY DEFAULT_MIN_SCORE : Js.number).

Let azure := cfg_azure config.
Let backend := cfg_backend config.

(** [uuidv4()] *)
Definition draw_uuid : M string := fun w =>
  ({| w_db := w_db w; w_log := w_log w; w_uuids := S (w_uuids w) |},
   Ok (uuidv4 env (w_uuids w))).

(** [indexFile] up to its first [await]:
    [statSync], [basename], [resolve], [getByPath] and
    [existingRecord?.id || uuidv4()]. *)
Definition indexFile_prepare (filePath : string) : M Job :=
  stat ← of_option FsError (fs_statSync env filePath);
  let filename := path_basename env filePath in
  let resolvedPath := path_resolve env filePath in
  existingRecord ← read_db (Sqlite.getByPath backend resolvedPath);
  id ← match existingRecord with
       | Some r => if decide (fr_id r = EmptyString) then draw_uuid else mret (fr_id r)
       | None => draw_uuid
       end;
  mret {| job_file := filePath; job_stat := stat; job_filename := filename;
          job_resolved := resolvedPath; job_existing := existingRecord; job_id := id |}.

(** The rest of [indexFile]: summarize, embed, build the record,
    [upsert]. *)
Definition indexFile_complete (j : Job) : M (TokenUsage * TokenUsage) :=
  s ← Nlp.summarizeFile env azure (job_file j) (cfg_maxChars config);
  e ← Nlp.embedText env azure (job_file j) (Nlp.sum_summary s);
  let created :=
    match str_or (existingRecord ← job_existing j; fm_createdAt (fr_metadata existingRecord)) None with
    | Some c => c
    | None => st_birthtime (job_stat j)
    end in
  let rec :=
    {| fr_id := job_id j;
       fr_metadata :=
         {| fm_id := job_id j;
            fm_path := job_resolved j;
            fm_filename := job_filename j;
            fm_mimetype := None;
            fm_size := Some (st_size (job_stat j));
            fm_createdAt := Some created;
            fm_modifiedAt := Some (st_mtime (job_stat j)) |};
       fr_summary := Nlp.sum_summary s;
       fr_embedding := Some (Nlp.er_embedding e) |} in
  _ ← emit (EvUpsert rec);
  _ ← write_db (Sqlite.upsert env backend rec);
  mret (Nlp.sum_tokens s, Nlp.er_tokens e).

(** [indexFile(filePath)] *)
Definition indexFile (filePath : string) : M (TokenUsage * TokenUsage) :=
  j ← indexFile_prepare filePath; indexFile_complete j.

(** [shouldProcessFile(filePath)] *)
Definition shouldProcessFile (filePath : string) : M bool :=
  try_catch
    (existingRecord ← read_db (Sqlite.getByPath backend (path_resolve env filePath));
     mret (negb (bool_decide (is_Some existingRecord))))
    (fun _ => mret true).

(** The files of [textFiles] that [shouldProcessFile] accepts, in order. *)
Fixpoint select_files (textFiles : list string) : M (list string) :=
  match textFiles with
  | [] => mret []
  | f :: fs =>
      b ← shouldProcessFile f;
      rest ← select_files fs;
      mret (if (b : bool) then f :: rest else rest)
  end.

(** First half of the body of [batch.map(async (filePath) => ...)]: it
    runs until the first [await] when the promise is created. *)
Definition batch_start (filePath : string) : M (option Job) :=
  _ ← emit (EvProgress (PStart filePath));
  try_catch (j ← indexFile_prepare filePath; mret (Some j))
            (fun e => _ ← emit (EvProgress (PError filePath e)); mret None).

(** Second half: it runs when the awaited answers arrive. *)
Definition batch_finish (j : Job) : M unit :=
  try_catch (_ ← indexFile_complete j; emit (EvProgress (PComplete (job_file j))))
            (fun e => emit (EvProgress (PError (job_file j) e))).

Fixpoint start_all (batch : list string) : M (list (option Job)) :=
  match batch with
  | [] => mret []
  | f :: fs => j ← batch_start f; js ← start_all fs; mret (j :: js)
  end.

(** [await Promise.all(batch.map(...))]: every promise is started, in
    order; they finish in the order [completion_order] gives (positions
    in the batch). *)
Definition run_batch (order : list string -> list nat) (batch : list string) : M unit :=
  started ← start_all batch;
  for_each batch_finish (omap (fun i => mjoin (started !! i)) (order batch)).

(** [indexPath(targetPath, options)]; [order] is the order in which the
    promises of a batch finish. *)
Definition indexPath (order : list string -> list nat) (targetPath : string)
    (options : IndexOptions) : M (list string * list string) :=
  stat ← of_option FsError (fs_statSync env targetPath);
  let files := if st_isDirectory stat then fs_glob env targetPath
               else [path_resolve env targetPath] in
  let textFiles := List.filter TextLike.isTextLike files in
  filesToProcess ← (if force options then mret textFiles else select_files textFiles);
  let skippedFiles :=
    List.filter (fun f => negb (bool_decide (f ∈ filesToProcess))) textFiles in
  _ ← for_each (fun f => emit (EvProgress (PSkip f))) skippedFiles;
  let width :=
    match concurrency options with
    | Some c => Pos.to_nat c
    | None => Z.to_nat DEFAULT_CONFIG.DEFAULT_CONCURRENCY
    end in
  _ ← for_each (run_batch order) (chunks width filesToProcess);
  mret (filesToProcess, skippedFiles).

(** [new Map(candidates.map(c => [c.rec.id, c]))]: a later entry
    replaces an earlier one with the same key. *)
Definition byId_of (candidates : list Candidate) : gmap string Candidate :=
  foldl (fun m c => <[fr_id (c_rec c) := c]> m) ∅ candidates.

Definition id_summary (c : Candidate) : string * string :=
  (fr_id (c_rec c), fr_summary (c_rec c)).

(** The [.map(...).filter(result => result !== null)] of [search]. *)
Definition join_results (byId : gmap string Candidate) (reranked : list Scored)
  : list SearchResult :=
  omap (fun r =>
          candidate ← byId !! s_id r;
          Some {| sr_id := s_id r;
                  sr_score := s_score r;
                  sr_cosineSimilarity := c_score candidate;
                  sr_metadata := fr_metadata (c_rec candidate);
                  sr_summary := fr_summary (c_rec candidate) |})
       reranked.

Definition candidate_limit (topK : Z) : Z :=
  Z.max (topK * DEFAULT_CONFIG.CANDIDATE_MULTIPLIER) DEFAULT_CONFIG.MIN_CANDIDATES.

(** [search(query, opts)] of the store that takes the two thresholds. *)
Definition search (query : string) (opts : option SearchOpts) : M (list SearchResult) :=
  let topK := default DEFAULT_CONFIG.DEFAULT_TOP_K (o ← opts; topK o) in
  let minSimilarity := default DEFAULT_MIN_SIMILARITY (o ← opts; minSimilarity o) in
  let minScore := default DEFAULT_MIN_SCORE (o ← opts; minScore o) in
  qvec ← Nlp.embedText env azure query query;
  candidates ← read_db (Sqlite.retrieveByEmbedding env backend (Nlp.er_embedding qvec)
                          (candidate_limit topK));
  let filteredCandidates := List.filter (fun c => Js.ge (c_score c) minSimilarity) candidates in
  match filteredCandidates with
  | [] => mret []
  | _ =>
      reranked ← Nlp.rerank env azure query (map id_summary filteredCandidates) topK;
      let byId := byId_of filteredCandidates in
      let results := join_results byId reranked in
      mret (List.filter (fun result => Js.ge (sr_score result) minScore) results)
  end.


(** [info(id)] *)
Definition info (id : string) : M (option FileRecord) :=
  read_db (Sqlite.getById backend id).

End WithEnv.

End SemanticStore.

(* ===================================================================== *)
(** * IEEE 754 facts the properties rest on *)
(* ===================================================================== *)

Module IEEE.

(** ** The order of binary64 values *)

Definition key (f : spec_float) : Z * Z * Z :=
  match f with
  | S754_nan => (0, 0, 0)
  | S754_zero _ => (0, 0, 0)
  | S754_infinity true => (-2, 0, 0)
  | S754_infinity false => (2, 0, 0)
  | S754_finite true m e => (-1, - e, - Z.pos m)
  | S754_finite false m e => (1, e, Z.pos m)
  end.

Definition lex (a b : Z * Z * Z) : comparison :=
  match a.1.1 ?= b.1.1 with
  | Eq => match a.1.2 ?= b.1.2 with
          | Eq => a.2 ?= b.2
          | c => c
          end
  | c => c
  end.

Definition not_nan (f : spec_float) : Prop := f <> S754_nan.

Lemma SFcompare_key f1 f2 :
  not_nan f1 -> not_nan f2 -> SFcompare f1 f2 = Some (lex (key f1) (key f2)).
Proof.
  unfold not_nan, lex.
  destruct f1 as [s1|s1| |s1 m1 e1], f2 as [s2|s2| |s2 m2 e2]; intros H1 H2; try done;
    try (destruct s1; try destruct s2; reflexivity);
    try (destruct s2; reflexivity).
  destruct s1, s2; simpl; try reflexivity.
  rewrite Z.compare_opp, (Z.compare_antisym e1 e2).
  destruct (e1 ?= e2); reflexivity.
Qed.

Lemma lex_le_trans a b c :
  lex a b <> Gt -> lex b c <> Gt -> lex a c <> Gt.
Proof.
  unfold lex. destruct a as [[a1 a2] a3], b as [[b1 b2] b3], c as [[c1 c2] c3]; simpl.
  destruct (Z.compare_spec a1 b1), (Z.compare_spec b1 c1), (Z.compare_spec a1 c1);
    try lia; try done;
  destruct (Z.compare_spec a2 b2), (Z.compare_spec b2 c2), (Z.compare_spec a2 c2);
    try lia; try done;
  destruct (Z.compare_spec a3 b3), (Z.compare_spec b3 c3), (Z.compare_spec a3 c3);
    try lia; try done.
Qed.

Lemma lex_antisym a b : lex b a = CompOpp (lex a b).
Proof.
  unfold lex. destruct a as [[a1 a2] a3], b as [[b1 b2] b3]; simpl.
  rewrite (Z.compare_antisym a1 b1), (Z.compare_antisym a2 b2), (Z.compare_antisym a3 b3).
  destruct (a1 ?= b1), (a2 ?= b2), (a3 ?= b3); reflexivity.
Qed.

Lemma SFleb_not_nan a b : SFleb a b = true -> not_nan a /\ not_nan b.
Proof. unfold SFleb, not_nan. destruct a, b; simpl; try done. Qed.

Lemma SFleb_key a b :
  SFleb a b = true <-> not_nan a /\ not_nan b /\ lex (key a) (key b) <> Gt.
Proof.
  split.
  - intros H. destruct (SFleb_not_nan a b H) as [Ha Hb]. repeat split; try done.
    unfold SFleb in H. rewrite (SFcompare_key a b Ha Hb) in H.
    destruct (lex (key a) (key b)); done.
  - intros (Ha & Hb & H). unfold SFleb. rewrite (SFcompare_key a b Ha Hb).
    destruct (lex (key a) (key b)); done.
Qed.

Lemma SFltb_key a b :
  not_nan a -> not_nan b -> SFltb a b = true <-> lex (key a) (key b) = Lt.
Proof.
  intros Ha Hb. unfold SFltb. rewrite (SFcompare_key a b Ha Hb).
  destruct (lex (key a) (key b)); split; done.
Qed.

Lemma SFleb_trans a b c : SFleb a b = true -> SFleb b c = true -> SFleb a c = true.
Proof.
  rewrite !SFleb_key. intros (Ha & Hb & H1) (_ & Hc & H2).
  repeat split; try done. by eapply lex_le_trans.
Qed.

Lemma SFleb_total a b : not_nan a -> not_nan b -> SFltb a b = false -> SFleb b a = true.
Proof.
  intros Ha Hb H. apply SFleb_key. repeat split; try done.
  rewrite lex_antisym. intros Hgt.
  assert (lex (key a) (key b) = Lt) as Hlt by (destruct (lex (key a) (key b)); done).
  apply (SFltb_key a b Ha Hb) in Hlt. congruence.
Qed.

Lemma SFltb_leb a b : SFltb a b = true -> SFleb a b = true.
Proof. unfold SFltb, SFleb. destruct (SFcompare a b) as [[]|]; done. Qed.


(** ** Digits *)

Lemma digits_bounds p :
  2 ^ (Z.pos (digits2_pos p) - 1) <= Z.pos p < 2 ^ Z.pos (digits2_pos p).
Proof.
  induction p as [p IH|p IH|]; simpl digits2_pos.
  - rewrite Pos2Z.inj_succ. change (Z.pos p~1) with (2 * Z.pos p + 1).
    replace (Z.succ (Z.pos (digits2_pos p)) - 1) with (Z.succ (Z.pos (digits2_pos p) - 1)) by lia.
    assert (0 <= Z.pos (digits2_pos p) - 1) by lia.
    rewrite !Z.pow_succ_r by lia.
    set (A := 2 ^ (Z.pos (digits2_pos p) - 1)) in *.
    set (B := 2 ^ Z.pos (digits2_pos p)) in *. lia.
  - rewrite Pos2Z.inj_succ. change (Z.pos p~0) with (2 * Z.pos p).
    replace (Z.succ (Z.pos (digits2_pos p)) - 1) with (Z.succ (Z.pos (digits2_pos p) - 1)) by lia.
    assert (0 <= Z.pos (digits2_pos p) - 1) by lia.
    rewrite !Z.pow_succ_r by lia.
    set (A := 2 ^ (Z.pos (digits2_pos p) - 1)) in *.
    set (B := 2 ^ Z.pos (digits2_pos p)) in *. lia.
  - change (1 <= 1 < 2). lia.
Qed.

Lemma digits_unique p k :
  2 ^ (k - 1) <= Z.pos p < 2 ^ k -> Z.pos (digits2_pos p) = k.
Proof.
  intros [Hl Hu]. pose proof (digits_bounds p) as [Hl' Hu'].
  set (d := Z.pos (digits2_pos p)) in *.
  assert (0 < k).
  { destruct (Z.lt_trichotomy k 0) as [Hk|[Hk|Hk]]; [|subst k; simpl in Hu; lia|done].
    rewrite Z.pow_neg_r in Hu by done. lia. }
  destruct (Z.lt_trichotomy d k) as [Hlt|[Heq|Hgt]]; [|done|].
  - assert (2 ^ d <= 2 ^ (k - 1)) by (apply Z.pow_le_mono_r; lia). lia.
  - assert (2 ^ k <= 2 ^ (d - 1)) by (apply Z.pow_le_mono_r; lia). lia.
Qed.

Lemma digits_shift p k :
  Z.pos (digits2_pos (Pos.iter xO p k)) = Z.pos (digits2_pos p) + Z.pos k.
Proof.
  apply digits_unique.
  change (Pos.iter xO p k) with (shift_pos k p).
  rewrite shift_pos_correct, Z.pow_pos_fold.
  pose proof (digits_bounds p) as [Hl Hu].
  replace (Z.pos (digits2_pos p) + Z.pos k - 1) with (Z.pos k + (Z.pos (digits2_pos p) - 1)) by lia.
  rewrite (Z.add_comm (Z.pos (digits2_pos p))).
  rewrite !Z.pow_add_r by lia.
  assert (0 < 2 ^ Z.pos k) by (apply Z.pow_pos_nonneg; lia).
  split; [apply Z.mul_le_mono_nonneg_l; lia | apply Z.mul_lt_mono_pos_l; lia].
Qed.

Lemma digits_succ p :
  Z.pos (digits2_pos (Pos.succ p)) = Z.pos (digits2_pos p)
  \/ Z.pos (digits2_pos (Pos.succ p)) = Z.pos (digits2_pos p) + 1.
Proof.
  pose proof (digits_bounds p) as [Hl Hu].
  destruct (Z.eq_dec (Z.pos p + 1) (2 ^ Z.pos (digits2_pos p))) as [Heq|Hne].
  - right. apply digits_unique. rewrite Pos2Z.inj_succ.
    replace (Z.pos (digits2_pos p) + 1 - 1) with (Z.pos (digits2_pos p)) by lia.
    rewrite Z.pow_add_r by lia. lia.
  - left. apply digits_unique. rewrite Pos2Z.inj_succ. lia.
Qed.


(** ** Shifting a mantissa to the right keeps it positive while fewer
    bits are dropped than it has. *)

Lemma shr_1_pos p r s :
  1 < Z.pos (digits2_pos p) ->
  exists q r' s', shr_1 (Build_shr_record (Z.pos p) r s) = Build_shr_record (Z.pos q) r' s'
                  /\ Z.pos (digits2_pos q) = Z.pos (digits2_pos p) - 1.
Proof.
  destruct p as [p|p|]; simpl; intros Hd; [| |lia].
  - exists p, true, (r || s). split; [done|lia].
  - exists p, false, (r || s). split; [done|lia].
Qed.

Lemma shr_iter_pos n : forall p r s,
  Z.pos n < Z.pos (digits2_pos p) ->
  exists q r' s',
    SpecFloat.iter_pos shr_1 n (Build_shr_record (Z.pos p) r s) = Build_shr_record (Z.pos q) r' s'
    /\ Z.pos (digits2_pos q) = Z.pos (digits2_pos p) - Z.pos n.
Proof.
  induction n as [n IH|n IH|]; intros p r s Hd.
  - change (SpecFloat.iter_pos shr_1 n~1 ?x)
      with (SpecFloat.iter_pos shr_1 n (SpecFloat.iter_pos shr_1 n (shr_1 x))).
    destruct (shr_1_pos p r s) as (q0 & r0 & s0 & -> & Hq0); [lia|].
    destruct (IH q0 r0 s0) as (q1 & r1 & s1 & -> & Hq1); [lia|].
    destruct (IH q1 r1 s1) as (q2 & r2 & s2 & -> & Hq2); [lia|].
    exists q2, r2, s2. split; [done|lia].
  - change (SpecFloat.iter_pos shr_1 n~0 ?x)
      with (SpecFloat.iter_pos shr_1 n (SpecFloat.iter_pos shr_1 n x)).
    destruct (IH p r s) as (q1 & r1 & s1 & -> & Hq1); [lia|].
    destruct (IH q1 r1 s1) as (q2 & r2 & s2 & -> & Hq2); [lia|].
    exists q2, r2, s2. split; [done|lia].
  - apply shr_1_pos. lia.
Qed.


(** ** Rounding keeps the sign, and a non-zero value stays non-zero when
    the exponent is not below [emin]. *)

Section Round.
Variables prec emax : Z.
Hypothesis Hprec : 0 < prec.

Let emin := SpecFloat.emin prec emax.
Let fexp := SpecFloat.fexp prec emax.

Definition is_positive (f : spec_float) : Prop :=
  match f with
  | S754_finite false _ _ | S754_infinity false => True
  | _ => False
  end.

Definition sign_is (sx : bool) (f : spec_float) : Prop :=
  match f with
  | S754_zero s | S754_infinity s | S754_finite s _ _ => s = sx
  | S754_nan => True
  end.

Lemma binary_round_aux_sign sx m e l : sign_is sx (binary_round_aux prec emax sx m e l).
Proof.
  unfold binary_round_aux.
  destruct (shr_fexp prec emax m e l) as [mrs' e'].
  destruct (shr_fexp prec emax _ e' loc_Exact) as [mrs'' e''].
  destruct (shr_m mrs''); simpl; try done.
  destruct (e'' <=? emax - prec); done.
Qed.

Lemma binary_round_sign sx m e : sign_is sx (binary_round prec emax sx m e).
Proof.
  unfold binary_round. destruct (shl_align _ _ _). apply binary_round_aux_sign.
Qed.

Lemma round_nearest_even_pos q l :
  exists q2, round_nearest_even (Z.pos q) l = Z.pos q2
             /\ (Z.pos (digits2_pos q2) = Z.pos (digits2_pos q)
                 \/ Z.pos (digits2_pos q2) = Z.pos (digits2_pos q) + 1).
Proof.
  assert (exists q2, Z.pos q + 1 = Z.pos q2
             /\ (Z.pos (digits2_pos q2) = Z.pos (digits2_pos q)
                 \/ Z.pos (digits2_pos q2) = Z.pos (digits2_pos q) + 1)) as Hs.
  { exists (Pos.succ q). split; [lia|apply digits_succ]. }
  assert (exists q2, Z.pos q = Z.pos q2
             /\ (Z.pos (digits2_pos q2) = Z.pos (digits2_pos q)
                 \/ Z.pos (digits2_pos q2) = Z.pos (digits2_pos q) + 1)) as Hk.
  { exists q. split; [done|by left]. }
  unfold round_nearest_even. destruct l as [|[]]; try done.
  destruct (Z.even (Z.pos q)); done.
Qed.

Lemma finish_positive q e :
  is_positive (if e <=? emax - prec then S754_finite false q e else S754_infinity false).
Proof. destruct (e <=? emax - prec); done. Qed.

Lemma binary_round_aux_positive m e :
  emin <= e -> is_positive (binary_round_aux prec emax false (Z.pos m) e loc_Exact).
Proof.
  intros He. unfold binary_round_aux, shr_fexp. simpl Zdigits2.
  fold fexp. set (d := Z.pos (digits2_pos m)).
  assert (Hfexp : forall x, fexp x = Z.max (x - prec) emin) by done.
  destruct (fexp (d + e) - e) as [|k|k] eqn:Hn; simpl shr.
  - (* no shift *)
    simpl. fold fexp. fold d. rewrite Hn. simpl. apply finish_positive.
  - (* shift right by [k = d - prec] *)
    assert (Hk : Z.pos k = d - prec) by (rewrite Hfexp in Hn; lia).
    destruct (shr_iter_pos k m false false) as (q & r' & s' & Hit & Hq); [fold d; lia|].
    simpl shr_record_of_loc. rewrite Hit.
    destruct (round_nearest_even_pos q (loc_of_shr_record (Build_shr_record (Z.pos q) r' s')))
      as (q2 & Hq2 & Hd2).
    simpl shr_m. rewrite Hq2. simpl Zdigits2. fold d in Hq.
    destruct Hd2 as [Hd2|Hd2].
    + replace (fexp (Z.pos (digits2_pos q2) + (e + Z.pos k)) - (e + Z.pos k)) with 0
        by (rewrite Hfexp; lia).
      simpl. apply finish_positive.
    + replace (fexp (Z.pos (digits2_pos q2) + (e + Z.pos k)) - (e + Z.pos k)) with 1
        by (rewrite Hfexp; lia).
      simpl shr.
      destruct (shr_iter_pos 1 q2 false false) as (q3 & r3 & s3 & Hit3 & _); [lia|].
      simpl in Hit3. simpl shr_record_of_loc. simpl shr_1 in *.
      change (SpecFloat.iter_pos shr_1 1 ?x) with (shr_1 x).
      rewrite Hit3. simpl. apply finish_positive.
  - (* the exponent is above the format's: nothing is shifted here *)
    simpl. fold fexp. fold d. rewrite Hn. simpl. apply finish_positive.
Qed.

Lemma binary_round_positive m e :
  emin <= e -> is_positive (binary_round prec emax false m e).
Proof.
  intros He. unfold binary_round, shl_align. fold fexp.
  assert (Hfexp : forall x, fexp x = Z.max (x - prec) emin) by done.
  destruct (fexp (Z.pos (digits2_pos m) + e) - e) eqn:Hn;
    apply binary_round_aux_positive; try done.
  rewrite Hfexp. lia.
Qed.


Lemma shl_align_value mx ex ez :
  ez <= ex -> Z.pos (fst (shl_align mx ex ez)) = Z.pos mx * 2 ^ (ex - ez).
Proof.
  intros Hle. unfold shl_align.
  destruct (ez - ex) as [|k|k] eqn:Hk; simpl fst; [|lia|].
  - replace (ex - ez) with 0 by lia. lia.
  - change (Pos.iter xO mx k) with (shift_pos k mx).
    rewrite shift_pos_correct, Z.pow_pos_fold.
    replace (ex - ez) with (Z.pos k) by lia. lia.
Qed.

Lemma valid_finite s m e :
  SpecFloat.valid_binary prec emax (S754_finite s m e) = true ->
  emin <= e /\ Z.pos (digits2_pos m) <= prec /\ (emin < e -> Z.pos (digits2_pos m) = prec).
Proof.
  simpl. unfold SpecFloat.bounded, SpecFloat.canonical_mantissa. rewrite andb_true_iff, Z.eqb_eq.
  fold fexp. assert (Hfexp : forall x, fexp x = Z.max (x - prec) emin) by done.
  rewrite Hfexp. lia.
Qed.

(** For two valid values of the same sign, the one with the larger
    exponent has the larger magnitude. *)
Lemma valid_exponent_lt s1 m1 e1 s2 m2 e2 :
  SpecFloat.valid_binary prec emax (S754_finite s1 m1 e1) = true ->
  SpecFloat.valid_binary prec emax (S754_finite s2 m2 e2) = true ->
  e1 < e2 -> Z.pos m1 < Z.pos m2 * 2 ^ (e2 - e1).
Proof.
  intros H1 H2 Hlt.
  apply valid_finite in H1 as (He1 & Hd1 & _). apply valid_finite in H2 as (He2 & _ & Hd2).
  specialize (Hd2 ltac:(lia)).
  pose proof (digits_bounds m1) as [_ Hu]. pose proof (digits_bounds m2) as [Hl _].
  rewrite Hd2 in Hl.
  assert (2 ^ Z.pos (digits2_pos m1) <= 2 ^ prec) by (apply Z.pow_le_mono_r; lia).
  assert (2 ^ 1 <= 2 ^ (e2 - e1)) by (apply Z.pow_le_mono_r; lia).
  assert (2 ^ prec = 2 ^ (prec - 1) * 2 ^ 1) as Hp.
  { rewrite <- Z.pow_add_r by lia. f_equal. lia. }
  assert (2 ^ (prec - 1) * 2 ^ 1 <= Z.pos m2 * 2 ^ (e2 - e1)).
  { apply Z.mul_le_mono_nonneg; first [lia | apply Z.pow_nonneg; lia]. }
  lia.
Qed.

Lemma normalize_sign D e :
  emin <= e ->
  SFltb (S754_zero false) (binary_normalize prec emax D e false) = (0 <? D).
Proof.
  intros He. destruct D as [|p|p]; simpl binary_normalize.
  - reflexivity.
  - pose proof (binary_round_positive p e He) as Hp.
    destruct (binary_round prec emax false p e) as [| [] | | [] ? ?]; done.
  - pose proof (binary_round_sign true p e) as Hp.
    destruct (binary_round prec emax true p e) as [| [] | | [] ? ?]; done.
Qed.

(** The sign of a difference: [b - a] is positive exactly when [a < b]. *)
Lemma SFsub_sign a b :
  SpecFloat.valid_binary prec emax a = true -> SpecFloat.valid_binary prec emax b = true ->
  not_nan a -> not_nan b ->
  SFltb (S754_zero false) (SFsub prec emax b a) = SFltb a b.
Proof.
  intros Va Vb Na Nb.
  destruct a as [sa|sa| |sa ma ea], b as [sb|sb| |sb mb eb]; try done;
    try (destruct sa; try destruct sb; reflexivity);
    try (destruct sb; try destruct sa; reflexivity).
  unfold SFsub.
  pose proof (valid_finite _ _ _ Va) as (Hea & _). pose proof (valid_finite _ _ _ Vb) as (Heb & _).
  rewrite normalize_sign by lia.
  rewrite !shl_align_value by lia.
  assert (Hpow : forall x, 0 < 2 ^ (x - Z.min eb ea) \/ x < Z.min eb ea).
  { intros x. destruct (Z.le_gt_cases (Z.min eb ea) x); [left|right; lia].
    apply Z.pow_pos_nonneg; lia. }
  assert (HA : 0 < Z.pos ma * 2 ^ (ea - Z.min eb ea)) by (destruct (Hpow ea); lia).
  assert (HB : 0 < Z.pos mb * 2 ^ (eb - Z.min eb ea)) by (destruct (Hpow eb); lia).
  unfold SFltb, SFcompare.
  destruct sa, sb; simpl cond_Zopp.
  - (* both negative *)
    destruct (Z.compare_spec ea eb) as [Heq|Hlt|Hgt].
    + subst eb. rewrite Z.min_id, Z.sub_diag, !Z.mul_1_r.
      rewrite Pos.compare_cont_spec. simpl. rewrite Pos2Z.inj_compare.
      destruct (Z.compare_spec (Z.pos ma) (Z.pos mb)); simpl; lia.
    + pose proof (valid_exponent_lt _ _ _ _ _ _ Va Vb Hlt).
      rewrite Z.min_r, Z.sub_diag, Z.mul_1_r by lia. lia.
    + pose proof (valid_exponent_lt _ _ _ _ _ _ Vb Va Hgt).
      rewrite Z.min_l, Z.sub_diag, Z.mul_1_r by lia. lia.
  - lia.
  - lia.
  - (* both positive *)
    destruct (Z.compare_spec ea eb) as [Heq|Hlt|Hgt].
    + subst eb. rewrite Z.min_id, Z.sub_diag, !Z.mul_1_r.
      rewrite Pos.compare_cont_spec. simpl. rewrite Pos2Z.inj_compare.
      destruct (Z.compare_spec (Z.pos ma) (Z.pos mb)); simpl; lia.
    + pose proof (valid_exponent_lt _ _ _ _ _ _ Va Vb Hlt).
      rewrite Z.min_r, Z.sub_diag, Z.mul_1_r by lia. lia.
    + pose proof (valid_exponent_lt _ _ _ _ _ _ Vb Va Hgt).
      rewrite Z.min_l, Z.sub_diag, Z.mul_1_r by lia. lia.
Qed.


(** A value that fits the precision is represented exactly, with its
    mantissa shifted to full width. *)
Lemma binary_round_exact sx m e :
  let d := Z.pos (digits2_pos m) in
  d <= prec -> emin <= e + d - prec -> e + d <= emax ->
  exists mz, binary_round prec emax sx m e = S754_finite sx mz (e + d - prec)
             /\ Z.pos mz = Z.pos m * 2 ^ (prec - d).
Proof.
  intros d Hd Hlo Hhi.
  assert (Hfexp : forall x, fexp x = Z.max (x - prec) emin) by done.
  assert (Haux : forall mz, Z.pos (digits2_pos mz) = prec ->
            binary_round_aux prec emax sx (Z.pos mz) (e + d - prec) loc_Exact
            = S754_finite sx mz (e + d - prec)).
  { intros mz Hmz. unfold binary_round_aux, shr_fexp. simpl Zdigits2. fold fexp.
    replace (fexp (Z.pos (digits2_pos mz) + (e + d - prec)) - (e + d - prec)) with 0
      by (rewrite Hfexp; lia).
    simpl. fold fexp.
    replace (fexp (Z.pos (digits2_pos mz) + (e + d - prec)) - (e + d - prec)) with 0
      by (rewrite Hfexp; lia).
    simpl. replace (e + d - prec <=? emax - prec) with true; [done|].
    symmetry. apply Z.leb_le. lia. }
  unfold binary_round, shl_align. fold fexp. fold d.
  replace (fexp (d + e)) with (e + d - prec) by (rewrite Hfexp; lia).
  destruct (e + d - prec - e) as [|k|k] eqn:Hk; [|lia|].
  - exists m. split.
    + replace e with (e + d - prec) at 1 by lia. apply Haux. fold d. lia.
    + replace (prec - d) with 0 by lia. lia.
  - exists (Pos.iter xO m k). split.
    + apply Haux. rewrite digits_shift. fold d. lia.
    + change (Pos.iter xO m k) with (shift_pos k m).
      rewrite shift_pos_correct, Z.pow_pos_fold. replace (prec - d) with (Z.pos k) by lia. lia.
Qed.

End Round.

(** ** binary64 *)

Lemma digits_small p k : Z.pos p < 2 ^ k -> Z.pos (digits2_pos p) <= k.
Proof.
  intros Hp. pose proof (digits_bounds p) as [Hl _].
  destruct (Z.le_gt_cases (Z.pos (digits2_pos p)) k) as [|Hgt]; [done|].
  assert (2 ^ k <= 2 ^ (Z.pos (digits2_pos p) - 1)).
  { destruct (Z.le_gt_cases 0 k); [apply Z.pow_le_mono_r; lia|].
    rewrite (Z.pow_neg_r 2 k) by lia. apply Z.pow_nonneg. lia. }
  lia.
Qed.

Lemma int_exact p :
  Z.pos p < 2 ^ 53 ->
  exists mz, binary_normalize prec emax (Z.pos p) 0 false
             = S754_finite false mz (Z.pos (digits2_pos p) - 53)
             /\ Z.pos mz = Z.pos p * 2 ^ (53 - Z.pos (digits2_pos p)).
Proof.
  intros Hp. simpl binary_normalize.
  pose proof (digits_small p 53 Hp).
  destruct (binary_round_exact prec emax false p 0) as (mz & Hr & Hm);
    try (unfold SpecFloat.emin, prec, emax; lia).
  exists mz. split; [rewrite Hr; f_equal; unfold prec; lia | exact Hm].
Qed.


Lemma SFmul_comm x y : SFmul prec emax x y = SFmul prec emax y x.
Proof.
  destruct x as [sx|sx| |sx mx ex], y as [sy|sy| |sy my ey]; simpl;
    try rewrite (xorb_comm sx sy); try reflexivity.
  by rewrite (Pos.mul_comm mx my), (Z.add_comm ex ey).
Qed.

Lemma not_nan_Prim2SF x : is_nan x = false <-> not_nan (Prim2SF x).
Proof.
  unfold not_nan, Prim2SF. destruct (is_nan x); split; try done.
  intros _. destruct (is_zero x); [done|]. destruct (is_infinity x); [done|].
  destruct (Z.frexp x) as [r ex]. destruct (shr_fexp _ _ _ _ _) as [sh e'].
  destruct (shr_m sh); done.
Qed.


(** ** Facts about numbers, through the specification of the primitive
    operations *)

Lemma ge_trans x y z : Js.ge x y = true -> Js.ge y z = true -> Js.ge x z = true.
Proof.
  unfold Js.ge. rewrite !FloatAxioms.leb_spec. intros Hxy Hyz. by eapply SFleb_trans.
Qed.

Lemma lt_ge x y : (x <? y)%float = true -> Js.ge y x = true.
Proof.
  unfold Js.ge. rewrite FloatAxioms.ltb_spec, FloatAxioms.leb_spec. apply SFltb_leb.
Qed.

Lemma not_lt_ge x y :
  is_nan x = false -> is_nan y = false -> (x <? y)%float = false -> Js.ge x y = true.
Proof.
  unfold Js.ge. rewrite FloatAxioms.ltb_spec, FloatAxioms.leb_spec, !not_nan_Prim2SF.
  apply SFleb_total.
Qed.

(** The comparator [(a, b) => b - a] asks for a swap exactly when
    [a < b]. *)
Lemma after_sub (x y : float) :
  is_nan x = false -> is_nan y = false -> Js.after (y - x)%float = (x <? y)%float.
Proof.
  intros Hx Hy. unfold Js.after.
  rewrite !FloatAxioms.ltb_spec, FloatAxioms.sub_spec.
  change (Prim2SF 0) with (S754_zero false).
  apply (SFsub_sign prec emax); try apply Prim2SF_valid; try done; by apply not_nan_Prim2SF.
Qed.

Lemma of_Z_spec z :
  0 <= z < 2 ^ 63 -> Prim2SF (Js.of_Z z) = binary_normalize prec emax z 0 false.
Proof.
  intros Hz. unfold Js.of_Z. replace (z <? 0) with false by (symmetry; apply Z.ltb_ge; lia).
  rewrite of_uint63_spec, Uint63.of_Z_spec. f_equal.
  apply Z.mod_small. exact Hz.
Qed.


Lemma of_Z_not_nan z : 0 <= z < 2 ^ 53 -> is_nan (Js.of_Z z) = false.
Proof.
  intros Hz. apply not_nan_Prim2SF. rewrite of_Z_spec by lia.
  destruct z as [|p|p]; [done| |lia].
  destruct (int_exact p ltac:(lia)) as (mz & -> & _). done.
Qed.

Lemma mul_comm (x y : float) : PrimFloat.mul x y = PrimFloat.mul y x.
Proof.
  apply Prim2SF_inj. rewrite !FloatAxioms.mul_spec. apply SFmul_comm.
Qed.

End IEEE.

(* ===================================================================== *)
(** * Sorting by descending score *)
(* ===================================================================== *)

Module SortFacts.

Section Sorting.
Context {A : Type} (score : A -> Js.number).

(** The comparator [(a, b) => b.score - a.score]. *)
Definition cmp_desc (a b : A) : Js.number := (score b - score a)%float.

(** [a] may stand before [b]: [a.score >= b.score]. *)
Definition desc (a b : A) : Prop := Js.ge (score a) (score b) = true.

(** No score is NaN. *)
Definition numeric (l : list A) : Prop := Forall (fun a => is_nan (score a) = false) l.

Lemma sort_insert_elem x l y :
  y ∈ Js.sort_insert cmp_desc x l <-> y = x \/ y ∈ l.
Proof.
  induction l as [|z l IH]; simpl.
  - rewrite list_elem_of_singleton, elem_of_nil. tauto.
  - destruct (Js.after (cmp_desc x z)); rewrite !elem_of_cons; [rewrite IH|]; tauto.
Qed.

Lemma sort_insert_sorted x l :
  is_nan (score x) = false -> numeric l ->
  StronglySorted desc l -> StronglySorted desc (Js.sort_insert cmp_desc x l).
Proof.
  intros Hx Hl Hs. induction Hs as [|z l Hs IH Hz]; simpl.
  - repeat constructor.
  - apply Forall_cons in Hl as [Hnz Hl]. unfold cmp_desc at 1.
    rewrite (IEEE.after_sub (score x) (score z) Hx Hnz).
    destruct (score x <? score z)%float eqn:Hlt.
    + constructor; [by apply IH|].
      apply Forall_forall. intros y Hy. apply sort_insert_elem in Hy as [->|Hy].
      * by apply IEEE.lt_ge.
      * by eapply Forall_forall in Hz.
    + assert (desc x z) by (by apply IEEE.not_lt_ge).
      constructor; [by constructor|].
      constructor; [done|].
      apply Forall_forall. intros y Hy. eapply Forall_forall in Hz; [|done].
      by eapply IEEE.ge_trans.
Qed.

Lemma sort_elem l y : y ∈ Js.sort cmp_desc l <-> y ∈ l.
Proof.
  induction l as [|x l IH]; simpl; [done|].
  rewrite sort_insert_elem, elem_of_cons, IH. tauto.
Qed.

(** Sorting with the comparator puts numeric scores in descending
    order. *)
Lemma sort_sorted l : numeric l -> StronglySorted desc (Js.sort cmp_desc l).
Proof.
  intros Hl. induction l as [|x l IH]; simpl; [constructor|].
  apply Forall_cons in Hl as [Hx Hl].
  apply sort_insert_sorted; [done| |by apply IH].
  apply Forall_forall. intros y Hy. rewrite sort_elem in Hy.
  unfold numeric in Hl. rewrite Forall_forall in Hl. by apply Hl.
Qed.

Lemma sort_insert_perm x l : Js.sort_insert cmp_desc x l ≡ₚ x :: l.
Proof.
  induction l as [|z l IH]; simpl; [done|].
  destruct (Js.after (cmp_desc x z)); [|done].
  rewrite IH. apply Permutation_swap.
Qed.

Lemma sort_perm l : Js.sort cmp_desc l ≡ₚ l.
Proof.
  induction l as [|x l IH]; simpl; [done|]. by rewrite sort_insert_perm, IH.
Qed.

Lemma sorted_take n l : StronglySorted desc l -> StronglySorted desc (take n l).
Proof.
  intros Hs. revert n. induction Hs as [|z l Hs IH Hz]; intros [|n]; simpl; try constructor.
  - apply IH.
  - by apply Forall_take.
Qed.

Lemma sorted_slice0 l e : StronglySorted desc l -> StronglySorted desc (Js.slice0 l e).
Proof. intros Hs. unfold Js.slice0. destruct (e <? 0); by apply sorted_take. Qed.


End Sorting.


End SortFacts.

(* ===================================================================== *)
(** * Properties of [search] *)
(* ===================================================================== *)

Module SearchProps.
Import SemanticStore.

Lemma byId_of_lookup_acc (l : list Candidate) (m : gmap string Candidate) k c :
  foldl (fun m c => <[fr_id (c_rec c) := c]> m) m l !! k = Some c ->
  c ∈ l \/ m !! k = Some c.
Proof.
  revert m. induction l as [|x l IH]; intros m Hl; simpl in *.
  - by right.
  - destruct (IH _ Hl) as [Hin | Hm].
    + left. apply elem_of_cons. by right.
    + destruct (decide (fr_id (c_rec x) = k)) as [Heq | Hne]; [subst k|].
      * rewrite lookup_insert_eq in Hm. inversion Hm; subst. left. apply elem_of_cons. by left.
      * rewrite lookup_insert_ne in Hm by done. by right.
Qed.

Lemma byId_of_lookup (l : list Candidate) k c :
  byId_of l !! k = Some c -> c ∈ l.
Proof.
  intros Hl. destruct (byId_of_lookup_acc l ∅ k c Hl) as [? | Hm]; [done|].
  by rewrite lookup_empty in Hm.
Qed.

Lemma join_results_elem byId reranked res :
  res ∈ join_results byId reranked ->
  exists r c, r ∈ reranked /\ byId !! s_id r = Some c /\
              sr_id res = s_id r /\ sr_score res = s_score r /\
              sr_cosineSimilarity res = c_score c.
Proof.
  unfold join_results. rewrite list_elem_of_omap. intros (r & Hr & Hres).
  destruct (byId !! s_id r) as [c|] eqn:Hc; simpl in Hres; [|done].
  inversion Hres; subst; simpl. by exists r, c.
Qed.

Lemma filter_elem {A} (p : A -> bool) (l : list A) x :
  x ∈ List.filter p l <-> x ∈ l /\ p x = true.
Proof. rewrite !list_elem_of_In. apply filter_In. Qed.

Lemma filter_length_le {A} (p : A -> bool) (l : list A) :
  (length (List.filter p l) <= length l)%nat.
Proof. induction l as [|x l IH]; simpl; [lia|]. destruct (p x); simpl; lia. Qed.






Section WithEnv.
Context (env : Env) (config : StoreConfig) (dsim dscore : Js.number).

Let azure := cfg_azure config.
Let backend := cfg_backend config.

Definition topK_of (opts : option SearchOpts) : Z :=
  default DEFAULT_CONFIG.DEFAULT_TOP_K (o ← opts; topK o).

Definition minSimilarity_of (opts : option SearchOpts) : Js.number :=
  default dsim (o ← opts; minSimilarity o).

Definition minScore_of (opts : option SearchOpts) : Js.number :=
  default dscore (o ← opts; minScore o).

(** The candidates [search] keeps: those whose similarity is at least
    [minSimilarity]. *)
Definition kept (opts : option SearchOpts) (candidates : list Candidate) : list Candidate :=
  List.filter (fun c => Js.ge (c_score c) (minSimilarity_of opts)) candidates.

(** The request [rerank] sends for a list of candidates. *)
Definition rerank_call (query : string) (cs : list Candidate) : Event :=
  EvCall query (CallChat (Nlp.rerankDeployment azure)
                  (Nlp.rerank_messages query (map id_summary cs))).

Lemma rerank_log query cs k w :
  w_log (fst (Nlp.rerank env azure query (map id_summary cs) k w))
  = w_log w ++ [rerank_call query cs]
  /\ w_db (fst (Nlp.rerank env azure query (map id_summary cs) k w)) = w_db w.
Proof.
  unfold Nlp.rerank, request, mbind, M_bind, emit, of_option; simpl.
  destruct (chat_create env _ _) as [resp|]; simpl; [|done].
  destruct (Nlp.parse_ranking env _); simpl; done.
Qed.

(** What [search] does once the query is embedded and the candidates are
    retrieved. *)
Lemma search_after_retrieval query opts w w1 qvec candidates :
  Nlp.embedText env azure query query w = (w1, Ok qvec) ->
  Sqlite.retrieveByEmbedding env backend (Nlp.er_embedding qvec)
    (candidate_limit (topK_of opts)) (w_db w1) = Ok candidates ->
  search env config dsim dscore query opts w =
    match kept opts candidates with
    | [] => (w1, Ok [])
    | _ =>
        (reranked ← Nlp.rerank env azure query (map id_summary (kept opts candidates))
                      (topK_of opts);
         mret (List.filter (fun result => Js.ge (sr_score result) (minScore_of opts))
                 (join_results (byId_of (kept opts candidates)) reranked))) w1
    end.
Proof.
  intros Hemb Hret.
  unfold search. unfold mbind at 1, M_bind at 1. fold azure. rewrite Hemb.
  unfold mbind at 1, M_bind at 1. unfold read_db at 1. fold backend.
  unfold topK_of in Hret. rewrite Hret. fold (minSimilarity_of opts).
  unfold kept. destruct (List.filter _ candidates); done.
Qed.

(** C1. Whatever the query and the threshold, the rerank provider is sent
    exactly the retrieved candidates whose similarity is at least
    [minSimilarity], and nothing else happens after the retrieval; when no
    candidate is left, [search] returns the empty list and the world is
    as the query embedding left it: no rerank request is made. Every
    result's similarity is at least [minSimilarity]. *)
Theorem search_similarity_floor query opts w w1 qvec candidates :
  Nlp.embedText env azure query query w = (w1, Ok qvec) ->
  Sqlite.retrieveByEmbedding env backend (Nlp.er_embedding qvec)
    (candidate_limit (topK_of opts)) (w_db w1) = Ok candidates ->
  let out := search env config dsim dscore query opts w in
  (forall c, c ∈ kept opts candidates <->
             c ∈ candidates /\ Js.ge (c_score c) (minSimilarity_of opts) = true)
  /\ (kept opts candidates = [] -> out = (w1, Ok []))
  /\ (kept opts candidates <> [] ->
      w_log (fst out) = w_log w1 ++ [rerank_call query (kept opts candidates)]
      /\ w_db (fst out) = w_db w1)
  /\ (forall results res, snd out = Ok results -> res ∈ results ->
      Js.ge (sr_cosineSimilarity res) (minSimilarity_of opts) = true).
Proof.
  intros Hemb Hret out.
  pose proof (search_after_retrieval query opts w w1 qvec candidates Hemb Hret) as Hout.
  fold out in Hout.
  split; [intros c; unfold kept; by rewrite filter_elem|].
  split; [intros Hk; by rewrite Hout, Hk|].
  split.
  - intros Hk. rewrite Hout. destruct (kept opts candidates) as [|c0 cs] eqn:E; [done|].
    unfold mbind, M_bind.
    pose proof (rerank_log query (c0 :: cs) (topK_of opts) w1) as [Hl Hd].
    destruct (Nlp.rerank env azure query _ _ w1) as [w2 [rr|e]]; simpl in *; done.
  - intros results res Hres Hin. rewrite Hout in Hres.
    destruct (kept opts candidates) as [|c0 cs] eqn:E.
    { simpl in Hres. inversion Hres; subst. by apply elem_of_nil in Hin. }
    unfold mbind, M_bind in Hres.
    destruct (Nlp.rerank env azure query _ _ w1) as [w2 [rr|e]]; simpl in Hres; [|done].
    inversion Hres; subst results. apply filter_elem in Hin as [Hin _].
    apply join_results_elem in Hin as (r & c & _ & Hc & _ & _ & Hsim).
    apply byId_of_lookup in Hc. rewrite <- E in Hc.
    unfold kept in Hc. apply filter_elem in Hc as [_ Hc]. by rewrite Hsim.
Qed.

(** C2. Whatever the query and the threshold, the list [search] returns
    is the joined list without the entries whose final score is not at
    least [minScore]: an entry is returned exactly when it is joined and
    [score >= minScore] holds, the bound included. *)
Theorem search_score_floor query opts w w1 qvec candidates w2 reranked :
  Nlp.embedText env azure query query w = (w1, Ok qvec) ->
  Sqlite.retrieveByEmbedding env backend (Nlp.er_embedding qvec)
    (candidate_limit (topK_of opts)) (w_db w1) = Ok candidates ->
  kept opts candidates <> [] ->
  Nlp.rerank env azure query (map id_summary (kept opts candidates)) (topK_of opts) w1
    = (w2, Ok reranked) ->
  let joined := join_results (byId_of (kept opts candidates)) reranked in
  exists results,
    search env config dsim dscore query opts w = (w2, Ok results)
    /\ results = List.filter (fun r => Js.ge (sr_score r) (minScore_of opts)) joined
    /\ (forall res, res ∈ results <->
                    res ∈ joined /\ Js.ge (sr_score res) (minScore_of opts) = true).
Proof.
  intros Hemb Hret Hk Hrr joined.
  eexists. split; [|split; [reflexivity|]].
  - rewrite (search_after_retrieval query opts w w1 qvec candidates Hemb Hret).
    destruct (kept opts candidates) as [|c0 cs] eqn:E; [done|].
    unfold mbind, M_bind. rewrite Hrr. reflexivity.
  - intros res. by rewrite filter_elem.
Qed.




End WithEnv.

End SearchProps.

(* ===================================================================== *)
(** * Properties of utils.ts *)
(* ===================================================================== *)

Module UtilsProps.

(** ** [cosine] *)

(** The dot product of two arrays of the same length, as the loop
    accumulates it. *)
Definition dot (a b : list Js.number) : Js.number :=
  fold_left (fun s p => (s + fst p * snd p)%float) (combine a b) 0%float.

Lemma cosine_loop_drop (a b : list Js.number) k : forall i s,
  (i + k <= length a)%nat -> (i + k <= length b)%nat ->
  Utils.cosine_loop a b k i s
  = fold_left (fun s p => (s + fst p * snd p)%float)
      (combine (take k (drop i a)) (take k (drop i b))) s.
Proof.
  induction k as [|k IH]; intros i s Ha Hb; simpl; [done|].
  destruct (lookup_lt_is_Some_2 a i ltac:(lia)) as [x Hx].
  destruct (lookup_lt_is_Some_2 b i ltac:(lia)) as [y Hy].
  rewrite (drop_S a x i Hx), (drop_S b y i Hy). simpl.
  unfold Utils.at_index. rewrite (nth_lookup_Some a i _ x Hx), (nth_lookup_Some b i _ y Hy).
  apply IH; lia.
Qed.

Lemma cosine_loop_comm (a b : list Js.number) k : forall i s,
  Utils.cosine_loop a b k i s = Utils.cosine_loop b a k i s.
Proof.
  induction k as [|k IH]; intros i s; simpl; [done|].
  by rewrite IH, (IEEE.mul_comm (Utils.at_index a i)).
Qed.

(** C10. [cosine] returns a number for every two arrays, of whatever
    lengths: the dot product of their first [min(length a, length b)]
    components, so only indices that exist in both arrays are read; and
    [cosine(a, b) = cosine(b, a)]. *)
Theorem cosine_prefix_dot_symmetric (a b : list Js.number) :
  let n := Nat.min (length a) (length b) in
  Utils.cosine a b = dot (take n a) (take n b)
  /\ Utils.cosine a b = Utils.cosine_loop (take n a) (take n b) n 0%nat 0%float
  /\ Utils.cosine a b = Utils.cosine b a.
Proof.
  intros n.
  assert (Hdot : Utils.cosine a b = dot (take n a) (take n b)).
  { unfold Utils.cosine, dot. fold n. rewrite cosine_loop_drop by lia. by rewrite !drop_0. }
  split; [exact Hdot|]. split.
  - rewrite Hdot. unfold dot.
    rewrite cosine_loop_drop by (rewrite length_take; lia).
    rewrite !drop_0, !take_take. by rewrite Nat.min_id.
  - unfold Utils.cosine. rewrite (Nat.min_comm (length b)). apply cosine_loop_comm.
Qed.

(** ** [normalize] in binary64 *)




(** ** [normalize] in exact arithmetic *)

Section Exact.
Local Open Scope R_scope.








End Exact.

(** The Euclidean norm of a binary64 vector, computed as [normalize]
    computes it. *)
Definition norm64 (v : list Js.number) : Js.number := PrimFloat.sqrt (Utils.sum_squares v).


(** It also fails when the squares underflow: the norm of [[1e-200]] is
    computed as [0], the divisor becomes [1] and the vector is returned as
    it is. *)
Lemma normalize_underflow :
  let v := [1e-200%float] in
  is_zero 1e-200%float = false
  /\ Utils.normalize v = v
  /\ (abs (norm64 (Utils.normalize v) - 1) <=? 0.5)%float = false.
Proof. vm_compute. done. Qed.


End UtilsProps.

(* ===================================================================== *)
(** * Rounding to single precision *)
(* ===================================================================== *)

(** How far [Math.fround] moves a number: the shift that drops the low
    bits of the mantissa keeps track of the remainder, rounding to
    nearest moves the mantissa by at most half a unit, and the bit
    pattern is read back exactly. *)
Module Float32Props.

(** After [k] shifts of the mantissa [V]: the kept part, and where the
    remainder lies with respect to one half. *)
Definition shr_inv (V k : Z) (mrs : shr_record) : Prop :=
  0 <= shr_m mrs
  /\ 0 <= V - shr_m mrs * 2 ^ k < 2 ^ k
  /\ (shr_r mrs = true <-> 2 ^ k <= 2 * (V - shr_m mrs * 2 ^ k))
  /\ (shr_s mrs = true <-> V - shr_m mrs * 2 ^ k <> 0 /\ 2 * (V - shr_m mrs * 2 ^ k) <> 2 ^ k).

Lemma shr_inv_init V : 0 <= V -> shr_inv V 0 (Build_shr_record V false false).
Proof. intros HV. unfold shr_inv. simpl. lia. Qed.

Lemma shr_1_inv V k mrs : 0 <= k -> shr_inv V k mrs -> shr_inv V (k + 1) (shr_1 mrs).
Proof.
  intros Hk. destruct mrs as [m r s]. unfold shr_inv. simpl shr_m. simpl shr_r. simpl shr_s.
  rewrite Z.pow_add_r by lia. change (2 ^ 1) with 2.
  pose proof (Z.pow_pos_nonneg 2 k ltac:(lia) Hk) as HP.
  set (P := 2 ^ k) in *. clearbody P.
  intros (Hm & Hrho & Hr & Hs).
  assert (Hrs : r || s = true <-> V - m * P <> 0).
  { rewrite orb_true_iff. destruct r, s; split; intros; try lia; try tauto;
      try (left; reflexivity); exfalso; lia. }
  set (rho := V - m * P) in *.
  destruct m as [|[p|p|]|p]; try lia; cbn [shr_1 shr_m shr_r shr_s];
    rewrite Hrs.
  - replace (V - 0 * (P * 2)) with rho by (unfold rho; ring).
    split; [lia|]. split; [lia|]. split; [split; [done|lia]|]. lia.
  - replace (V - Z.pos p * (P * 2)) with (rho + P) by (unfold rho; rewrite Pos2Z.inj_xI; ring).
    split; [lia|]. split; [lia|]. split; [split; [lia|done]|]. lia.
  - replace (V - Z.pos p * (P * 2)) with rho by (unfold rho; rewrite Pos2Z.inj_xO; ring).
    split; [lia|]. split; [lia|]. split; [split; [done|lia]|]. lia.
  - replace (V - 0 * (P * 2)) with (rho + P) by (unfold rho; ring).
    split; [lia|]. split; [lia|]. split; [split; [lia|done]|]. lia.
Qed.

Lemma iter_shr_inv V n : forall k mrs,
  0 <= k -> shr_inv V k mrs -> shr_inv V (k + Z.pos n) (SpecFloat.iter_pos shr_1 n mrs).
Proof.
  induction n as [n IH|n IH|]; intros k mrs Hk Hinv.
  - change (SpecFloat.iter_pos shr_1 n~1 mrs)
      with (SpecFloat.iter_pos shr_1 n (SpecFloat.iter_pos shr_1 n (shr_1 mrs))).
    replace (k + Z.pos n~1) with (k + 1 + Z.pos n + Z.pos n) by lia.
    apply IH; [lia|]. apply IH; [lia|]. by apply shr_1_inv.
  - change (SpecFloat.iter_pos shr_1 n~0 mrs)
      with (SpecFloat.iter_pos shr_1 n (SpecFloat.iter_pos shr_1 n mrs)).
    replace (k + Z.pos n~0) with (k + Z.pos n + Z.pos n) by lia.
    apply IH; [lia|]. by apply IH.
  - by apply shr_1_inv.
Qed.

(** Rounding to nearest, ties to even, moves the shifted mantissa by at
    most half a unit. *)
Lemma round_nearest_even_inv V k mrs :
  shr_inv V k mrs ->
  let mr := round_nearest_even (shr_m mrs) (loc_of_shr_record mrs) in
  shr_m mrs <= mr <= shr_m mrs + 1 /\ 2 * Z.abs (mr * 2 ^ k - V) <= 2 ^ k.
Proof.
  destruct mrs as [m r s]. unfold shr_inv. cbn [shr_m shr_r shr_s].
  intros (Hm & Hrho & Hr & Hs).
  set (P := 2 ^ k) in *. clearbody P.
  destruct r, s; cbn [loc_of_shr_record round_nearest_even].
  - assert (P <= 2 * (V - m * P)) by (by apply Hr). split; [lia|]. nia.
  - assert (P <= 2 * (V - m * P)) by (by apply Hr).
    assert (~ (V - m * P <> 0 /\ 2 * (V - m * P) <> P)) by (rewrite <- Hs; done).
    destruct (Z.even m); split; try lia; nia.
  - assert (~ P <= 2 * (V - m * P)) by (rewrite <- Hr; done). split; [lia|]. nia.
  - assert (~ P <= 2 * (V - m * P)) by (rewrite <- Hr; done). split; [lia|]. nia.
Qed.

Definition canonical32 (m : positive) (e : Z) : Prop :=
  (Z.pos m < 2 ^ 23 /\ e = -149) \/ (2 ^ 23 <= Z.pos m < 2 ^ 24 /\ -149 <= e <= 104).

Lemma fexp32 x : SpecFloat.fexp Float32.prec32 Float32.emax32 x = Z.max (x - 24) (-149).
Proof. reflexivity. Qed.

Lemma round32_finite s m e :
  SpecFloat.valid_binary prec emax (S754_finite s m e) = true ->
  Z.pos (digits2_pos m) + e <= 127 ->
  let F := Z.max (Z.pos (digits2_pos m) + e - 24) (-149) in
  e < F /\
  ((Float32.round (S754_finite s m e) = S754_zero s /\ 2 * Z.pos m <= 2 ^ (F - e))
   \/ exists m' e', Float32.round (S754_finite s m e) = S754_finite s m' e'
        /\ canonical32 m' e' /\ F <= e'
        /\ 2 * Z.abs (Z.pos m' * 2 ^ (e' - e) - Z.pos m) <= 2 ^ (F - e)).
Proof.
  intros Hv HE F.
  apply IEEE.valid_finite in Hv as (Hemin & Hd & Hnormal).
  change (SpecFloat.emin prec emax) with (-1074) in *. change prec with 53 in *.
  pose proof (IEEE.digits_bounds m) as Hm.
  set (d := Z.pos (digits2_pos m)) in *.
  assert (HeF : e < F).
  { clear Hm. clearbody d. unfold F. destruct (Z.eq_dec e (-1074)) as [He|He]; [lia|].
    assert (d = 53) by (apply Hnormal; lia). lia. }
  split; [exact HeF|].
  unfold Float32.round, binary_round, shl_align. rewrite fexp32. fold d. fold F.
  destruct (F - e) as [|p|p] eqn:Hn; try lia.
  unfold binary_round_aux, shr_fexp. cbn [Zdigits2]. rewrite fexp32. fold d. fold F. rewrite Hn.
  cbn [shr shr_record_of_loc].
  replace (e + Z.pos p) with F by lia.
  pose proof (iter_shr_inv (Z.pos m) p 0 (Build_shr_record (Z.pos m) false false)
                ltac:(lia) (shr_inv_init (Z.pos m) ltac:(lia))) as Hinv.
  rewrite Z.add_0_l in Hinv.
  set (mrs := SpecFloat.iter_pos shr_1 p _) in *.
  pose proof (round_nearest_even_inv _ _ _ Hinv) as [Hmr Herr].
  destruct Hinv as (Hq & Hrho & _).
  set (q := shr_m mrs) in *.
  set (mr := round_nearest_even q (loc_of_shr_record mrs)) in *.
  pose proof (Z.pow_pos_nonneg 2 (Z.pos p) ltac:(lia) ltac:(lia)) as HP.
  assert (Hq24 : q < 2 ^ 24).
  { assert (2 ^ d <= 2 ^ (Z.pos p + 24)) as Hle by (apply Z.pow_le_mono_r; lia).
    rewrite Z.pow_add_r in Hle by lia. nia. }
  assert (Hq23 : -149 < F -> 2 ^ 23 <= q).
  { intros HF. assert (d - 1 = Z.pos p + 23) as Heq by lia.
    destruct Hm as [Hm _]. rewrite Heq, Z.pow_add_r in Hm by lia. nia. }
  clearbody mr q mrs.
  destruct mr as [|pm|pm]; [| |lia].
  - (* the value rounds to zero *)
    rewrite fexp32. cbn [Zdigits2].
    destruct (Z.max (0 + F - 24) (-149) - F) eqn:Hn2; try lia; cbn [shr shr_m];
      (left; split; [done|lia]).
  - destruct (Z.eq_dec (Z.pos pm) (2 ^ 24)) as [Heq|Hne].
    + (* the mantissa rounds up to [2 ^ 24] *)
      assert (pm = 16777216%positive) as -> by (change (2 ^ 24) with 16777216 in Heq; lia).
      rewrite fexp32. cbn [Zdigits2].
      change (Z.pos (digits2_pos 16777216)) with 25.
      replace (Z.max (25 + F - 24) (-149) - F) with 1 by lia.
      cbn [shr SpecFloat.iter_pos shr_1 shr_m shr_record_of_loc orb].
      replace (F + 1 <=? Float32.emax32 - Float32.prec32) with true
        by (symmetry; apply Z.leb_le; unfold Float32.emax32, Float32.prec32, F; lia).
      right. exists 8388608%positive, (F + 1). split; [done|].
      split; [right; change (Z.pos 8388608) with (2 ^ 23); unfold F; lia|].
      split; [lia|].
      replace (F + 1 - e) with (Z.pos p + 1) by lia. rewrite Z.pow_add_r by lia.
      change (Z.pos 16777216) with (2 ^ 24) in Herr.
      change (Z.pos 8388608) with (2 ^ 23). change (2 ^ 24) with (2 ^ 23 * 2) in Herr.
      change (2 ^ 1) with 2.
      replace (2 ^ 23 * (2 ^ Z.pos p * 2)) with (2 ^ 23 * 2 * 2 ^ Z.pos p) by ring. exact Herr.
    + assert (Hpm : Z.pos pm < 2 ^ 24) by lia.
      pose proof (IEEE.digits_small pm 24 Hpm) as Hdm.
      rewrite fexp32. cbn [Zdigits2].
      destruct (Z.max (Z.pos (digits2_pos pm) + F - 24) (-149) - F) eqn:Hn2; try lia;
        cbn [shr shr_m shr_record_of_loc].
      all: replace (F <=? Float32.emax32 - Float32.prec32) with true
          by (symmetry; apply Z.leb_le; unfold Float32.emax32, Float32.prec32, F; lia).
      all: right; exists pm, F; split; [done|].
      all: split; [unfold canonical32; destruct (Z_lt_le_dec (Z.pos pm) (2 ^ 23));
                [destruct (Z.eq_dec F (-149)); [left; lia|lia] | right; unfold F; lia]|].
      all: split; [lia|]; by rewrite Hn.
Qed.

Lemma testbit31 (b : bool) r :
  0 <= r < 2 ^ 31 -> Z.testbit (Float32.sign_bit b + r) 31 = b.
Proof.
  intros Hr. destruct b; unfold Float32.sign_bit.
  - apply Z.testbit_true; [done|]. change (2 ^ 31) with 2147483648 in *.
    Z.div_mod_to_equations. lia.
  - apply Z.testbit_false; [done|]. change (2 ^ 31) with 2147483648 in *.
    Z.div_mod_to_equations. lia.
Qed.

Lemma of_pattern_zero s :
  Float32.of_pattern (Float32.pattern (S754_zero s) mod 2 ^ 32) = S754_zero s.
Proof. by destruct s. Qed.

Lemma sign_bit_range b : Float32.sign_bit b = 0 \/ Float32.sign_bit b = 2147483648.
Proof. destruct b; [by right|by left]. Qed.

(** A binary32 in canonical form is read back from its bit pattern. *)
Lemma of_pattern_finite s m e :
  canonical32 m e ->
  Float32.of_pattern (Float32.pattern (S754_finite s m e) mod 2 ^ 32) = S754_finite s m e.
Proof.
  intros Hc. unfold Float32.pattern.
  change (2 ^ 23) with 8388608 in *. change (2 ^ 24) with 16777216 in *.
  change (2 ^ 32) with 4294967296.
  pose proof (sign_bit_range s) as Hs.
  destruct Hc as [[Hm ->]|[Hm He]].
  - replace (Z.pos m <? 8388608) with true by (symmetry; apply Z.ltb_lt; lia).
    rewrite Z.mod_small by lia.
    unfold Float32.of_pattern. rewrite testbit31 by (change (2 ^ 31) with 2147483648; lia).
    change (2 ^ 23) with 8388608.
    replace (((Float32.sign_bit s + Z.pos m) / 8388608) mod 256) with 0
      by (Z.div_mod_to_equations; lia).
    replace ((Float32.sign_bit s + Z.pos m) mod 8388608) with (Z.pos m)
      by (Z.div_mod_to_equations; lia).
    reflexivity.
  - replace (Z.pos m <? 8388608) with false by (symmetry; apply Z.ltb_ge; lia).
    rewrite Z.mod_small by lia.
    unfold Float32.of_pattern.
    rewrite <- Z.add_assoc.
    rewrite testbit31 by (change (2 ^ 31) with 2147483648; lia).
    change (2 ^ 23) with 8388608.
    replace (((Float32.sign_bit s + ((e + 150) * 8388608 + (Z.pos m - 8388608))) / 8388608) mod 256)
      with (e + 150) by (Z.div_mod_to_equations; lia).
    replace ((Float32.sign_bit s + ((e + 150) * 8388608 + (Z.pos m - 8388608))) mod 8388608)
      with (Z.pos m - 8388608) by (Z.div_mod_to_equations; lia).
    replace (e + 150 =? 255) with false by (symmetry; apply Z.eqb_neq; lia).
    replace (e + 150 =? 0) with false by (symmetry; apply Z.eqb_neq; lia).
    replace (Z.pos m - 8388608 + 8388608) with (Z.pos m) by lia.
    f_equal. lia.
Qed.

(** Reading a canonical binary32 as a number is exact. *)
Lemma widen_finite s m e :
  canonical32 m e ->
  exists mz ez, Prim2SF (Float32.widen (S754_finite s m e)) = S754_finite s mz ez
    /\ -1074 <= ez
    /\ Z.pos mz * 2 ^ (ez + 1074) = Z.pos m * 2 ^ (e + 1074).
Proof.
  intros Hc. unfold Float32.widen.
  pose proof (IEEE.digits_bounds m) as Hm.
  assert (Hd : Z.pos (digits2_pos m) <= 24 /\ -149 <= e <= 104).
  { destruct Hc as [[Hc ->]|[Hc He]]; (split; [apply IEEE.digits_small|]; lia). }
  destruct Hd as [Hd He].
  destruct (IEEE.binary_round_exact prec emax s m e) as (mz & Hr & Hmz);
    try (unfold SpecFloat.emin, prec, emax; lia).
  set (d := Z.pos (digits2_pos m)) in *. change prec with 53 in *.
  assert (Hdz : Z.pos (digits2_pos mz) = 53).
  { apply IEEE.digits_unique. rewrite Hmz.
    assert (H1 : 2 ^ (53 - 1) = 2 ^ (d - 1) * 2 ^ (53 - d))
      by (rewrite <- Z.pow_add_r by lia; f_equal; lia).
    assert (H2 : 2 ^ 53 = 2 ^ d * 2 ^ (53 - d))
      by (rewrite <- Z.pow_add_r by lia; f_equal; lia).
    rewrite H1, H2.
    pose proof (Z.pow_pos_nonneg 2 (53 - d) ltac:(lia) ltac:(lia)). nia. }
  rewrite Hr. rewrite Prim2SF_SF2Prim.
  - exists mz, (e + d - 53). split; [done|]. split; [lia|].
    rewrite Hmz. rewrite <- Z.mul_assoc, <- Z.pow_add_r by lia. f_equal. f_equal. lia.
  - simpl. unfold SpecFloat.bounded, SpecFloat.canonical_mantissa.
    apply andb_true_iff. split; [apply Z.eqb_eq|apply Z.leb_le].
    + rewrite Hdz. unfold SpecFloat.fexp, SpecFloat.emin, prec, emax. lia.
    + unfold prec, emax. lia.
Qed.

(** The value of a finite binary64, multiplied by [2 ^ 1074]: an
    integer. *)
Definition scaled (x : spec_float) : Z :=
  match x with
  | S754_finite s m e => (if s then - Z.pos m else Z.pos m) * 2 ^ (e + 1074)
  | _ => 0
  end.

Definition finite_form (x : spec_float) : bool :=
  match x with
  | S754_zero _ | S754_finite _ _ _ => true
  | _ => false
  end.

Lemma fround_finite x s m e :
  Prim2SF x = S754_finite s m e ->
  Z.pos (digits2_pos m) + e <= 127 ->
  let F := Z.max (Z.pos (digits2_pos m) + e - 24) (-149) in
  finite_form (Prim2SF (Float32.fround x)) = true
  /\ 2 * Z.abs (scaled (Prim2SF (Float32.fround x)) - scaled (Prim2SF x)) <= 2 ^ (F + 1074).
Proof.
  intros Hx HE F.
  pose proof (Prim2SF_valid x) as Hv. rewrite Hx in Hv.
  pose proof (IEEE.valid_finite _ _ _ _ _ Hv) as (Hemin & _ & _).
  change (SpecFloat.emin prec emax) with (-1074) in Hemin.
  destruct (round32_finite s m e Hv HE) as (HeF & Hround). fold F in HeF, Hround.
  unfold Float32.fround, Float32.of_bits, Float32.bits. rewrite Hx.
  assert (Hpow : 2 ^ (F + 1074) = 2 ^ (F - e) * 2 ^ (e + 1074)).
  { rewrite <- Z.pow_add_r by lia. f_equal. lia. }
  pose proof (Z.pow_pos_nonneg 2 (e + 1074) ltac:(lia) ltac:(lia)) as HP.
  destruct Hround as [[-> Hsmall]|(m' & e' & -> & Hc & HFe & Herr)].
  - rewrite of_pattern_zero. unfold Float32.widen.
    rewrite Prim2SF_SF2Prim by done. split; [done|].
    rewrite Hpow. simpl scaled. destruct s; nia.
  - rewrite of_pattern_finite by done.
    destruct (widen_finite s m' e' Hc) as (mz & ez & -> & Hez & Hval).
    split; [done|]. rewrite Hpow. simpl scaled.
    assert (Hval' : Z.pos mz * 2 ^ (ez + 1074) = Z.pos m' * 2 ^ (e' - e) * 2 ^ (e + 1074)).
    { rewrite Hval, <- Z.mul_assoc, <- Z.pow_add_r by lia. f_equal. f_equal. lia. }
    set (A := Z.pos m' * 2 ^ (e' - e)) in *.
    destruct s.
    + replace (- Z.pos mz * 2 ^ (ez + 1074) - - Z.pos m * 2 ^ (e + 1074))
        with (- ((A - Z.pos m) * 2 ^ (e + 1074))) by (rewrite Z.mul_opp_l, Hval'; ring).
      rewrite Z.abs_opp, Z.abs_mul, (Z.abs_eq (2 ^ (e + 1074))) by lia. nia.
    + replace (Z.pos mz * 2 ^ (ez + 1074) - Z.pos m * 2 ^ (e + 1074))
        with ((A - Z.pos m) * 2 ^ (e + 1074)) by (rewrite Hval'; ring).
      rewrite Z.abs_mul, (Z.abs_eq (2 ^ (e + 1074))) by lia. nia.
Qed.

Lemma is_finite_spec x : is_finite x = finite_form (Prim2SF x).
Proof.
  unfold is_finite, is_nan, is_infinity.
  rewrite !FloatAxioms.eqb_spec, abs_spec.
  change (Prim2SF infinity) with (S754_infinity false).
  destruct (Prim2SF x) as [s|s| |s m e]; try done.
  - by destruct s.
  - unfold SFeqb at 1. unfold SFcompare.
    destruct s; rewrite Z.compare_refl, Pos.compare_cont_refl; done.
Qed.

(** The value of a finite number, as a real. *)
Definition value (x : Js.number) : R := (IZR (scaled (Prim2SF x)) / IZR (2 ^ 1074))%R.

Lemma value_lt a k :
  (Rabs (IZR a / IZR (2 ^ 1074)) < IZR k)%R -> Z.abs a < k * 2 ^ 1074.
Proof.
  assert (HD : 0 < 2 ^ 1074) by done.
  set (D := 2 ^ 1074) in *. clearbody D.
  assert (HDR : (0 < IZR D)%R) by (by apply IZR_lt).
  intros H. apply lt_IZR. rewrite mult_IZR, abs_IZR.
  unfold Rdiv in H. rewrite Rabs_mult, (Rabs_right (/ IZR D)) in H.
  2: { apply Rle_ge. left. by apply Rinv_0_lt_compat. }
  apply (Rmult_lt_compat_r (IZR D)) in H; [|done].
  rewrite Rmult_assoc, Rinv_l, Rmult_1_r in H; [done|]. lra.
Qed.

Lemma value_close a b n :
  n * Z.abs (a - b) <= 2 ^ 1074 -> 0 < n ->
  (Rabs (IZR a / IZR (2 ^ 1074) - IZR b / IZR (2 ^ 1074)) <= 1 / IZR n)%R.
Proof.
  assert (HD : 0 < 2 ^ 1074) by done.
  set (D := 2 ^ 1074) in *. clearbody D.
  assert (HDR : (0 < IZR D)%R) by (by apply IZR_lt).
  intros H Hn. assert (HnR : (0 < IZR n)%R) by (by apply IZR_lt).
  replace (IZR a / IZR D - IZR b / IZR D)%R with (IZR (a - b) / IZR D)%R
    by (rewrite minus_IZR; field; lra).
  unfold Rdiv. rewrite Rabs_mult, (Rabs_right (/ IZR D)).
  2: { apply Rle_ge. left. by apply Rinv_0_lt_compat. }
  rewrite <- abs_IZR. apply IZR_le in H. rewrite mult_IZR in H.
  apply (Rmult_le_reg_r (IZR D)); [done|].
  rewrite Rmult_assoc, Rinv_l, Rmult_1_r by lra.
  apply (Rmult_le_reg_l (IZR n)); [done|].
  replace (IZR n * (1 * / IZR n * IZR D))%R with (IZR D) by (field; lra).
  exact H.
Qed.

Lemma value_bound x k :
  Z.abs (scaled (Prim2SF x)) < k * 2 ^ 1074 -> (Rabs (value x) < IZR k)%R.
Proof.
  unfold value. assert (HD : 0 < 2 ^ 1074) by done.
  set (D := 2 ^ 1074) in *. clearbody D.
  assert (HDR : (0 < IZR D)%R) by (by apply IZR_lt).
  intros H. apply IZR_lt in H. rewrite mult_IZR, abs_IZR in H.
  unfold Rdiv. rewrite Rabs_mult, (Rabs_right (/ IZR D)).
  2: { apply Rle_ge. left. by apply Rinv_0_lt_compat. }
  apply (Rmult_lt_reg_r (IZR D)); [done|].
  rewrite Rmult_assoc, Rinv_l, Rmult_1_r by lra. exact H.
Qed.

(** A finite number of magnitude below [256] is rounded to single
    precision with an error of at most [1e-5]: half a unit in the last
    place of a binary32 below [256] is [2 ^ -17]. *)
Lemma fround_within x :
  is_finite x = true -> (Rabs (value x) < 256)%R ->
  is_finite (Float32.fround x) = true
  /\ (Rabs (value (Float32.fround x) - value x) <= 1 / 100000)%R.
Proof.
  rewrite !is_finite_spec. unfold value. intros Hfin Hlt.
  destruct (Prim2SF x) as [s|s| |s m e] eqn:Hx; try done.
  - (* a zero *)
    assert (Hz : Prim2SF (Float32.fround x) = S754_zero s).
    { unfold Float32.fround, Float32.of_bits, Float32.bits. rewrite Hx.
      change (Float32.round (S754_zero s)) with (S754_zero s).
      rewrite of_pattern_zero. unfold Float32.widen. by rewrite Prim2SF_SF2Prim. }
    rewrite Hz. split; [done|]. simpl scaled.
    replace (0 / IZR (2 ^ 1074) - 0 / IZR (2 ^ 1074))%R with 0%R by (unfold Rdiv; ring).
    rewrite Rabs_R0. lra.
  - apply (value_lt _ 256) in Hlt.
    pose proof (Prim2SF_valid x) as Hv. rewrite Hx in Hv.
    pose proof (IEEE.valid_finite _ _ _ _ _ Hv) as (Hemin & _ & _).
    change (SpecFloat.emin prec emax) with (-1074) in Hemin.
    pose proof (IEEE.digits_bounds m) as [Hm _].
    set (d := Z.pos (digits2_pos m)) in *.
    assert (HE : d + e <= 8).
    { destruct (Z.le_gt_cases (d + e) 8) as [|Hgt]; [done|exfalso].
      assert (Hp : 2 ^ (8 + 1074) <= 2 ^ ((d - 1) + (e + 1074))) by (apply Z.pow_le_mono_r; lia).
      rewrite !Z.pow_add_r in Hp by lia. change (2 ^ 8) with 256 in Hp.
      pose proof (Z.pow_pos_nonneg 2 (e + 1074) ltac:(lia) ltac:(lia)) as HP.
      simpl scaled in Hlt.
      assert (Z.abs ((if s then - Z.pos m else Z.pos m) * 2 ^ (e + 1074))
              = Z.pos m * 2 ^ (e + 1074)) as Habs by (destruct s; nia).
      rewrite Habs in Hlt. nia. }
    destruct (fround_finite x s m e Hx ltac:(fold d; lia)) as (Hform & Herr).
    fold d in Herr. rewrite Hx in Herr.
    split; [exact Hform|].
    apply (value_close _ _ 100000); [|done].
    assert (Hp : 2 ^ (Z.max (d + e - 24) (-149) + 1074) <= 2 ^ 1058)
      by (apply Z.pow_le_mono_r; lia).
    change (2 ^ 1074) with (65536 * 2 ^ 1058).
    pose proof (Z.pow_pos_nonneg 2 1058 ltac:(lia) ltac:(lia)) as HP.
    set (Q := 2 ^ 1058) in *. clearbody Q. lia.
Qed.

End Float32Props.

(* ===================================================================== *)
(** * Properties of the BLOB encoding *)
(* ===================================================================== *)

Module BlobProps.

Lemma Z_of_byte_of_Z z : Float32.Z_of_byte (Float32.byte_of_Z z) = z mod 256.
Proof.
  unfold Float32.Z_of_byte, Float32.byte_of_Z.
  pose proof (Z.mod_pos_bound z 256 ltac:(lia)) as Hm.
  destruct (Byte.of_N (Z.to_N (z mod 256))) as [b|] eqn:Hb; simpl.
  - apply Byte.to_of_N in Hb. rewrite Hb. lia.
  - apply Byte.of_N_None_iff in Hb. lia.
Qed.

Lemma le_word_bytes w :
  0 <= w < 2 ^ 32 ->
  Float32.le_word (Float32.byte_of_Z w) (Float32.byte_of_Z (w / 2 ^ 8))
                  (Float32.byte_of_Z (w / 2 ^ 16)) (Float32.byte_of_Z (w / 2 ^ 24)) = w.
Proof.
  intros Hw. unfold Float32.le_word. rewrite !Z_of_byte_of_Z.
  change (2 ^ 8) with 256. change (2 ^ 16) with 65536. change (2 ^ 24) with 16777216.
  change (2 ^ 32) with 4294967296 in Hw.
  Z.div_mod_to_equations. lia.
Qed.

Lemma bits_range x : 0 <= Float32.bits x < 2 ^ 32.
Proof. unfold Float32.bits. apply Z.mod_pos_bound. done. Qed.

Lemma toFloat32Blob_length v : length (Blob.toFloat32Blob v) = (4 * length v)%nat.
Proof.
  induction v as [|x v IH]; [done|].
  change (Blob.toFloat32Blob (x :: v))
    with (Float32.le_bytes (Float32.bits x) ++ Blob.toFloat32Blob v).
  rewrite length_app, IH. simpl. lia.
Qed.

Lemma words_toFloat32Blob v :
  Float32.words (length v) (Blob.toFloat32Blob v) = Some (map Float32.bits v).
Proof.
  induction v as [|x v IH]; [done|].
  change (Blob.toFloat32Blob (x :: v))
    with (Float32.le_bytes (Float32.bits x) ++ Blob.toFloat32Blob v).
  unfold Float32.le_bytes. simpl. rewrite IH. simpl.
  by rewrite (le_word_bytes _ (bits_range x)).
Qed.

(** The claim fails for a component that single precision cannot hold to
    [1e-5]: [16777217] comes back as [16777216], and [1e39], which is
    above the largest single-precision value, comes back as [Infinity]. *)
Lemma roundtrip_large_value :
  Blob.fromFloat32Blob (Blob.toFloat32Blob [16777217%float; 1e39%float]) None
  = Some [16777216%float; infinity]
  /\ (abs (16777216 - 16777217) <=? 1e-5)%float = false
  /\ (abs (infinity - 1e39) <=? 1e-5)%float = false.
Proof. vm_compute. done. Qed.

(** The vector of the unit test comes back within [1e-5]. *)
Example roundtrip_unit_test :
  match Blob.fromFloat32Blob (Blob.toFloat32Blob [1.5; -2.3; 0.7; 42.1]%float) None with
  | Some restored =>
      forallb (fun p => (abs (fst p - snd p) <=? 1e-5)%float)
              (combine restored [1.5; -2.3; 0.7; 42.1]%float)
  | None => false
  end = true.
Proof. vm_compute. done. Qed.

(** C9, as the code has it. Decoding the encoding of a vector gives a
    vector of the same length whose components are the original ones
    rounded to single precision ([Math.fround]); a finite component of
    magnitude below [256] comes back finite and within [1e-5] of the
    original. *)
Theorem blob_roundtrip (v : list Js.number) :
  Blob.fromFloat32Blob (Blob.toFloat32Blob v) None = Some (map Float32.fround v)
  /\ length (map Float32.fround v) = length v
  /\ (forall i x, v !! i = Some x -> is_finite x = true ->
        (Rabs (Float32Props.value x) < 256)%R ->
        exists y, map Float32.fround v !! i = Some y /\ is_finite y = true
          /\ (Rabs (Float32Props.value y - Float32Props.value x) <= 1 / 100000)%R).
Proof.
  split; [|split; [apply length_map|]].
  - unfold Blob.fromFloat32Blob. rewrite toFloat32Blob_length.
    replace (4 * length v / 4)%nat with (length v)
      by (rewrite Nat.mul_comm, Nat.div_mul; lia).
    rewrite words_toFloat32Blob. simpl. by rewrite map_map.
  - intros i x Hx Hfin Hlt. exists (Float32.fround x). split.
    + change (map Float32.fround v) with (Float32.fround <$> v).
      rewrite list_lookup_fmap. unfold Js.number in *. by rewrite Hx.
    + by apply Float32Props.fround_within.
Qed.

End BlobProps.

(* ===================================================================== *)
(** * Properties of the table [files] and of [upsert] *)
(* ===================================================================== *)

Module SqliteProps.
Import Sqlite.

Definition has_id (i : string) (r : Row) : bool := bool_decide (row_id r = i).
Definition has_path (p : string) (r : Row) : bool := bool_decide (row_path r = p).

Lemma existsb_has_id r t :
  existsb (fun x => bool_decide (row_id x = row_id r)) t = true <-> row_id r ∈ map row_id t.
Proof.
  rewrite existsb_exists, list_elem_of_fmap. split.
  - intros (x & Hx & Hid). apply bool_decide_eq_true in Hid. exists x.
    by rewrite list_elem_of_In.
  - intros (x & Hid & Hx). exists x. rewrite <- list_elem_of_In.
    split; [done|]. by apply bool_decide_eq_true.
Qed.

(** After the statement the table holds the new row under its id. *)
Lemma upsert_row_find r t :
  List.find (has_id (row_id r)) (upsert_row r t) = Some r.
Proof.
  unfold upsert_row, has_id.
  destruct (existsb _ t) eqn:E.
  - induction t as [|x t IH]; simpl in *; [done|].
    destruct (decide (row_id x = row_id r)) as [Heq|Hne].
    + by rewrite bool_decide_eq_true_2.
    + rewrite (bool_decide_eq_false_2 _ Hne) in *. simpl in E. by apply IH.
  - induction t as [|x t IH]; simpl in *.
    + by rewrite bool_decide_eq_true_2.
    + apply orb_false_iff in E as [Hx E]. rewrite Hx. by apply IH.
Qed.

(** The rows with another id are the ones there were, in the same
    order. *)
Lemma upsert_row_others r t :
  List.filter (fun x => negb (has_id (row_id r) x)) (upsert_row r t)
  = List.filter (fun x => negb (has_id (row_id r) x)) t.
Proof.
  unfold upsert_row, has_id. destruct (existsb _ t).
  - induction t as [|x t IH]; simpl; [done|].
    destruct (decide (row_id x = row_id r)) as [Heq|Hne].
    + rewrite (bool_decide_eq_true_2 (row_id r = row_id r)) by done.
      rewrite (bool_decide_eq_true_2 _ Heq). simpl. exact IH.
    + rewrite (bool_decide_eq_false_2 _ Hne). simpl. by rewrite IH.
  - rewrite List.filter_app. simpl.
    rewrite (bool_decide_eq_true_2 (row_id r = row_id r)) by done. simpl.
    by rewrite app_nil_r.
Qed.

Lemma upsert_row_find_other r t i :
  i <> row_id r -> List.find (has_id i) (upsert_row r t) = List.find (has_id i) t.
Proof.
  intros Hi. unfold upsert_row, has_id. destruct (existsb _ t).
  - induction t as [|x t IH]; simpl; [done|].
    destruct (decide (row_id x = row_id r)) as [Heq|Hne].
    + rewrite (bool_decide_eq_false_2 (row_id r = i)) by done.
      rewrite (bool_decide_eq_false_2 (row_id x = i)) by congruence. exact IH.
    + destruct (bool_decide (row_id x = i)); [done|exact IH].
  - induction t as [|x t IH]; simpl.
    + by rewrite bool_decide_eq_false_2.
    + destruct (bool_decide (row_id x = i)); [done|exact IH].
Qed.

(** The statement replaces when the id is there and adds a row when it is
    not. *)
Lemma upsert_row_ids r t :
  map row_id (upsert_row r t)
  = if existsb (fun x => bool_decide (row_id x = row_id r)) t
    then map row_id t else map row_id t ++ [row_id r].
Proof.
  unfold upsert_row. destruct (existsb _ t).
  - induction t as [|x t IH]; simpl; [done|].
    rewrite IH. by destruct (decide (row_id x = row_id r)) as [->|].
  - by rewrite map_app.
Qed.

Lemma upsert_row_length r t :
  length (upsert_row r t)
  = if existsb (fun x => bool_decide (row_id x = row_id r)) t
    then length t else S (length t).
Proof.
  rewrite <- (length_map row_id), upsert_row_ids.
  destruct (existsb _ t); rewrite ?length_app, !length_map; simpl; lia.
Qed.

Section WithEnv.
Context (env : Env).

(** Whether the validation of the sqlite-vec [upsert] lets a record
    through: a non-empty embedding without NaN. *)
Definition passes_validation (rec : FileRecord) : Prop :=
  exists e, fr_embedding rec = Some e /\ e <> [] /\ Forall (fun n => is_nan n = false) e.

Lemma all_numbers_spec e : all_numbers e = true <-> Forall (fun n => is_nan n = false) e.
Proof.
  unfold all_numbers. rewrite forallb_forall, Forall_forall.
  split; intros H n Hn.
  - apply list_elem_of_In, H in Hn. by apply negb_true_iff in Hn.
  - apply negb_true_iff, H. by apply list_elem_of_In.
Qed.

(** The BLOB variant of [upsert] validates nothing and never throws. *)
Lemma upsert_blob_accepts_anything rec s :
  snd (upsert env BlobScan rec s) = Ok ()
  /\ files (fst (upsert env BlobScan rec s))
     = upsert_row (row_of_record env BlobScan rec) (files s).
Proof. done. Qed.

(** C4, as the code has it. The sqlite-vec [upsert] throws when the
    embedding is missing or empty, or holds a NaN, and it does so before
    any statement runs: the store is left as it was. Otherwise (an
    infinite component included) it writes the table [files]: the record
    is inserted, or replaces the row that had its id, and the rows with
    another id stay as they were; and when the call returns without
    throwing, [vec_files] holds the embedding under the id, once. *)
Theorem upsert_validation rec s :
  ((fr_embedding rec = None \/ fr_embedding rec = Some []) ->
     upsert env SqliteVec rec s = (s, Throw InvalidEmbedding))
  /\ (forall e, fr_embedding rec = Some e -> e <> [] ->
        Exists (fun n => is_nan n = true) e ->
        upsert env SqliteVec rec s = (s, Throw InvalidValues))
  /\ (passes_validation rec ->
        let s' := fst (upsert env SqliteVec rec s) in
        let row := row_of_record env SqliteVec rec in
        files s' = upsert_row row (files s)
        /\ List.find (has_id (fr_id rec)) (files s') = Some row
        /\ (forall i, i <> fr_id rec ->
              List.find (has_id i) (files s') = List.find (has_id i) (files s))
        /\ count s' = (if bool_decide (fr_id rec ∈ map row_id (files s))
                       then count s else S (count s))
        /\ (snd (upsert env SqliteVec rec s) = Ok () ->
              exists vt e, vec_files s' = Some vt /\ fr_embedding rec = Some e
                /\ List.filter (fun r => bool_decide (fst r = fr_id rec)) (vt_rows vt)
                   = [(fr_id rec, e)])).
Proof.
  split; [|split].
  - intros [H|H]; simpl; unfold upsert_vec; by rewrite H.
  - intros e He Hne Hnan. simpl. unfold upsert_vec. rewrite He.
    destruct e as [|x e]; [done|].
    destruct (all_numbers (x :: e)) eqn:Hall; [|done].
    apply all_numbers_spec in Hall. apply Exists_exists in Hnan as (n & Hn & Hnn).
    rewrite Forall_forall in Hall. specialize (Hall n Hn). congruence.
  - intros (e & He & Hne & Hall). simpl.
    assert (Hfiles : files (fst (upsert_vec env rec s))
                     = upsert_row (row_of_record env SqliteVec rec) (files s)).
    { unfold upsert_vec. rewrite He. destruct e as [|x e]; [done|].
      apply all_numbers_spec in Hall. rewrite Hall. simpl.
      unfold ensureVectorTable.
      destruct (vectorTableReady s); simpl;
        repeat (match goal with |- context [match ?o with _ => _ end] => destruct o end; simpl);
        done. }
    split; [exact Hfiles|]. rewrite Hfiles.
    split; [apply (upsert_row_find (row_of_record env SqliteVec rec))|].
    split; [intros i Hi; by apply upsert_row_find_other|].
    split.
    { unfold count. rewrite Hfiles, upsert_row_length.
      destruct (existsb _ (files s)) eqn:E.
      - apply (proj1 (existsb_has_id (row_of_record env SqliteVec rec) (files s))) in E.
        by rewrite bool_decide_eq_true_2.
      - rewrite bool_decide_eq_false_2; [done|].
        intros Hin.
        apply (proj2 (existsb_has_id (row_of_record env SqliteVec rec) (files s))) in Hin.
        congruence. }
    unfold upsert_vec. rewrite He. destruct e as [|x e]; [done|].
    apply all_numbers_spec in Hall. rewrite Hall. simpl.
    destruct (vec_files (ensureVectorTable _ s)) as [vt|]; simpl; [|done].
    destruct (vec0_insert_ok env _ _); simpl; [|done].
    intros _. eexists _, (x :: e). split; [done|]. split; [done|].
    unfold vec_insert, vec_delete. simpl vt_rows.
    rewrite List.filter_app. simpl. rewrite bool_decide_eq_true_2 by done.
    replace (List.filter _ (List.filter _ (vt_rows vt))) with (@nil (string * list Js.number)); [done|].
    symmetry. generalize (vt_rows vt). intros l.
    induction l as [|[i v] l IH]; simpl; [done|].
    destruct (decide (i = fr_id rec)) as [->|Hi].
    + rewrite bool_decide_eq_true_2 by done. simpl. exact IH.
    + rewrite (bool_decide_eq_false_2 _ Hi). simpl.
      by rewrite (bool_decide_eq_false_2 _ Hi).
Qed.

End WithEnv.

End SqliteProps.

(* ===================================================================== *)
(** * A concrete world: three indexed files and a scripted provider *)
(* ===================================================================== *)

Module Demo.
Import SemanticStore.

Definition azure : Nlp.AzureClients :=
  {| Nlp.embeddingDeployment := "text-embedding-3-large";
     Nlp.rerankDeployment := "gpt-4o-mini" |}.

Definition config (b : Sqlite.Backend) : StoreConfig :=
  {| cfg_azure := azure; cfg_backend := b; cfg_maxChars := 1000 |}.

Definition file_stat : Stat :=
  {| st_isDirectory := false; st_size := 68;
     st_birthtime := "2024-01-01T00:00:00.000Z"; st_mtime := "2024-01-02T00:00:00.000Z" |}.

Definition dir_stat : Stat :=
  {| st_isDirectory := true; st_size := 0;
     st_birthtime := "2024-01-01T00:00:00.000Z"; st_mtime := "2024-01-02T00:00:00.000Z" |}.

Fixpoint tally (n : nat) : string :=
  match n with
  | O => EmptyString
  | S n' => "i" +:+ tally n'
  end.

(** The provider answers every chat request with [answer]; the text
    ["RANKING"] parses as a ranking that lists its entries in ascending
    order of score, every other text but ["[]"] makes [JSON.parse] throw.
    [vec_ok] tells whether sqlite-vec accepts a vector of the right
    dimension. *)
Definition env (vec_ok : bool) (answer : string) : Env :=
  {| fs_statSync := fun p =>
       if decide (p = "/docs") then Some dir_stat
       else if decide (p = "/missing") then None else Some file_stat;
     fs_glob := fun _ => ["/docs/a.md"; "/docs/logo.png"; "/docs/new.txt"];
     fs_readFile := fun _ => Some "This is a sample document for testing semantic search functionality.";
     buffer_toString := fun bytes => bytes;
     path_resolve := fun p => p;
     path_basename := fun p => p;
     mime_lookup := fun _ => Some "text/plain";
     uuidv4 := fun n => "uuid-" +:+ tally n;
     chat_create := fun _ _ => Some {| chat_content := Some answer; chat_usage := None |};
     embeddings_create := fun _ _ =>
       Some {| emb_vector := Some [1%float]; emb_usage := None |};
     JSON_parse := fun s =>
       if decide (s = "RANKING")
       then Some [ {| s_id := "c"; s_score := 40%float |};
                   {| s_id := "b"; s_score := 70%float |};
                   {| s_id := "zz"; s_score := 99%float |};
                   {| s_id := "a"; s_score := 95%float |} ]
       else None;
     vec0_insert_ok := fun dim e => vec_ok && (length e =? dim)%nat;
     vec0_knn := fun _ _ _ => Some [] |}.

Definition record (id path : string) (e : list Js.number) : FileRecord :=
  {| fr_id := id;
     fr_metadata := {| fm_id := id; fm_path := path; fm_filename := path;
                       fm_mimetype := None; fm_size := Some 68;
                       fm_createdAt := Some "2024-01-01T00:00:00.000Z";
                       fm_modifiedAt := Some "2024-01-02T00:00:00.000Z" |};
     fr_summary := "A sample document.";
     fr_embedding := Some e |}.

(** Three files indexed earlier, with similarities [0.9], [0.5] and
    [0.1] to the query embedding [[1]]. *)
Definition rows (b : Sqlite.Backend) : list Sqlite.Row :=
  map (Sqlite.row_of_record (env true "RANKING") b)
      [ record "a" "/docs/a.md" [0.9%float];
        record "b" "/docs/b.md" [0.5%float];
        record "c" "/docs/c.md" [0.1%float] ].

Definition world (b : Sqlite.Backend) : World :=
  {| w_db := Sqlite.open (rows b) None; w_log := []; w_uuids := 0 |}.

Definition opts (k : Z) (sim score : Js.number) : option SearchOpts :=
  Some {| topK := Some k; minSimilarity := Some sim; minScore := Some score |}.
Arguments opts k%_Z (sim score)%_float.

Definition search_demo (answer : string) (o : option SearchOpts) :=
  search (env true answer) (config Sqlite.BlobScan) 0.1%float 0%float "sample" o
         (world Sqlite.BlobScan).

Definition scores (r : World * Result (list SearchResult)) : list (string * Js.number) :=
  match snd r with
  | Ok l => map (fun x => (sr_id x, sr_score x)) l
  | Throw _ => []
  end.

Definition chat_requests (w : World) : nat :=
  length (List.filter (fun ev => match ev with EvCall _ (CallChat _ _) => true | _ => false end)
                      (w_log w)).

(** The spec's examples. With [minSimilarity = 0.6] only the candidate
    of similarity [0.9] is reranked; with [minSimilarity = 0.95] none is
    and no request goes to the rerank provider; with scores [95, 70, 40]
    and [minScore = 60] the first two are returned, in that order; a
    score equal to [minScore] is kept; a malformed answer gives the
    fallback scores in input order. *)
Example search_examples :
  scores (search_demo "RANKING" (opts 5 0.6 0)) = [("a", 95%float)]
  /\ scores (search_demo "RANKING" (opts 5 0.95 0)) = []
  /\ chat_requests (fst (search_demo "RANKING" (opts 5 0.95 0))) = 0%nat
  /\ scores (search_demo "RANKING" (opts 5 0 60)) = [("a", 95%float); ("b", 70%float)]
  /\ scores (search_demo "RANKING" (opts 5 0 70)) = [("a", 95%float); ("b", 70%float)]
  /\ scores (search_demo "not json" (opts 2 0 0)) = [("a", 3%float); ("b", 2%float)].
Proof. vm_compute. done. Qed.


End Demo.

(* ===================================================================== *)
(** * The theorems at the concrete world *)
(* ===================================================================== *)

Module Instances.
Import SemanticStore.

Definition env_ok : Env := Demo.env true "RANKING".
Definition cfg : StoreConfig := Demo.config Sqlite.BlobScan.
Definition w0 : World := Demo.world Sqlite.BlobScan.

Definition embedded (e : Env) : World * Result Nlp.EmbedResult :=
  Nlp.embedText e Demo.azure "sample" "sample" w0.

Definition w1 (e : Env) : World := fst (embedded e).

Definition qvec : Nlp.EmbedResult :=
  {| Nlp.er_embedding := [1%float]; Nlp.er_tokens := Nlp.zero_usage |}.

Definition candidates (e : Env) (k : Z) : list Candidate :=
  match Sqlite.retrieveByEmbedding e Sqlite.BlobScan [1%float] (candidate_limit k)
          (w_db (w1 e)) with
  | Ok l => l
  | Throw _ => []
  end.

Definition reranked_in (e : Env) (o : option SearchOpts) : World * Result (list Scored) :=
  Nlp.rerank e Demo.azure "sample"
    (map id_summary (SearchProps.kept 0.1%float o (candidates e 5))) 5 (w1 e).

Definition reranked (e : Env) (o : option SearchOpts) : list Scored :=
  match snd (reranked_in e o) with
  | Ok l => l
  | Throw _ => []
  end.

Definition found (e : Env) (o : option SearchOpts) : list SearchResult :=
  match snd (search e cfg 0.1%float 0%float "sample" o w0) with
  | Ok l => l
  | Throw _ => []
  end.

Lemma search_similarity_floor_witness :
  let o := Demo.opts 5 0.6 0 in
  let out := search env_ok cfg 0.1%float 0%float "sample" o w0 in
  (forall c, c ∈ SearchProps.kept 0.1%float o (candidates env_ok 5) <->
             c ∈ candidates env_ok 5
             /\ Js.ge (c_score c) (SearchProps.minSimilarity_of 0.1%float o) = true)
  /\ (SearchProps.kept 0.1%float o (candidates env_ok 5) = [] -> out = (w1 env_ok, Ok []))
  /\ (SearchProps.kept 0.1%float o (candidates env_ok 5) <> [] ->
      w_log (fst out)
      = w_log (w1 env_ok)
        ++ [SearchProps.rerank_call cfg "sample"
              (SearchProps.kept 0.1%float o (candidates env_ok 5))]
      /\ w_db (fst out) = w_db (w1 env_ok))
  /\ (forall results res, snd out = Ok results -> res ∈ results ->
      Js.ge (sr_cosineSimilarity res) (SearchProps.minSimilarity_of 0.1%float o) = true).
Proof.
  apply (SearchProps.search_similarity_floor env_ok cfg 0.1%float 0%float "sample"
           (Demo.opts 5 0.6 0) w0 (w1 env_ok) qvec (candidates env_ok 5));
    vm_compute; reflexivity.
Defined.

Lemma search_score_floor_witness :
  let o := Demo.opts 5 0 60 in
  let joined := join_results (byId_of (SearchProps.kept 0.1%float o (candidates env_ok 5)))
                  (reranked env_ok o) in
  exists results,
    search env_ok cfg 0.1%float 0%float "sample" o w0 = (fst (reranked_in env_ok o), Ok results)
    /\ results = List.filter (fun r => Js.ge (sr_score r) (SearchProps.minScore_of 0%float o)) joined
    /\ (forall res, res ∈ results <->
          res ∈ joined /\ Js.ge (sr_score res) (SearchProps.minScore_of 0%float o) = true).
Proof.
  apply (SearchProps.search_score_floor env_ok cfg 0.1%float 0%float "sample"
           (Demo.opts 5 0 60) w0 (w1 env_ok) qvec (candidates env_ok 5)
           (fst (reranked_in env_ok (Demo.opts 5 0 60))) (reranked env_ok (Demo.opts 5 0 60)));
    try (vm_compute; reflexivity).
  vm_compute. discriminate.
Defined.



(** The provider's ranking parses, and its second entry has no score. *)
Definition env_unscored : Env :=
  {| fs_statSync := fs_statSync env_ok;
     fs_glob := fs_glob env_ok;
     fs_readFile := fs_readFile env_ok;
     buffer_toString := buffer_toString env_ok;
     path_resolve := path_resolve env_ok;
     path_basename := path_basename env_ok;
     mime_lookup := mime_lookup env_ok;
     uuidv4 := uuidv4 env_ok;
     chat_create := chat_create env_ok;
     embeddings_create := embeddings_create env_ok;
     JSON_parse := fun _ =>
       Some [ {| s_id := "b"; s_score := 5%float |};
              {| s_id := "a"; s_score := nan |};
              {| s_id := "c"; s_score := 7%float |} ];
     vec0_insert_ok := vec0_insert_ok env_ok;
     vec0_knn := vec0_knn env_ok |}.

(** The sort of [rerank] leaves [5] before [7], and [search] returns them
    in that order. *)
Lemma search_unscored_entry :
  Demo.scores (search env_unscored cfg 0.1%float 0%float "sample" (Demo.opts 5 0 0) w0)
  = [("b", 5%float); ("c", 7%float)]
  /\ ~ StronglySorted (SortFacts.desc sr_score) (found env_unscored (Demo.opts 5 0 0)).
Proof.
  split; [vm_compute; reflexivity|].
  intros Hsorted.
  assert (Hfound : exists r1 r2, found env_unscored (Demo.opts 5 0 0) = [r1; r2]
                                 /\ sr_score r1 = 5%float /\ sr_score r2 = 7%float).
  { vm_compute. eexists _, _. split; [reflexivity|]. split; reflexivity. }
  destruct Hfound as (r1 & r2 & Hf & H1 & H2). rewrite Hf in Hsorted.
  apply StronglySorted_inv in Hsorted as [_ Hall].
  apply Forall_cons in Hall as [Hge _]. unfold SortFacts.desc in Hge.
  rewrite H1, H2 in Hge. vm_compute in Hge. discriminate.
Qed.


Lemma upsert_validation_witness :
  let s := Sqlite.open (Demo.rows Sqlite.SqliteVec) None in
  Sqlite.upsert env_ok Sqlite.SqliteVec (Demo.record "a" "/docs/a.md" []) s
    = (s, Throw InvalidEmbedding)
  /\ Sqlite.upsert env_ok Sqlite.SqliteVec (Demo.record "a" "/docs/a.md" [1%float; nan]) s
    = (s, Throw InvalidValues)
  /\ Sqlite.count (fst (Sqlite.upsert env_ok Sqlite.SqliteVec
                          (Demo.record "a" "/docs/a.md" [1%float]) s)) = 3%nat
  /\ Sqlite.count (fst (Sqlite.upsert env_ok Sqlite.SqliteVec
                          (Demo.record "d" "/docs/d.md" [1%float]) s)) = 4%nat.
Proof.
  intros s. split; [|split; [|split]].
  - destruct (SqliteProps.upsert_validation env_ok (Demo.record "a" "/docs/a.md" []) s)
      as (H & _). apply H. by right.
  - destruct (SqliteProps.upsert_validation env_ok
                (Demo.record "a" "/docs/a.md" [1%float; nan]) s) as (_ & H & _).
    apply (H [1%float; nan]); [reflexivity|discriminate|].
    apply Exists_cons_tl, Exists_cons_hd. reflexivity.
  - destruct (SqliteProps.upsert_validation env_ok (Demo.record "a" "/docs/a.md" [1%float]) s)
      as (_ & _ & H).
    destruct H as (_ & _ & _ & Hc & _).
    + exists [1%float]. split; [reflexivity|]. split; [discriminate|].
      repeat constructor.
    + rewrite Hc. vm_compute. reflexivity.
  - destruct (SqliteProps.upsert_validation env_ok (Demo.record "d" "/docs/d.md" [1%float]) s)
      as (_ & _ & H).
    destruct H as (_ & _ & _ & Hc & _).
    + exists [1%float]. split; [reflexivity|]. split; [discriminate|].
      repeat constructor.
    + rewrite Hc. vm_compute. reflexivity.
Defined.

(** The validation lets an infinite component through: the table [files]
    is written, whether sqlite-vec then accepts the vector (no error at
    all) or rejects it (an error after the write). *)
Lemma upsert_accepts_infinity :
  let rec := Demo.record "x" "/docs/x.md" [infinity] in
  let s := Sqlite.open [] None in
  is_finite infinity = false
  /\ snd (Sqlite.upsert (Demo.env true "RANKING") Sqlite.SqliteVec rec s) = Ok ()
  /\ Sqlite.count (fst (Sqlite.upsert (Demo.env true "RANKING") Sqlite.SqliteVec rec s)) = 1%nat
  /\ snd (Sqlite.upsert (Demo.env false "RANKING") Sqlite.SqliteVec rec s) = Throw SqliteError
  /\ Sqlite.count (fst (Sqlite.upsert (Demo.env false "RANKING") Sqlite.SqliteVec rec s)) = 1%nat
  /\ Sqlite.count s = 0%nat.
Proof. vm_compute. done. Qed.

Lemma blob_roundtrip_witness :
  let v := [1.5; -2.3; 0.7; 42.1]%float in
  Blob.fromFloat32Blob (Blob.toFloat32Blob v) None = Some (map Float32.fround v)
  /\ exists y, map Float32.fround v !! 1%nat = Some y /\ is_finite y = true
       /\ (Rabs (Float32Props.value y - Float32Props.value (-2.3)%float) <= 1 / 100000)%R.
Proof.
  intros v. destruct (BlobProps.blob_roundtrip v) as (Hdec & _ & Hclose).
  split; [exact Hdec|].
  apply (Hclose 1%nat (-2.3)%float); [reflexivity|reflexivity|].
  apply (Float32Props.value_bound _ 256). vm_compute. reflexivity.
Defined.


End Instances.

(* ===================================================================== *)
(** * Properties of indexing *)
(* ===================================================================== *)

Module IndexProps.
Import Sqlite SqliteProps SemanticStore.

Ltac break_match :=
  match goal with
  | |- context [match ?x with _ => _ end] => destruct x eqn:?
  | H : context [match ?x with _ => _ end] |- _ => destruct x eqn:?
  end.


Lemma rowToRecord_id b r rec : rowToRecord b r = Ok rec -> fr_id rec = row_id r.
Proof.
  unfold rowToRecord. destruct b; [destruct (Blob.fromFloat32Blob _ _)|];
    intros H; inversion H; done.
Qed.

Lemma getByPath_Some b p s rec :
  getByPath b p s = Ok (Some rec) ->
  exists r, List.find (has_path p) (files s) = Some r /\ fr_id rec = row_id r.
Proof.
  unfold getByPath, select_one. fold (has_path p).
  destruct (List.find (has_path p) (files s)) as [r|]; [|done].
  destruct (rowToRecord b r) as [rec'|] eqn:Hr; [|done].
  intros H. inversion H; subst. exists r. split; [done|]. by eapply rowToRecord_id.
Qed.

Lemma getByPath_None b p s :
  getByPath b p s = Ok None -> List.find (has_path p) (files s) = None.
Proof.
  unfold getByPath, select_one. fold (has_path p).
  destruct (List.find (has_path p) (files s)) as [r|]; [|done].
  by destruct (rowToRecord b r).
Qed.


Section WithEnv.
Context (env : Env) (config : StoreConfig).

Let backend := cfg_backend config.

(** How [indexFile] chose the id of a job: the id of the record found
    for the path, or a fresh identifier when there is none (or its id is
    empty). *)
Definition id_choice (j : Job) (w w' : World) : Prop :=
  (exists r, getByPath backend (job_resolved j) (w_db w) = Ok (Some r)
             /\ fr_id r <> EmptyString /\ job_id j = fr_id r /\ w_uuids w' = w_uuids w)
  \/ ((getByPath backend (job_resolved j) (w_db w) = Ok None
       \/ exists r, getByPath backend (job_resolved j) (w_db w) = Ok (Some r)
                    /\ fr_id r = EmptyString)
      /\ job_id j = uuidv4 env (w_uuids w) /\ w_uuids w' = S (w_uuids w)).

Lemma indexFile_prepare_spec f w :
  let out := indexFile_prepare env config f w in
  w_db (fst out) = w_db w /\ w_log (fst out) = w_log w
  /\ match snd out with
     | Throw _ => fst out = w
     | Ok j => job_file j = f /\ job_resolved j = path_resolve env f /\ id_choice j w (fst out)
     end.
Proof.
  unfold indexFile_prepare, mbind, M_bind, of_option, read_db, draw_uuid, mret, M_ret, throw.
  fold backend.
  destruct (fs_statSync env f) as [st|]; simpl; [|done].
  destruct (getByPath backend (path_resolve env f) (w_db w)) as [[r|]|e] eqn:Hg; simpl.
  - destruct (decide (fr_id r = EmptyString)) as [Hid|Hid]; simpl.
    + repeat split; try done. right. split; [right; by exists r|done].
    + repeat split; try done. left. by exists r.
  - repeat split; try done. right. split; [by left|done].
  - done.
Qed.




End WithEnv.

(** ** The table invariant *)

(** Ids are unique (the primary key), paths are unique, no id is empty. *)
Definition table_ok (t : list Row) : Prop :=
  NoDup (map row_id t) /\ NoDup (map row_path t) /\ Forall (fun r => row_id r <> EmptyString) t.


(** The identifiers still to be drawn are not in the table. *)
Definition unused_from (env : Env) (n : nat) (t : list Row) : Prop :=
  forall m, (n <= m)%nat -> uuidv4 env m ∉ map row_id t.



Lemma find_elem {A} (p : A -> bool) (l : list A) x :
  List.find p l = Some x -> x ∈ l /\ p x = true.
Proof. intros H. apply find_some in H as [H1 H2]. by rewrite list_elem_of_In. Qed.



Lemma upsert_row_append new t :
  row_id new ∉ map row_id t -> upsert_row new t = t ++ [new].
Proof.
  intros Hn. unfold upsert_row.
  destruct (existsb _ t) eqn:E; [|done]. by apply existsb_has_id in E.
Qed.



Section Identity.
Context (env : Env) (config : StoreConfig).


Definition world_ok (w : World) : Prop :=
  table_ok (files (w_db w)) /\ unused_from env (w_uuids w) (files (w_db w)).



End Identity.

(** ** Skipping the files that are already indexed *)




(** The embeddings the vector table holds under an id; [None] when the
    table does not exist. *)
Definition vectors_of (i : string) (s : Store) : option (list (list Js.number)) :=
  vt ← vec_files s;
  Some (map snd (List.filter (fun e => bool_decide (fst e = i)) (vt_rows vt))).



Section Skip.
Context (env : Env) (config : StoreConfig).

Let backend := cfg_backend config.




(** The file [f0], whose path [rp] has the row [row0] when [indexPath]
    starts in the world [w0]. *)
Context (f0 : string) (row0 : Row) (w0 : World).

Let rp := path_resolve env f0.





Hypothesis fresh : forall n, (w_uuids w0 <= n)%nat -> uuidv4 env n <> row_id row0.











End Skip.

Section SkipTheorem.
Context (env : Env) (config : StoreConfig).

Let backend := cfg_backend config.














End SkipTheorem.

End IndexProps.

(* ===================================================================== *)
(** * Indexing at the concrete world *)
(* ===================================================================== *)

Module IndexInstances.
Import Sqlite SemanticStore IndexProps.



Lemma world_ok_demo b : world_ok Instances.env_ok (Demo.world b).
Proof.
  split.
  - split; [|split]; destruct b; simpl.
    1-4: apply (bool_decide_unpack _); vm_compute; exact I.
    all: repeat constructor; done.
  - intros m _ Hin. destruct b; simpl in Hin;
      repeat (apply elem_of_cons in Hin as [Hin|Hin]; [discriminate|]);
      by apply elem_of_nil in Hin.
Qed.

(** The record the store returns for a path of the concrete world. *)
Definition stored (p : string) : FileRecord :=
  match getByPath BlobScan p (w_db Instances.w0) with
  | Ok (Some r) => r
  | _ => Demo.record EmptyString EmptyString []
  end.

Definition in_turn (batch : list string) : list nat := seq 0 (length batch).

Definition no_options : IndexOptions := {| concurrency := None; force := false |}.



End IndexInstances.

(* ===================================================================== *)
(** * sqlite.ts: the other queries *)
(* ===================================================================== *)

Module SqliteStore.
Import Sqlite.

(** [rows.map((r) => this.rowToRecord(r))] *)
Fixpoint rowsToRecords (b : Backend) (rows : list Row) : Result (list FileRecord) :=
  match rows with
  | [] => Ok []
  | r :: rows' =>
      match rowToRecord b r with
      | Throw e => Throw e
      | Ok rec =>
          match rowsToRecords b rows' with
          | Throw e => Throw e
          | Ok recs => Ok (rec :: recs)
          end
      end
  end.

(** [listAll()] *)
Definition listAll (b : Backend) (s : Store) : Result (list FileRecord) :=
  rowsToRecords b (files s).

(** [vectorCount()]: the number of rows of [vec_files], [0] when the
    query throws because the table does not exist. *)
Definition vectorCount (s : Store) : nat :=
  match vec_files s with
  | Some vt => length (vt_rows vt)
  | None => 0%nat
  end.

(** [hasVectorIndex()]: whether a query on [vec_files] succeeds. *)
Definition hasVectorIndex (s : Store) : bool :=
  match vec_files s with
  | Some _ => true
  | None => false
  end.

End SqliteStore.

Module SqliteStoreProps.
Import Sqlite SqliteProps SqliteStore.

(** The numbers a BLOB holds: one for every four bytes, the bytes left
    over are ignored. *)
Definition decode (blob : list Byte.byte) : list Js.number :=
  default [] (Blob.fromFloat32Blob blob None).

Lemma words_enough n : forall bs, (4 * n <= length bs)%nat -> is_Some (Float32.words n bs).
Proof.
  induction n as [|n IH]; intros bs Hlen; simpl; [by eexists|].
  destruct bs as [|b0 [|b1 [|b2 [|b3 rest]]]]; simpl in Hlen; try lia.
  destruct (IH rest ltac:(lia)) as [ws Hws]. rewrite Hws. by eexists.
Qed.

Lemma words_length n : forall bs ws, Float32.words n bs = Some ws -> length ws = n.
Proof.
  induction n as [|n IH]; intros bs ws; simpl.
  - intros H. by inversion H.
  - destruct bs as [|b0 [|b1 [|b2 [|b3 rest]]]]; try done.
    destruct (Float32.words n rest) as [ws'|] eqn:E; simpl; [|done].
    intros H. inversion H; subst. simpl. f_equal. by eapply IH.
Qed.

Lemma fromFloat32Blob_whole blob : Blob.fromFloat32Blob blob None = Some (decode blob).
Proof.
  unfold decode, Blob.fromFloat32Blob.
  destruct (words_enough (length blob / 4) blob) as [ws Hws].
  { pose proof (Nat.Div0.mul_div_le (length blob) 4). lia. }
  by rewrite Hws.
Qed.

Lemma decode_length blob : length (decode blob) = (length blob / 4)%nat.
Proof.
  unfold decode, Blob.fromFloat32Blob.
  destruct (Float32.words (length blob / 4) blob) as [ws|] eqn:Hws; simpl.
  - rewrite length_map. by eapply words_length.
  - destruct (words_enough (length blob / 4) blob) as [ws Hws'].
    { pose proof (Nat.Div0.mul_div_le (length blob) 4). lia. }
    congruence.
Qed.

Lemma decode_toFloat32Blob v : decode (Blob.toFloat32Blob v) = map Float32.fround v.
Proof.
  unfold decode. unfold Blob.fromFloat32Blob. rewrite BlobProps.toFloat32Blob_length.
  replace (4 * length v / 4)%nat with (length v)
    by (rewrite Nat.mul_comm, Nat.div_mul; lia).
  rewrite BlobProps.words_toFloat32Blob. simpl. by rewrite map_map.
Qed.

Section WithEnv.
Context (env : Env).

(** What [getById] returns for a record handed to the BLOB [upsert]: the
    id is also the metadata's id, a missing MIME type is looked up from
    the file name, a size of [0] and empty strings are read back as
    [undefined], the embedding is rounded to single precision. *)
Definition stored_view (rec : FileRecord) : FileRecord :=
  let md := fr_metadata rec in
  {| fr_id := fr_id rec;
     fr_metadata :=
       {| fm_id := fr_id rec;
          fm_path := fm_path md;
          fm_filename := fm_filename md;
          fm_mimetype := str_or (str_or (fm_mimetype md) (mime_lookup env (fm_filename md))) None;
          fm_size := nonzero (fm_size md);
          fm_createdAt := str_or (fm_createdAt md) None;
          fm_modifiedAt := str_or (fm_modifiedAt md) None |};
     fr_summary := fr_summary rec;
     fr_embedding := Some (map Float32.fround (default [] (fr_embedding rec))) |}.

Lemma str_or_None a : str_or a None = match a with
                                      | Some s => if decide (s = EmptyString) then None else a
                                      | None => None
                                      end.
Proof. by destruct a. Qed.

Lemma str_or_idem a b : str_or (str_or a (str_or b None)) None = str_or (str_or a b) None.
Proof.
  destruct a as [s|]; simpl; [destruct (decide (s = EmptyString)); simpl|];
    try (destruct b as [t|]; simpl; [destruct (decide (t = EmptyString)); simpl|]);
    repeat case_decide; done.
Qed.

Lemma rowToRecord_row_of_record rec :
  rowToRecord BlobScan (row_of_record env BlobScan rec) = Ok (stored_view rec).
Proof.
  unfold rowToRecord. cbn [row_of_record row_embedding].
  rewrite fromFloat32Blob_whole, decode_toFloat32Blob.
  unfold stored_view. cbn. by rewrite str_or_idem.
Qed.

(** X1. The BLOB store reads back what it was given, as it stores it:
    after [upsert(rec)], [getById(rec.id)] returns [rec] with the
    embedding rounded to single precision and the metadata as the
    columns hold it; [getById] of any other id returns what it returned
    before; and the number of rows grows by one exactly when the id is
    new. [upsert] itself never throws. *)
Theorem upsert_then_getById rec s :
  let s' := fst (upsert env BlobScan rec s) in
  snd (upsert env BlobScan rec s) = Ok ()
  /\ getById BlobScan (fr_id rec) s' = Ok (Some (stored_view rec))
  /\ (forall i, i <> fr_id rec -> getById BlobScan i s' = getById BlobScan i s)
  /\ count s' = (if bool_decide (fr_id rec ∈ map row_id (files s))
                 then count s else S (count s)).
Proof.
  unfold upsert, upsert_blob. cbn [fst snd]. split; [done|].
  set (row := row_of_record env BlobScan rec).
  assert (Hid : row_id row = fr_id rec) by done.
  unfold getById, select_one, count, set_files. cbn [files].
  split; [|split].
  - fold (has_id (fr_id rec)). rewrite <- Hid, upsert_row_find.
    unfold row. by rewrite rowToRecord_row_of_record.
  - intros i Hi. fold (has_id i).
    by rewrite (upsert_row_find_other row) by (by rewrite Hid).
  - rewrite upsert_row_length.
    destruct (existsb _ (files s)) eqn:E.
    + apply existsb_has_id in E. rewrite Hid in E. by rewrite bool_decide_eq_true_2.
    + rewrite bool_decide_eq_false_2; [done|]. intros Hin.
      rewrite <- Hid in Hin. apply existsb_has_id in Hin. congruence.
Qed.

(** A row as [retrieveByEmbedding] scores it. *)
Definition scored (q : list Js.number) (r : Row) : Candidate :=
  {| c_rec := {| fr_id := row_id r;
                 fr_metadata :=
                   {| fm_id := row_id r;
                      fm_path := row_path r;
                      fm_filename := row_filename r;
                      fm_mimetype := str_or (row_mimetype r) None;
                      fm_size := nonzero (row_size r);
                      fm_createdAt := str_or (row_createdAt r) None;
                      fm_modifiedAt := str_or (row_modifiedAt r) None |};
                 fr_summary := row_summary r;
                 fr_embedding := Some (decode (row_embedding r)) |};
     c_score := Utils.cosine q (decode (row_embedding r)) |}.

Lemma score_rows_map q rows : score_rows q rows = Ok (map (scored q) rows).
Proof.
  induction rows as [|r rows IH]; [done|].
  cbn [score_rows]. unfold rowToRecord. rewrite fromFloat32Blob_whole, IH. done.
Qed.

Lemma slice0_length {A} (l : list A) k :
  0 <= k -> length (Js.slice0 l k) = Nat.min (Z.to_nat k) (length l).
Proof.
  intros Hk. unfold Js.slice0.
  replace (k <? 0) with false by (symmetry; apply Z.ltb_ge; lia).
  apply length_take.
Qed.

Lemma slice0_elem {A} (l : list A) k x : x ∈ Js.slice0 l k -> x ∈ l.
Proof.
  unfold Js.slice0. destruct (k <? 0); intros H;
    apply list_elem_of_lookup in H as [i Hi]; apply lookup_take_Some in Hi as [Hi _];
    apply list_elem_of_lookup; by exists i.
Qed.

Lemma slice0_all {A} (l : list A) k : Z.of_nat (length l) <= k -> Js.slice0 l k = l.
Proof.
  intros Hk. unfold Js.slice0.
  replace (k <? 0) with false by (symmetry; apply Z.ltb_ge; lia).
  apply take_ge. lia.
Qed.

(** X2. The brute-force [retrieveByEmbedding] scores every row with the
    dot product of the query and the stored (single-precision) embedding
    and returns the [topK] best: at most [topK] candidates and at most one
    per row, each of them a scored row, in descending order of score; with
    [topK] at least the number of rows it returns every row. The order is
    the one of the scores when none of them is NaN. *)
Theorem retrieve_blob_top (q : list Js.number) (k : Z) (s : Store) :
  0 <= k ->
  SortFacts.numeric c_score (map (scored q) (files s)) ->
  exists cs,
    retrieveByEmbedding env BlobScan q k s = Ok cs
    /\ length cs = Nat.min (Z.to_nat k) (count s)
    /\ (forall c, c ∈ cs -> exists r, r ∈ files s /\ c = scored q r)
    /\ StronglySorted (SortFacts.desc c_score) cs
    /\ (exists rest, cs ++ rest ≡ₚ map (scored q) (files s))
    /\ (Z.of_nat (count s) <= k -> cs ≡ₚ map (scored q) (files s)).
Proof.
  intros Hk Hnum. unfold retrieveByEmbedding, retrieve_blob. rewrite score_rows_map.
  set (all := map (scored q) (files s)) in *.
  change by_score_desc with (SortFacts.cmp_desc c_score).
  pose proof (SortFacts.sort_perm c_score all) as Hperm.
  eexists. split; [reflexivity|]. split; [|split; [|split; [|split]]].
  - rewrite slice0_length by done. rewrite (Permutation_length Hperm).
    unfold all, count. by rewrite length_map.
  - intros c Hc. apply slice0_elem in Hc. apply SortFacts.sort_elem in Hc.
    apply list_elem_of_fmap in Hc as (r & -> & Hr). by exists r.
  - apply SortFacts.sorted_slice0. by apply SortFacts.sort_sorted.
  - exists (drop (Z.to_nat k) (Js.sort (SortFacts.cmp_desc c_score) all)).
    unfold Js.slice0. replace (k <? 0) with false by (symmetry; apply Z.ltb_ge; lia).
    by rewrite take_drop.
  - intros Hall. rewrite slice0_all; [done|].
    rewrite (Permutation_length Hperm). unfold all. rewrite length_map. exact Hall.
Qed.

(** ** The sqlite-vec variant *)

(** X3. The first [upsert] of a store object rebuilds the vector table:
    [ensureVectorTable] drops [vec_files] and creates it again for the
    dimension of the embedding, so afterwards the table holds the new
    embedding and nothing else, whatever it held before, while the rows
    of [files] are kept. *)
Theorem first_upsert_rebuilds_vec_files rec e s :
  vectorTableReady s = false ->
  fr_embedding rec = Some e -> e <> [] -> all_numbers e = true ->
  vec0_insert_ok env (length e) e = true ->
  let s' := fst (upsert env SqliteVec rec s) in
  snd (upsert env SqliteVec rec s) = Ok ()
  /\ vec_files s' = Some {| vt_dim := length e; vt_rows := [(fr_id rec, e)] |}
  /\ vectorCount s' = 1%nat
  /\ vectorTableReady s' = true
  /\ files s' = upsert_row (row_of_record env SqliteVec rec) (files s)
  /\ (count s <= count s')%nat.
Proof.
  intros Hready He Hne Hnum Hins. unfold upsert, upsert_vec. rewrite He.
  destruct e as [|x e]; [done|]. rewrite Hnum. cbn [negb].
  unfold ensureVectorTable. rewrite Hready. cbn [files vec_files set_files].
  unfold vec_delete. cbn [vt_dim vt_rows List.filter]. rewrite Hins.
  cbn [fst snd set_vec vec_files files vectorTableReady vec_insert vt_rows vt_dim app].
  repeat split; try done.
  unfold count, set_vec, set_files. cbn [files].
  rewrite upsert_row_length. destruct (existsb _ _); lia.
Qed.

(** The vector table holds an embedding for every row of [files], once. *)
Definition covered (s : Store) : Prop :=
  vectorTableReady s = true
  /\ NoDup (map row_id (files s))
  /\ exists vt, vec_files s = Some vt /\ map fst (vt_rows vt) ≡ₚ map row_id (files s).

(** Handing the records of a list to [upsert], one after the other;
    [None] when one of the calls throws. *)
Fixpoint upsert_all (recs : list FileRecord) (s : Store) : option Store :=
  match recs with
  | [] => Some s
  | rec :: recs' =>
      match upsert env SqliteVec rec s with
      | (s', Ok _) => upsert_all recs' s'
      | (_, Throw _) => None
      end
  end.

Lemma upsert_row_NoDup r t : NoDup (map row_id t) -> NoDup (map row_id (upsert_row r t)).
Proof.
  intros Hnd. rewrite upsert_row_ids. destruct (existsb _ t) eqn:E; [done|].
  apply NoDup_app. split; [done|]. split; [|apply NoDup_singleton].
  intros x Hx Hx'. apply list_elem_of_singleton in Hx'. subst x.
  apply existsb_has_id in Hx. congruence.
Qed.

Lemma filter_other_ids (i : string) (rows : list (string * list Js.number)) :
  NoDup (map fst rows) ->
  map fst (List.filter (fun r => negb (bool_decide (fst r = i))) rows)
  = List.filter (fun j => negb (bool_decide (j = i))) (map fst rows).
Proof.
  intros _. induction rows as [|[j e] rows IH]; [done|]. simpl.
  destruct (bool_decide (j = i)); simpl; by rewrite IH.
Qed.

Lemma filter_absent (i : string) (l : list string) :
  i ∉ l -> List.filter (fun j => negb (bool_decide (j = i))) l = l.
Proof.
  induction l as [|j l IH]; [done|]. intros Hi. simpl.
  rewrite bool_decide_eq_false_2 by (intros ->; apply Hi; left).
  simpl. rewrite IH; [done|]. intros H. apply Hi. by right.
Qed.

Lemma upsert_covered rec s s' :
  covered s -> upsert env SqliteVec rec s = (s', Ok ()) -> covered s'.
Proof.
  intros (Hready & Hnd & vt & Hvt & Hperm). unfold upsert, upsert_vec.
  destruct (fr_embedding rec) as [[|x e]|]; try done.
  destruct (negb (all_numbers (x :: e))); [done|].
  unfold ensureVectorTable. rewrite Hready. cbn [files vec_files set_files]. rewrite Hvt.
  destruct (vec0_insert_ok env _ _); [|done].
  intros H. inversion H; subst s'. clear H.
  unfold covered, set_vec, set_files. cbn [vectorTableReady files vec_files].
  split; [done|]. split; [by apply upsert_row_NoDup|].
  eexists. split; [done|].
  unfold vec_insert, vec_delete. cbn [vt_rows]. rewrite map_app. cbn [map fst].
  set (i := fr_id rec).
  assert (Hvnd : NoDup (map fst (vt_rows vt))) by (by rewrite Hperm).
  rewrite (filter_other_ids i _ Hvnd).
  rewrite upsert_row_ids. cbn [row_of_record row_id]. fold i.
  destruct (existsb _ (files s)) eqn:E.
  - apply (existsb_has_id (row_of_record env SqliteVec rec)) in E.
    cbn [row_of_record row_id] in E. fold i in E.
    rewrite <- Hperm in E |- *.
    clear Hperm. induction (map fst (vt_rows vt)) as [|j l IH]; [by apply elem_of_nil in E|].
    apply NoDup_cons in Hvnd as [Hj Hl]. simpl.
    destruct (decide (j = i)) as [->|Hne].
    + rewrite bool_decide_eq_true_2 by done. simpl.
      rewrite (filter_absent i l Hj). symmetry. apply Permutation_cons_append.
    + rewrite bool_decide_eq_false_2 by done. simpl.
      apply elem_of_cons in E as [Heq|E]; [by symmetry in Heq|].
      constructor. by apply IH.
  - rewrite filter_absent; [by rewrite Hperm|].
    rewrite Hperm. intros Hin.
    apply (existsb_has_id (row_of_record env SqliteVec rec)) in Hin.
    cbn [row_of_record row_id] in Hin. fold i in Hin. congruence.
Qed.

(** X4. While one store object, created on an empty database, does all
    the [upsert]s and none of them throws, the vector table holds exactly
    one embedding per row of [files]: [vectorCount()] equals [count()],
    and [hasVectorIndex()] is true once a record has been stored. (A
    store object created later on the same database drops the table at
    its first [upsert].) *)
Theorem vector_index_covers_files (recs : list FileRecord) (s' : Store) :
  upsert_all recs (Sqlite.open [] None) = Some s' -> recs <> [] ->
  vectorCount s' = count s' /\ hasVectorIndex s' = true /\ covered s'.
Proof.
  intros Hall Hne. destruct recs as [|rec recs]; [done|]. clear Hne.
  cbn [upsert_all] in Hall.
  destruct (upsert env SqliteVec rec (Sqlite.open [] None)) as [s1 [[]|err]] eqn:H1; [|done].
  assert (Hc : covered s1).
  { unfold upsert, upsert_vec in H1.
    destruct (fr_embedding rec) as [[|x e]|]; try done.
    destruct (negb (all_numbers (x :: e))); [done|].
    cbn in H1. destruct (vec0_insert_ok env _ _); [|done].
    inversion H1; subst s1. unfold covered. cbn.
    split; [done|]. split; [apply NoDup_singleton|]. eexists. split; [done|]. done. }
  clear H1.
  assert (Hfinal : covered s').
  { revert s1 Hc Hall. induction recs as [|r recs IH]; intros s1 Hc Hall; cbn [upsert_all] in Hall.
    - by inversion Hall; subst.
    - destruct (upsert env SqliteVec r s1) as [s2 [[]|err]] eqn:H2; [|done].
      eapply IH; [|exact Hall]. by eapply upsert_covered. }
  split; [|split; [|exact Hfinal]].
  - destruct Hfinal as (_ & _ & vt & Hvt & Hperm). unfold vectorCount, count. rewrite Hvt.
    by rewrite <- (length_map fst), Hperm, length_map.
  - destruct Hfinal as (_ & _ & vt & Hvt & _). unfold hasVectorIndex. by rewrite Hvt.
Qed.

End WithEnv.

End SqliteStoreProps.

(* ===================================================================== *)
(** * More on [rerank] and [search] *)
(* ===================================================================== *)

Module SearchMore.
Import SemanticStore SearchProps.

Lemma byId_of_key_acc (l : list Candidate) (m : gmap string Candidate) k c :
  (forall k' c', m !! k' = Some c' -> fr_id (c_rec c') = k') ->
  foldl (fun m c => <[fr_id (c_rec c) := c]> m) m l !! k = Some c ->
  fr_id (c_rec c) = k.
Proof.
  revert m. induction l as [|x l IH]; intros m Hm Hl; simpl in *; [by apply Hm|].
  eapply IH; [|exact Hl].
  intros k' c' Hc'. destruct (decide (fr_id (c_rec x) = k')) as [Heq|Hne].
  - subst k'. rewrite lookup_insert_eq in Hc'. by inversion Hc'; subst.
  - rewrite lookup_insert_ne in Hc' by done. by apply Hm.
Qed.

Lemma byId_of_key (l : list Candidate) k c :
  byId_of l !! k = Some c -> fr_id (c_rec c) = k.
Proof. apply byId_of_key_acc. intros k' c'. by rewrite lookup_empty. Qed.

(** Every joined result takes its fields from a candidate with its id. *)
Lemma join_results_fields (l : list Candidate) reranked res :
  res ∈ join_results (byId_of l) reranked ->
  exists r c, r ∈ reranked /\ c ∈ l
    /\ sr_id res = s_id r /\ sr_id res = fr_id (c_rec c)
    /\ sr_score res = s_score r
    /\ sr_cosineSimilarity res = c_score c
    /\ sr_metadata res = fr_metadata (c_rec c)
    /\ sr_summary res = fr_summary (c_rec c).
Proof.
  unfold join_results. rewrite list_elem_of_omap. intros (r & Hr & Hres).
  destruct (byId_of l !! s_id r) as [c|] eqn:Hc; simpl in Hres; [|done].
  inversion Hres; subst; simpl. exists r, c.
  pose proof (byId_of_key _ _ _ Hc). pose proof (byId_of_lookup _ _ _ Hc). done.
Qed.

Lemma omap_length_le {A B} (f : A -> option B) (l : list A) :
  (length (omap f l) <= length l)%nat.
Proof. induction l as [|x l IH]; csimpl; [lia|]. destruct (f x); csimpl; lia. Qed.

Lemma slice0_length_topK {A} (l : list A) k :
  0 <= k -> (length (Js.slice0 l k) <= Z.to_nat k)%nat.
Proof.
  intros Hk. unfold Js.slice0.
  replace (k <? 0) with false by (symmetry; apply Z.ltb_ge; lia).
  rewrite length_take. lia.
Qed.

(** [x >= NaN] is false. *)
Lemma ge_nan x t : is_nan t = true -> Js.ge x t = false.
Proof.
  intros Ht. unfold Js.ge. rewrite FloatAxioms.leb_spec.
  destruct (Prim2SF t) eqn:E; try done.
  all: exfalso; assert (is_nan t = false) as Hn by (apply IEEE.not_nan_Prim2SF; by rewrite E);
    congruence.
Qed.

Section WithEnv.
Context (env : Env) (config : StoreConfig) (dsim dscore : Js.number).

Let azure := cfg_azure config.
Let backend := cfg_backend config.

(** The request [embedText] sends for a query. *)
Definition embed_call (query : string) : Event :=
  EvCall query (CallEmbed (Nlp.embeddingDeployment azure) query).

Lemma embedText_log origin text w :
  let out := Nlp.embedText env azure origin text w in
  w_db (fst out) = w_db w /\ w_uuids (fst out) = w_uuids w
  /\ w_log (fst out) = w_log w ++ [EvCall origin (CallEmbed (Nlp.embeddingDeployment azure) text)].
Proof.
  unfold Nlp.embedText, request, mbind, M_bind, emit, of_option, mret, M_ret, throw; simpl.
  destruct (embeddings_create env _ _) as [resp|]; simpl; [|done].
  destruct (emb_vector resp); done.
Qed.

Lemma rerank_world query cs k w :
  let out := Nlp.rerank env azure query cs k w in
  w_db (fst out) = w_db w /\ w_uuids (fst out) = w_uuids w
  /\ w_log (fst out)
     = w_log w ++ [EvCall query (CallChat (Nlp.rerankDeployment azure)
                                   (Nlp.rerank_messages query cs))].
Proof.
  unfold Nlp.rerank, request, mbind, M_bind, emit, of_option, mret, M_ret, throw; simpl.
  destruct (chat_create env _ _) as [resp|]; simpl; [|done].
  destruct (Nlp.parse_ranking env _); done.
Qed.

Lemma rerank_length query cs k w w' reranked :
  0 <= k -> Nlp.rerank env azure query cs k w = (w', Ok reranked) ->
  (length reranked <= Z.to_nat k)%nat.
Proof.
  intros Hk. unfold Nlp.rerank, request, mbind, M_bind, emit, of_option, mret, M_ret, throw; simpl.
  destruct (chat_create env _ _) as [resp|]; simpl; [|done].
  destruct (Nlp.parse_ranking env _); intros H; inversion H; subst.
  - by apply slice0_length_topK.
  - unfold Nlp.fallback. rewrite length_imap. by apply slice0_length_topK.
Qed.

(** [search], step by step. *)
Lemma search_cases query opts w :
  search env config dsim dscore query opts w
  = match Nlp.embedText env azure query query w with
    | (w1, Throw e) => (w1, Throw e)
    | (w1, Ok qvec) =>
        match Sqlite.retrieveByEmbedding env backend (Nlp.er_embedding qvec)
                (candidate_limit (topK_of opts)) (w_db w1) with
        | Throw e => (w1, Throw e)
        | Ok candidates =>
            match kept dsim opts candidates with
            | [] => (w1, Ok [])
            | _ =>
                match Nlp.rerank env azure query (map id_summary (kept dsim opts candidates))
                        (topK_of opts) w1 with
                | (w2, Throw e) => (w2, Throw e)
                | (w2, Ok reranked) =>
                    (w2, Ok (List.filter
                               (fun result => Js.ge (sr_score result) (minScore_of dscore opts))
                               (join_results (byId_of (kept dsim opts candidates)) reranked)))
                end
            end
        end
    end.
Proof.
  unfold search. fold azure backend. unfold mbind at 1, M_bind at 1.
  destruct (Nlp.embedText env azure query query w) as [w1 [qvec|e]]; [|done].
  unfold mbind at 1, M_bind at 1, read_db at 1. fold (topK_of opts).
  destruct (Sqlite.retrieveByEmbedding env backend _ _ (w_db w1)) as [candidates|e]; [|done].
  fold (minSimilarity_of dsim opts). fold (kept dsim opts candidates).
  destruct (kept dsim opts candidates) as [|c0 cs]; [done|].
  unfold mbind, M_bind.
  destruct (Nlp.rerank env azure query _ _ w1) as [w2 [rr|e]]; done.
Qed.

(** X5. [search] only reads: whatever it returns or throws, the database
    and the supply of identifiers are as they were, and it has sent the
    provider one embedding request for the query, followed by at most one
    rerank request for the query. *)
Theorem search_reads_only query opts w :
  let out := search env config dsim dscore query opts w in
  w_db (fst out) = w_db w /\ w_uuids (fst out) = w_uuids w
  /\ (w_log (fst out) = w_log w ++ [embed_call query]
      \/ exists cs, w_log (fst out) = w_log w ++ [embed_call query; rerank_call config query cs]).
Proof.
  intros out. subst out. rewrite search_cases.
  pose proof (embedText_log query query w) as (Hdb & Hu & Hlog).
  destruct (Nlp.embedText env azure query query w) as [w1 [qvec|e]]; cbn [fst snd] in *.
  2: { split; [done|]. split; [done|]. by left. }
  destruct (Sqlite.retrieveByEmbedding env backend _ _ (w_db w1)) as [candidates|e];
    cbn [fst snd].
  2: { split; [done|]. split; [done|]. by left. }
  destruct (kept dsim opts candidates) as [|c0 cs] eqn:E.
  { cbn. split; [done|]. split; [done|]. by left. }
  pose proof (rerank_world query (map id_summary (c0 :: cs)) (topK_of opts) w1)
    as (Hdb2 & Hu2 & Hlog2).
  destruct (Nlp.rerank env azure query _ _ w1) as [w2 [rr|e]]; cbn [fst snd] in *.
  - split; [congruence|]. split; [congruence|]. right. exists (c0 :: cs).
    rewrite Hlog2, Hlog, <- app_assoc. done.
  - split; [congruence|]. split; [congruence|]. right. exists (c0 :: cs).
    rewrite Hlog2, Hlog, <- app_assoc. done.
Qed.

(** X6. [search] returns at most [topK] results, and every result comes
    from a retrieved candidate that passed [minSimilarity]: it has the
    candidate's id, similarity, metadata and summary, and its score is at
    least [minScore]. An id that the provider made up is not returned. *)
Theorem search_results_from_candidates query opts w w1 qvec candidates w' results :
  Nlp.embedText env azure query query w = (w1, Ok qvec) ->
  Sqlite.retrieveByEmbedding env backend (Nlp.er_embedding qvec)
    (candidate_limit (topK_of opts)) (w_db w1) = Ok candidates ->
  0 <= topK_of opts ->
  search env config dsim dscore query opts w = (w', Ok results) ->
  (length results <= Z.to_nat (topK_of opts))%nat
  /\ forall res, res ∈ results ->
       Js.ge (sr_score res) (minScore_of dscore opts) = true
       /\ exists c, c ∈ candidates
            /\ Js.ge (c_score c) (minSimilarity_of dsim opts) = true
            /\ sr_id res = fr_id (c_rec c)
            /\ sr_cosineSimilarity res = c_score c
            /\ sr_metadata res = fr_metadata (c_rec c)
            /\ sr_summary res = fr_summary (c_rec c).
Proof.
  intros Hemb Hret Hk. rewrite search_cases. fold azure backend in Hemb, Hret.
  rewrite Hemb, Hret.
  destruct (kept dsim opts candidates) as [|c0 cs] eqn:E.
  { intros H. inversion H; subst. split; [simpl; lia|]. intros res Hres.
    by apply elem_of_nil in Hres. }
  destruct (Nlp.rerank env azure query _ _ w1) as [w2 [rr|e]] eqn:Hrr; [|done].
  intros H. inversion H; subst. clear H.
  pose proof (rerank_length _ _ _ _ _ _ Hk Hrr) as Hlen.
  split.
  - etransitivity; [apply filter_length_le|].
    unfold join_results. etransitivity; [apply omap_length_le|]. exact Hlen.
  - intros res Hres. apply filter_elem in Hres as [Hres Hscore]. split; [exact Hscore|].
    apply join_results_fields in Hres as (r & c & _ & Hc & _ & Hid & _ & Hsim & Hmd & Hsum).
    rewrite <- E in Hc. unfold kept in Hc. apply filter_elem in Hc as [Hc Hge].
    by exists c.
Qed.

(** X7. A threshold that is NaN lets nothing through, since no number is
    [>= NaN]: with such a [minSimilarity], [search] returns the empty
    list without a rerank request; with such a [minScore], whatever it
    returns is the empty list. *)
Theorem search_nan_threshold query opts w w1 qvec candidates :
  Nlp.embedText env azure query query w = (w1, Ok qvec) ->
  Sqlite.retrieveByEmbedding env backend (Nlp.er_embedding qvec)
    (candidate_limit (topK_of opts)) (w_db w1) = Ok candidates ->
  (is_nan (minSimilarity_of dsim opts) = true ->
     search env config dsim dscore query opts w = (w1, Ok []))
  /\ (is_nan (minScore_of dscore opts) = true ->
      forall w' results, search env config dsim dscore query opts w = (w', Ok results) ->
                         results = []).
Proof.
  intros Hemb Hret. rewrite search_cases. fold azure backend in Hemb, Hret.
  rewrite Hemb, Hret. split.
  - intros Hnan.
    assert (kept dsim opts candidates = []) as ->; [|done].
    unfold kept. clear Hret. induction candidates as [|c cs IH]; [done|].
    simpl. by rewrite (ge_nan _ _ Hnan).
  - intros Hnan w' results.
    destruct (kept dsim opts candidates) as [|c0 cs]; [by intros H; inversion H|].
    destruct (Nlp.rerank env azure query _ _ w1) as [w2 [rr|e]]; [|done].
    intros H. inversion H; subst. clear H.
    induction (join_results _ rr) as [|res l IH]; [done|].
    simpl. by rewrite (ge_nan _ _ Hnan).
Qed.

(** X8. An empty answer of the provider is read as the empty ranking
    ['[]']: [rerank] returns no entry (the fallback is not used), and a
    [search] whose rerank request is answered that way returns no
    result, whatever candidates were retrieved. *)
Theorem rerank_empty_answer query (cs : list (string * string)) k w response :
  chat_create env (Nlp.rerankDeployment azure) (Nlp.rerank_messages query cs) = Some response ->
  chat_content response = None \/ chat_content response = Some EmptyString ->
  snd (Nlp.rerank env azure query cs k w) = Ok []
  /\ (forall opts w0 w1 qvec candidates,
        Nlp.embedText env azure query query w0 = (w1, Ok qvec) ->
        Sqlite.retrieveByEmbedding env backend (Nlp.er_embedding qvec)
          (candidate_limit (topK_of opts)) (w_db w1) = Ok candidates ->
        map id_summary (kept dsim opts candidates) = cs ->
        snd (search env config dsim dscore query opts w0) = Ok []).
Proof.
  intros Hchat Hempty.
  assert (Hrr : forall k' w', snd (Nlp.rerank env azure query cs k' w') = Ok []).
  { intros k' w'. unfold Nlp.rerank, request, mbind, M_bind, emit, of_option; simpl.
    rewrite Hchat. simpl. unfold Nlp.content_or_empty_array.
    destruct Hempty as [->| ->]; simpl; unfold Nlp.parse_ranking; simpl;
      unfold Js.slice0; destruct (k' <? 0); by rewrite take_nil. }
  split; [apply Hrr|].
  intros opts w0 w1 qvec candidates Hemb Hret Hcs. rewrite search_cases, Hemb, Hret.
  destruct (kept dsim opts candidates) as [|c0 cs']; [done|]. rewrite Hcs.
  specialize (Hrr (topK_of opts) w1).
  destruct (Nlp.rerank env azure query cs (topK_of opts) w1) as [w2 [rr|e]]; simpl in *; [|done].
  by inversion Hrr; subst.
Qed.

(** X9. Only a parse failure is recovered: when the rerank request
    itself fails, [rerank] throws, and so does [search]; when the
    embedding request fails, [search] throws before it reads the
    database, and no rerank request is sent. *)
Theorem search_provider_failure query opts w :
  (embeddings_create env (Nlp.embeddingDeployment azure) query = None ->
     search env config dsim dscore query opts w
     = ({| w_db := w_db w; w_log := w_log w ++ [embed_call query]; w_uuids := w_uuids w |},
        Throw ProviderError))
  /\ (forall w1 qvec candidates,
        Nlp.embedText env azure query query w = (w1, Ok qvec) ->
        Sqlite.retrieveByEmbedding env backend (Nlp.er_embedding qvec)
          (candidate_limit (topK_of opts)) (w_db w1) = Ok candidates ->
        kept dsim opts candidates <> [] ->
        chat_create env (Nlp.rerankDeployment azure)
          (Nlp.rerank_messages query (map id_summary (kept dsim opts candidates))) = None ->
        snd (Nlp.rerank env azure query (map id_summary (kept dsim opts candidates))
               (topK_of opts) w1) = Throw ProviderError
        /\ snd (search env config dsim dscore query opts w) = Throw ProviderError).
Proof.
  split.
  - intros Hfail. rewrite search_cases.
    unfold Nlp.embedText, request, mbind, M_bind, emit, of_option, throw; simpl.
    by rewrite Hfail.
  - intros w1 qvec candidates Hemb Hret Hne Hfail.
    assert (Hrr : snd (Nlp.rerank env azure query (map id_summary (kept dsim opts candidates))
                         (topK_of opts) w1) = Throw ProviderError).
    { unfold Nlp.rerank, request, mbind, M_bind, emit, of_option, throw; simpl.
      by rewrite Hfail. }
    split; [exact Hrr|]. rewrite search_cases, Hemb, Hret.
    destruct (kept dsim opts candidates) as [|c0 cs]; [done|].
    destruct (Nlp.rerank env azure query _ _ w1) as [w2 [rr|e]]; simpl in *; congruence.
Qed.

(** X10. With the sqlite-vec store, a [search] on a database in which
    the vector table does not exist (nothing was indexed yet) throws once
    the query has been embedded: the query on [vec_files] fails, and no
    rerank request is sent. *)
Theorem search_without_vector_table query opts w w1 qvec :
  cfg_backend config = Sqlite.SqliteVec ->
  Sqlite.vec_files (w_db w) = None ->
  Nlp.embedText env azure query query w = (w1, Ok qvec) ->
  search env config dsim dscore query opts w = (w1, Throw SqliteError)
  /\ w_log w1 = w_log w ++ [embed_call query].
Proof.
  intros Hb Hvec Hemb. rewrite search_cases, Hemb.
  pose proof (embedText_log query query w) as (Hdb & _ & Hlog).
  rewrite Hemb in Hdb, Hlog. cbn [fst] in Hdb, Hlog.
  unfold backend. rewrite Hb. cbn [Sqlite.retrieveByEmbedding]. unfold Sqlite.retrieve_vec.
  by rewrite Hdb, Hvec.
Qed.

End WithEnv.

End SearchMore.

(* ===================================================================== *)
(** * More on [indexPath] and [indexFile] *)
(* ===================================================================== *)

Module IndexMore.
Import Sqlite SqliteProps SemanticStore IndexProps.

(** ** The batches *)

Lemma chunks_fuel_concat {A} (n : nat) : forall fuel (l : list A),
  (0 < n)%nat -> (length l <= fuel)%nat -> concat (chunks_fuel fuel n l) = l.
Proof.
  induction fuel as [|fuel IH]; intros l Hn Hlen; simpl.
  - by destruct l; simpl in Hlen; try lia.
  - destruct l as [|x l]; [done|].
    cbn [concat]. rewrite IH; [apply take_drop|done|].
    rewrite length_drop. simpl in *. lia.
Qed.

Lemma chunks_fuel_sizes {A} (n : nat) : forall fuel (l : list A),
  (0 < n)%nat ->
  Forall (fun c => (0 < length c <= n)%nat) (chunks_fuel fuel n l).
Proof.
  induction fuel as [|fuel IH]; intros l Hn; simpl; [constructor|].
  destruct l as [|x l]; [constructor|].
  constructor; [|by apply IH].
  rewrite length_take. simpl. lia.
Qed.

(** X11. The loop that cuts the files to process into batches loses and
    repeats nothing: the batches, one after the other, are the list of
    files in order, and every batch holds at least one and at most
    [concurrency] files. *)
Theorem chunks_partition {A} (n : nat) (l : list A) :
  (0 < n)%nat ->
  concat (chunks n l) = l
  /\ Forall (fun c => (0 < length c <= n)%nat) (chunks n l).
Proof.
  intros Hn. split; [by apply chunks_fuel_concat|by apply chunks_fuel_sizes].
Qed.

(** ** What the progress manager is told *)







Section WithEnv.
Context (env : Env) (config : StoreConfig).

Let backend := cfg_backend config.












(** ** [indexPath] as a whole *)







(** ** [indexFile] *)

Lemma upsert_ok_files b rec s s' :
  upsert env b rec s = (s', Ok ()) ->
  files s' = upsert_row (row_of_record env b rec) (files s).
Proof.
  destruct b; cbn [upsert]; [unfold upsert_blob; intros H; by inversion H|].
  unfold upsert_vec. destruct (fr_embedding rec) as [[|x e]|]; try done.
  destruct (negb (all_numbers (x :: e))); [done|].
  unfold ensureVectorTable.
  destruct (vectorTableReady s); cbn [files vec_files set_files].
  - destruct (vec_files s) as [vt|]; [|done].
    destruct (vec0_insert_ok env _ _); intros H; by inversion H.
  - destruct (vec0_insert_ok env _ _); intros H; by inversion H.
Qed.

Lemma upsert_throw_same b rec s s' e :
  upsert env b rec s = (s', Throw e) -> e <> SqliteError -> s' = s.
Proof.
  destruct b; cbn [upsert]; [unfold upsert_blob; intros H; by inversion H|].
  unfold upsert_vec. destruct (fr_embedding rec) as [[|x v]|].
  1,3: intros H; by inversion H.
  destruct (negb (all_numbers (x :: v))); [intros H; by inversion H|].
  unfold ensureVectorTable.
  destruct (vectorTableReady s); cbn [files vec_files set_files].
  - destruct (vec_files s) as [vt|]; [|intros H; by inversion H].
    destruct (vec0_insert_ok env _ _); intros H; by inversion H.
  - destruct (vec0_insert_ok env _ _); intros H; by inversion H.
Qed.

(** X14. An [indexFile] that fails before the store does leaves the
    database as it was: when the file cannot be read, the summary or the
    embedding request fails, or [upsert] rejects the embedding, no row
    is written. (An error of the vector table comes after the row is
    written.) *)
Theorem indexFile_failure_writes_nothing f w e :
  snd (indexFile env config f w) = Throw e -> e <> SqliteError ->
  w_db (fst (indexFile env config f w)) = w_db w.
Proof.
  unfold indexFile, mbind, M_bind.
  pose proof (indexFile_prepare_spec env config f w) as (Hdb & _ & _).
  destruct (indexFile_prepare env config f w) as [w1 [j|e1]]; cbn [fst snd] in *; [|done].
  rewrite <- Hdb. clear Hdb.
  unfold indexFile_complete, Nlp.summarizeFile, Nlp.embedText, request, write_db, emit,
    of_result, of_option, mbind, M_bind, mret, M_ret, throw.
  fold backend.
  destruct (Nlp.readTextFile env (job_file j) (cfg_maxChars config)) as [[text tr]|e2];
    cbn [fst snd w_db]; [|done].
  destruct (chat_create env _ _) as [resp|]; cbn [fst snd w_db]; [|done].
  destruct (embeddings_create env _ _) as [er|]; cbn [fst snd w_db]; [|done].
  destruct (emb_vector er) as [vec|]; cbn [fst snd w_db]; [|done].
  match goal with
  | |- context [upsert env backend ?r _] => set (rec := r)
  end.
  destruct (upsert env backend rec (w_db w1)) as [s' [[]|e3]] eqn:Hup; cbn [fst snd w_db]; [done|].
  intros H Hne. inversion H; subst e3. by eapply upsert_throw_same.
Qed.

(** What the store returns for a record it was handed. *)
Definition view (b : Backend) (rec : FileRecord) : FileRecord :=
  match b with
  | BlobScan => SqliteStoreProps.stored_view env rec
  | SqliteVec =>
      {| fr_id := fr_id rec;
         fr_metadata := fr_metadata (SqliteStoreProps.stored_view env rec);
         fr_summary := fr_summary rec;
         fr_embedding := None |}
  end.

Lemma rowToRecord_view b rec : rowToRecord b (row_of_record env b rec) = Ok (view b rec).
Proof.
  destruct b; [apply SqliteStoreProps.rowToRecord_row_of_record|].
  unfold rowToRecord, view, SqliteStoreProps.stored_view. cbn.
  by rewrite SqliteStoreProps.str_or_idem.
Qed.

Lemma find_path_upsert new t :
  NoDup (map row_path t) -> NoDup (map row_id t) ->
  (exists row, List.find (has_path (row_path new)) t = Some row /\ row_id new = row_id row)
  \/ (List.find (has_path (row_path new)) t = None /\ row_id new ∉ map row_id t) ->
  List.find (has_path (row_path new)) (upsert_row new t) = Some new.
Proof.
  intros Hpaths Hids [(row & Hfind & Hid)|[Hfind Hfresh]].
  - apply find_elem in Hfind as [Hrow Hp]. apply bool_decide_eq_true in Hp.
    assert (Hex : existsb (fun x => bool_decide (row_id x = row_id new)) t = true).
    { apply existsb_has_id. rewrite Hid. apply list_elem_of_fmap. by exists row. }
    unfold upsert_row. rewrite Hex. clear Hex.
    induction t as [|x t IH]; [by apply elem_of_nil in Hrow|].
    cbn [map] in Hpaths, Hids. apply NoDup_cons in Hpaths as [Hxp Hpaths].
    apply NoDup_cons in Hids as [Hxi Hids]. cbn [map List.find].
    destruct (decide (row_id x = row_id new)) as [Heq|Hne].
    + unfold has_path at 1. by rewrite bool_decide_eq_true_2.
    + apply elem_of_cons in Hrow as [->|Hrow]; [congruence|].
      unfold has_path at 1. rewrite bool_decide_eq_false_2; [by apply IH|].
      intros Hx. apply Hxp. rewrite Hx, <- Hp. apply list_elem_of_fmap. by exists row.
  - rewrite (upsert_row_append new t Hfresh). clear Hpaths Hids Hfresh.
    induction t as [|x t IH]; cbn [app List.find] in *.
    + unfold has_path. by rewrite bool_decide_eq_true_2.
    + destruct (has_path (row_path new) x); [done|by apply IH].
Qed.

(** X15. What a successful [indexFile] leaves in the store, when ids and
    paths are unique in the table and the identifier [uuidv4] hands out is
    new: [getByPath] of the resolved path returns a record with the id of
    the record that was there (a fresh identifier when there was none),
    the resolved path, the base name, the size (read back as undefined
    when it is 0) and modification time of [statSync], the trimmed answer
    of the provider as summary, and the creation time of the previous
    record when it had one, else the birth time of the file. *)
Theorem indexFile_stores_record f w w' tokens :
  table_ok (files (w_db w)) ->
  unused_from env (w_uuids w) (files (w_db w)) ->
  indexFile env config f w = (w', Ok tokens) ->
  let rp := path_resolve env f in
  exists st text truncated resp rec old,
    fs_statSync env f = Some st
    /\ Nlp.readTextFile env f (cfg_maxChars config) = Ok (text, truncated)
    /\ chat_create env (Nlp.rerankDeployment (cfg_azure config)) (Nlp.summarize_messages text)
       = Some resp
    /\ getByPath backend rp (w_db w) = Ok old
    /\ getByPath backend rp (w_db w') = Ok (Some rec)
    /\ count (w_db w') = match old with
                         | Some _ => count (w_db w)
                         | None => S (count (w_db w))
                         end
    /\ fr_id rec = match old with Some r => fr_id r | None => uuidv4 env (w_uuids w) end
    /\ fm_id (fr_metadata rec) = fr_id rec
    /\ fm_path (fr_metadata rec) = rp
    /\ fm_filename (fr_metadata rec) = path_basename env f
    /\ fm_size (fr_metadata rec) = nonzero (Some (st_size st))
    /\ fm_modifiedAt (fr_metadata rec) = str_or (Some (st_mtime st)) None
    /\ fm_createdAt (fr_metadata rec)
       = str_or (Some (default (st_birthtime st)
                         (str_or (r ← old; fm_createdAt (fr_metadata r)) None))) None
    /\ fr_summary rec = Nlp.trim (default EmptyString (chat_content resp)).
Proof.
  intros (Hids & Hpaths & Hnonempty) Hunused Hrun rp.
  unfold indexFile, mbind, M_bind in Hrun.
  unfold indexFile_prepare, mbind, M_bind, of_option, read_db, draw_uuid, mret, M_ret, throw
    in Hrun. fold backend rp in Hrun.
  destruct (fs_statSync env f) as [st|] eqn:Hstat; cbn [fst snd] in Hrun; [|done].
  destruct (getByPath backend rp (w_db w)) as [old|e0] eqn:Hold; cbn [fst snd] in Hrun; [|done].
  (* the id and the world after the first half *)
  set (id := match old with Some r => fr_id r | None => uuidv4 env (w_uuids w) end).
  assert (Hprep : exists w1, w_db w1 = w_db w /\
            indexFile_complete env config
              {| job_file := f; job_stat := st; job_filename := path_basename env f;
                 job_resolved := rp; job_existing := old; job_id := id |} w1
            = (w', Ok tokens)).
  { destruct old as [r|].
    - destruct (decide (fr_id r = EmptyString)) as [Hempty|Hne]; cbn [fst snd] in Hrun.
      + exfalso. apply getByPath_Some in Hold as (row & Hfind & Hrid).
        apply find_elem in Hfind as [Hrow _].
        eapply Forall_forall in Hnonempty; [|exact Hrow]. congruence.
      + exists w. split; [done|exact Hrun].
    - cbn [fst snd] in Hrun. eexists. split; [|exact Hrun]. done. }
  clear Hrun. destruct Hprep as (w1 & Hdb1 & Hrun).
  unfold indexFile_complete, Nlp.summarizeFile, Nlp.embedText, request, write_db, emit,
    of_result, of_option, mbind, M_bind, mret, M_ret, throw in Hrun.
  cbn [job_file job_stat job_filename job_resolved job_existing job_id] in Hrun.
  destruct (Nlp.readTextFile env f (cfg_maxChars config)) as [[text tr]|e2] eqn:Hread;
    cbn [fst snd w_db] in Hrun; [|done].
  destruct (chat_create env _ _) as [resp|] eqn:Hchat; cbn [fst snd w_db] in Hrun; [|done].
  destruct (embeddings_create env _ _) as [er|]; cbn [fst snd w_db] in Hrun; [|done].
  destruct (emb_vector er) as [vec|]; cbn [fst snd w_db] in Hrun; [|done].
  match type of Hrun with
  | context [upsert env ?b ?r _] => set (rec := r) in Hrun
  end.
  fold backend in Hrun. rewrite Hdb1 in Hrun.
  destruct (upsert env backend rec (w_db w)) as [s' [[]|e3]] eqn:Hup; cbn [fst snd] in Hrun;
    [|done].
  inversion Hrun; subst w'. clear Hrun. cbn [w_db].
  apply upsert_ok_files in Hup. set (new := row_of_record env backend rec) in *.
  assert (Hnewpath : row_path new = rp) by done.
  assert (Hnewid : row_id new = id) by done.
  assert (Hcase : (exists row, List.find (has_path (row_path new)) (files (w_db w)) = Some row
                               /\ row_id new = row_id row)
                  \/ (List.find (has_path (row_path new)) (files (w_db w)) = None
                      /\ row_id new ∉ map row_id (files (w_db w)))).
  { rewrite Hnewpath, Hnewid. unfold id. destruct old as [r|].
    - left. apply getByPath_Some in Hold as (row & Hfind & Hrid). by exists row.
    - right. split; [by apply getByPath_None in Hold|]. apply Hunused. lia. }
  pose proof (find_path_upsert new (files (w_db w)) Hpaths Hids Hcase) as Hfind.
  exists st, text, tr, resp, (view backend rec), old.
  split; [done|]. split; [done|]. split; [done|]. split; [done|]. split.
  { unfold getByPath, select_one. fold (has_path rp). rewrite Hup, <- Hnewpath, Hfind.
    unfold new. by rewrite rowToRecord_view. }
  split.
  { unfold count. rewrite Hup, upsert_row_length.
    destruct Hcase as [(row & Hf & Hid)|[Hf Hfresh]].
    - pose proof (find_elem _ _ _ Hf) as [Hrow _].
      replace (existsb _ (files (w_db w))) with true.
      + destruct old; [done|]. apply getByPath_None in Hold. rewrite Hnewpath in Hf.
        congruence.
      + symmetry. apply existsb_has_id. rewrite Hid. apply list_elem_of_fmap. by exists row.
    - replace (existsb _ (files (w_db w))) with false.
      + destruct old as [r|]; [|done]. apply getByPath_Some in Hold as (row & Hf' & _).
        rewrite Hnewpath in Hf. congruence.
      + symmetry. apply not_true_is_false. intros Hex. by apply existsb_has_id in Hex. }
  destruct backend; cbn; repeat split; try done.
Qed.

End WithEnv.
End IndexMore.

(* ===================================================================== *)
(** * More on utils.ts *)
(* ===================================================================== *)

Module UtilsMore.

(** ** [isTextLike] *)

Lemma prefix_app (l1 l2 : list ascii) :
  String.prefix (string_of_list_ascii l1) (string_of_list_ascii (l1 ++ l2)) = true.
Proof.
  induction l1 as [|a l1 IH]; simpl; [by destruct (string_of_list_ascii l2)|].
  destruct (ascii_dec a a); [exact IH|done].
Qed.

Lemma prefix_split (l1 : list ascii) : forall l,
  String.prefix (string_of_list_ascii l1) (string_of_list_ascii l) = true ->
  exists l2, l = l1 ++ l2.
Proof.
  induction l1 as [|a l1 IH]; intros l H; [by exists l|].
  destruct l as [|b l]; simpl in H; [discriminate|].
  destruct (ascii_dec a b) as [->|]; [|done].
  destruct (IH l H) as [l2 ->]. by exists l2.
Qed.

Lemma append_cons (x : ascii) (a b : string) : String x a +:+ b = String x (a +:+ b).
Proof. reflexivity. Qed.

Lemma list_ascii_app (a b : string) :
  list_ascii_of_string (a +:+ b) = list_ascii_of_string a ++ list_ascii_of_string b.
Proof. induction a as [|c a IH]; [done|]. rewrite append_cons. simpl. by rewrite IH. Qed.

Lemma append_assoc (a b c : string) : (a +:+ b) +:+ c = a +:+ (b +:+ c).
Proof. induction a as [|x a IH]; [done|]. rewrite !append_cons. by rewrite IH. Qed.

Lemma append_length (a b : string) :
  String.length (a +:+ b) = (String.length a + String.length b)%nat.
Proof. induction a as [|x a IH]; [done|]. rewrite append_cons. simpl. by rewrite IH. Qed.

Lemma string_of_list_app (a b : list ascii) :
  string_of_list_ascii (a ++ b) = string_of_list_ascii a +:+ string_of_list_ascii b.
Proof. induction a as [|c a IH]; [done|]. simpl. rewrite append_cons. by rewrite IH. Qed.

(** [s] ends with [suffix] exactly when it is some text followed by
    [suffix]. *)
Lemma ends_with_spec (suffix s : string) :
  TextLike.ends_with suffix s = true <-> exists base, s = base +:+ suffix.
Proof.
  unfold TextLike.ends_with. split.
  - intros H. apply prefix_split in H as [l2 Hl].
    exists (string_of_list_ascii (rev l2)).
    rewrite <- (string_of_list_ascii_of_string s), <- (rev_involutive (list_ascii_of_string s)).
    rewrite Hl, rev_app_distr, rev_involutive, string_of_list_app.
    by rewrite string_of_list_ascii_of_string.
  - intros [base ->]. rewrite list_ascii_app, rev_app_distr. apply prefix_app.
Qed.

Lemma toLowerCase_app (a b : string) :
  TextLike.toLowerCase (a +:+ b) = TextLike.toLowerCase a +:+ TextLike.toLowerCase b.
Proof.
  unfold TextLike.toLowerCase. by rewrite list_ascii_app, map_app, string_of_list_app.
Qed.

Lemma lower_idem c : TextLike.lower (TextLike.lower c) = TextLike.lower c.
Proof.
  destruct c as [[] [] [] [] [] [] [] []]; vm_compute; reflexivity.
Qed.

Lemma toLowerCase_idem s :
  TextLike.toLowerCase (TextLike.toLowerCase s) = TextLike.toLowerCase s.
Proof.
  unfold TextLike.toLowerCase. rewrite list_ascii_of_string_of_list_ascii, map_map.
  f_equal. apply map_ext. intros c. apply lower_idem.
Qed.

(** X16. [isTextLike] accepts exactly the names that, in lower case, end
    with a dot and one of the listed extensions; so the letter case of a
    name does not matter, and what stands before the extension (the
    directories, other dots) does not either. *)
Theorem isTextLike_spec (filename : string) :
  (TextLike.isTextLike filename = true <->
     exists base ext, ext ∈ TextLike.extensions
       /\ TextLike.toLowerCase filename = base +:+ "." +:+ ext)
  /\ TextLike.isTextLike (TextLike.toLowerCase filename) = TextLike.isTextLike filename
  /\ (forall dir ext, ext ∈ TextLike.extensions ->
        TextLike.isTextLike (dir +:+ filename +:+ "." +:+ ext) = true).
Proof.
  assert (Hspec : forall f, TextLike.isTextLike f = true <->
            exists base ext, ext ∈ TextLike.extensions
              /\ TextLike.toLowerCase f = base +:+ "." +:+ ext).
  { intros f. unfold TextLike.isTextLike. rewrite existsb_exists. split.
    - intros (ext & Hin & Hends). apply ends_with_spec in Hends as [base Hb].
      exists base, ext. by rewrite list_elem_of_In.
    - intros (base & ext & Hin & Hb). exists ext. rewrite <- list_elem_of_In.
      split; [done|]. apply ends_with_spec. by exists base. }
  split; [apply Hspec|]. split.
  - unfold TextLike.isTextLike. by rewrite toLowerCase_idem.
  - intros dir ext Hext. apply Hspec.
    exists (TextLike.toLowerCase dir +:+ TextLike.toLowerCase filename), ext.
    split; [done|]. rewrite !toLowerCase_app.
    assert (Hlow : TextLike.toLowerCase ext = ext).
    { unfold TextLike.extensions in Hext.
      repeat (apply elem_of_cons in Hext as [->|Hext]; [reflexivity|]).
      by apply elem_of_nil in Hext. }
    rewrite Hlow. change (TextLike.toLowerCase ".") with ".".
    by rewrite !append_assoc.
Qed.

(** The names of the unit tests. *)
Example isTextLike_tests :
  forallb TextLike.isTextLike ["readme.txt"; "code.js"; "config.json"; "script.py"; "style.css"]
  = true
  /\ existsb TextLike.isTextLike ["image.png"; "video.mp4"; "archive.zip"; "binary.exe"] = false.
Proof. by vm_compute. Qed.

(** ** [readTextFile] *)

Lemma substring_prefix (c : string) : forall n,
  exists rest, c = substring 0 n c +:+ rest
               /\ String.length (substring 0 n c) = Nat.min n (String.length c).
Proof.
  induction c as [|a c IH]; intros n.
  - exists EmptyString. destruct n; simpl; split; done.
  - destruct n as [|n]; simpl; [by eexists|].
    destruct (IH n) as (rest & H1 & H2). exists rest.
    rewrite append_cons, <- H1, H2. done.
Qed.

(** X17. [readTextFile] decodes the beginning of the file, its first
    [min(size, maxChars)] bytes, and says whether it left something out:
    what it decodes is a prefix of the content, never longer than
    [maxChars], and [truncated] holds exactly when the file is longer
    than [maxChars]. A negative [maxChars] makes it throw a [RangeError]
    once the file is open; a file that cannot be opened makes it
    throw. *)
Theorem readTextFile_prefix (env : Env) (filePath : string) (maxChars : Z) :
  match fs_readFile env filePath with
  | None => Nlp.readTextFile env filePath maxChars = Throw FsError
  | Some content =>
      let size := Z.of_nat (String.length content) in
      (maxChars < 0 -> Nlp.readTextFile env filePath maxChars = Throw RangeError)
      /\ (0 <= maxChars ->
          exists head rest,
            content = head +:+ rest
            /\ Z.of_nat (String.length head) = Z.min size maxChars
            /\ (rest = EmptyString <-> size <= maxChars)
            /\ Nlp.readTextFile env filePath maxChars
               = Ok (buffer_toString env head, bool_decide (maxChars < size)))
  end.
Proof.
  unfold Nlp.readTextFile.
  destruct (fs_readFile env filePath) as [c|]; [|done].
  cbv zeta. set (size := Z.of_nat (String.length c)). split.
  { intros Hneg. replace (Z.min size maxChars <? 0) with true; [done|].
    symmetry. apply Z.ltb_lt. lia. }
  intros Hmax.
  replace (Z.min size maxChars <? 0) with false by (symmetry; apply Z.ltb_ge; lia).
  set (n := Z.to_nat (Z.min size maxChars)).
  destruct (substring_prefix c n) as (rest & Hc & Hlen).
  exists (substring 0 n c), rest.
  assert (Hl : String.length c = (String.length (substring 0 n c) + String.length rest)%nat).
  { rewrite Hc at 1. apply append_length. }
  rewrite Hlen in Hl.
  split; [exact Hc|]. split; [rewrite Hlen; unfold n, size; lia|]. split.
  - split.
    + intros ->. simpl in Hl. unfold n, size in *. lia.
    + intros Hle. destruct rest as [|a rest]; [done|]. simpl in Hl. unfold n, size in *. lia.
  - f_equal. f_equal. destruct (maxChars <? size) eqn:E.
    + apply Z.ltb_lt in E. by rewrite bool_decide_eq_true_2.
    + apply Z.ltb_ge in E. rewrite bool_decide_eq_false_2; [done|lia].
Qed.

End UtilsMore.

(* ===================================================================== *)
(** * The further theorems at the concrete world *)
(* ===================================================================== *)

Module MoreInstances.
Import Sqlite SemanticStore.

Lemma retrieve_blob_top_witness :
  exists cs,
    retrieveByEmbedding Instances.env_ok BlobScan [1%float] 2 (w_db Instances.w0) = Ok cs
    /\ length cs = 2%nat
    /\ StronglySorted (SortFacts.desc c_score) cs.
Proof.
  destruct (SqliteStoreProps.retrieve_blob_top Instances.env_ok [1%float] 2 (w_db Instances.w0))
    as (cs & Hcs & Hlen & _ & Hsorted & _).
  - lia.
  - vm_compute. repeat constructor.
  - exists cs. split; [exact Hcs|]. split; [|exact Hsorted].
    rewrite Hlen. vm_compute. reflexivity.
Defined.

(** A database file that was indexed earlier and is opened again. *)
Definition reopened : Store :=
  Sqlite.open (Demo.rows SqliteVec)
    (Some {| vt_dim := 1;
             vt_rows := [("a", [0.9%float]); ("b", [0.5%float]); ("c", [0.1%float])] |}).

(** C6. The sqlite-vec store, opened again on a database that holds
    three indexed files with their embeddings: an unforced [indexPath]
    skips [/docs/a.md], which has a record (it is reported as skipped and
    its row in [files] stays as it was), and indexes the new file
    [/docs/new.txt]. That [upsert] is the first of the store object, so
    [ensureVectorTable] drops [vec_files]: the embedding stored for the
    skipped file is gone, and of three embeddings only the new one is
    left, for four rows. *)
Lemma unforced_indexPath_drops_vectors :
  let w := {| w_db := reopened; w_log := []; w_uuids := 0 |} in
  let out := indexPath Instances.env_ok (Demo.config SqliteVec) IndexInstances.in_turn
               "/docs" IndexInstances.no_options w in
  snd out = Ok (["/docs/new.txt"], ["/docs/a.md"])
  /\ List.find (SqliteProps.has_path "/docs/a.md") (files (w_db (fst out)))
     = List.find (SqliteProps.has_path "/docs/a.md") (files reopened)
  /\ IndexProps.vectors_of "a" reopened = Some [[0.9%float]]
  /\ IndexProps.vectors_of "a" (w_db (fst out)) = Some []
  /\ SqliteStore.vectorCount reopened = 3%nat
  /\ SqliteStore.vectorCount (w_db (fst out)) = 1%nat
  /\ count (w_db (fst out)) = 4%nat.
Proof. vm_compute. repeat split. Qed.

Lemma first_upsert_rebuilds_vec_files_witness :
  let rec := Demo.record "d" "/docs/d.md" [0.5%float] in
  let s' := fst (upsert Instances.env_ok SqliteVec rec reopened) in
  SqliteStore.vectorCount reopened = 3%nat
  /\ SqliteStore.vectorCount s' = 1%nat
  /\ count s' = 4%nat.
Proof.
  intros rec s'.
  destruct (SqliteStoreProps.first_upsert_rebuilds_vec_files Instances.env_ok rec
              [0.5%float] reopened) as (_ & _ & Hvec & _ & Hfiles & _);
    try (vm_compute; reflexivity).
  - discriminate.
  - split; [vm_compute; reflexivity|]. split; [exact Hvec|].
    subst s'. unfold count. cbv zeta in Hfiles. rewrite Hfiles. vm_compute. reflexivity.
Defined.

Definition indexed : list FileRecord :=
  [ Demo.record "a" "/docs/a.md" [0.9%float];
    Demo.record "b" "/docs/b.md" [0.5%float];
    Demo.record "a" "/docs/a.md" [0.1%float] ].

Definition filled : Store :=
  default (Sqlite.open [] None)
          (SqliteStoreProps.upsert_all Instances.env_ok indexed (Sqlite.open [] None)).

Lemma vector_index_covers_files_witness :
  SqliteStore.vectorCount filled = count filled
  /\ SqliteStore.hasVectorIndex filled = true
  /\ SqliteStoreProps.covered filled.
Proof.
  apply (SqliteStoreProps.vector_index_covers_files Instances.env_ok indexed filled).
  - vm_compute. reflexivity.
  - discriminate.
Defined.

Lemma search_results_from_candidates_witness :
  let o := Demo.opts 5 0 0 in
  (length (Instances.found Instances.env_ok o) <= 5)%nat
  /\ forall res, res ∈ Instances.found Instances.env_ok o ->
       Js.ge (sr_score res) (SearchProps.minScore_of 0%float o) = true
       /\ exists c, c ∈ Instances.candidates Instances.env_ok 5
            /\ Js.ge (c_score c) (SearchProps.minSimilarity_of 0.1%float o) = true
            /\ sr_id res = fr_id (c_rec c)
            /\ sr_cosineSimilarity res = c_score c
            /\ sr_metadata res = fr_metadata (c_rec c)
            /\ sr_summary res = fr_summary (c_rec c).
Proof.
  apply (SearchMore.search_results_from_candidates Instances.env_ok Instances.cfg
           0.1%float 0%float "sample" (Demo.opts 5 0 0) Instances.w0
           (Instances.w1 Instances.env_ok) Instances.qvec
           (Instances.candidates Instances.env_ok 5)
           (fst (search Instances.env_ok Instances.cfg 0.1%float 0%float "sample"
                   (Demo.opts 5 0 0) Instances.w0)));
    vm_compute; first [reflexivity | discriminate].
Defined.

Lemma search_nan_threshold_witness :
  search Instances.env_ok Instances.cfg 0.1%float 0%float "sample"
    (Demo.opts 5 nan 0) Instances.w0
  = (Instances.w1 Instances.env_ok, Ok []).
Proof.
  destruct (SearchMore.search_nan_threshold Instances.env_ok Instances.cfg
              0.1%float 0%float "sample" (Demo.opts 5 nan 0) Instances.w0
              (Instances.w1 Instances.env_ok) Instances.qvec
              (Instances.candidates Instances.env_ok 5)) as [Hsim _].
  - vm_compute. reflexivity.
  - vm_compute. reflexivity.
  - apply Hsim. vm_compute. reflexivity.
Defined.

(** The provider answers with the empty text. *)
Definition env_silent : Env := Demo.env true EmptyString.

Lemma rerank_empty_answer_witness :
  let o := Demo.opts 5 0 0 in
  snd (search env_silent Instances.cfg 0.1%float 0%float "sample" o Instances.w0) = Ok []
  /\ length (SearchProps.kept 0.1%float o (Instances.candidates env_silent 5)) = 3%nat.
Proof.
  intros o. split; [|vm_compute; reflexivity].
  destruct (SearchMore.rerank_empty_answer env_silent Instances.cfg 0.1%float 0%float "sample"
              (map id_summary (SearchProps.kept 0.1%float o (Instances.candidates env_silent 5)))
              5 (Instances.w1 env_silent)
              {| chat_content := Some EmptyString; chat_usage := None |}) as [_ Hsearch].
  - reflexivity.
  - by right.
  - apply (Hsearch o Instances.w0 (Instances.w1 env_silent) Instances.qvec
             (Instances.candidates env_silent 5)); vm_compute; reflexivity.
Defined.

(** The provider is down: every request fails. *)
Definition env_down : Env :=
  {| fs_statSync := fs_statSync Instances.env_ok;
     fs_glob := fs_glob Instances.env_ok;
     fs_readFile := fs_readFile Instances.env_ok;
     buffer_toString := buffer_toString Instances.env_ok;
     path_resolve := path_resolve Instances.env_ok;
     path_basename := path_basename Instances.env_ok;
     mime_lookup := mime_lookup Instances.env_ok;
     uuidv4 := uuidv4 Instances.env_ok;
     chat_create := fun _ _ => None;
     embeddings_create := fun _ _ => None;
     JSON_parse := JSON_parse Instances.env_ok;
     vec0_insert_ok := vec0_insert_ok Instances.env_ok;
     vec0_knn := vec0_knn Instances.env_ok |}.

Lemma search_provider_failure_witness :
  snd (search env_down Instances.cfg 0.1%float 0%float "sample" None Instances.w0)
  = Throw ProviderError
  /\ w_db (fst (search env_down Instances.cfg 0.1%float 0%float "sample" None Instances.w0))
     = w_db Instances.w0.
Proof.
  destruct (SearchMore.search_provider_failure env_down Instances.cfg 0.1%float 0%float
              "sample" None Instances.w0) as [Hemb _].
  rewrite Hemb by reflexivity. split; reflexivity.
Defined.

Lemma search_without_vector_table_witness :
  snd (search Instances.env_ok (Demo.config SqliteVec) 0.1%float 0%float "sample" None
         (Demo.world SqliteVec))
  = Throw SqliteError.
Proof.
  destruct (SearchMore.search_without_vector_table Instances.env_ok (Demo.config SqliteVec)
              0.1%float 0%float "sample" None (Demo.world SqliteVec)
              (fst (Nlp.embedText Instances.env_ok Demo.azure "sample" "sample"
                      (Demo.world SqliteVec)))
              Instances.qvec) as [Hsearch _].
  - reflexivity.
  - reflexivity.
  - vm_compute. reflexivity.
  - rewrite Hsearch. reflexivity.
Defined.

Lemma chunks_partition_witness :
  chunks 2 ["a"; "b"; "c"] = [["a"; "b"]; ["c"]]
  /\ concat (chunks 2 ["a"; "b"; "c"]) = ["a"; "b"; "c"].
Proof.
  split; [vm_compute; reflexivity|].
  apply (IndexMore.chunks_partition 2 ["a"; "b"; "c"]). lia.
Defined.



Lemma indexFile_failure_writes_nothing_witness :
  snd (indexFile Instances.env_ok Instances.cfg "/missing" Instances.w0) = Throw FsError
  /\ w_db (fst (indexFile Instances.env_ok Instances.cfg "/missing" Instances.w0))
     = w_db Instances.w0.
Proof.
  split; [vm_compute; reflexivity|].
  apply (IndexMore.indexFile_failure_writes_nothing Instances.env_ok Instances.cfg
           "/missing" Instances.w0 FsError); [vm_compute; reflexivity|discriminate].
Defined.

Definition reindexed : World * Result (TokenUsage * TokenUsage) :=
  indexFile Instances.env_ok Instances.cfg "/docs/a.md" Instances.w0.

Lemma indexFile_stores_record_witness :
  exists rec,
    getByPath BlobScan "/docs/a.md" (w_db (fst reindexed)) = Ok (Some rec)
    /\ fr_id rec = "a"
    /\ fm_createdAt (fr_metadata rec) = Some "2024-01-01T00:00:00.000Z"
    /\ fr_summary rec = "RANKING"
    /\ count (w_db (fst reindexed)) = 3%nat.
Proof.
  destruct (IndexMore.indexFile_stores_record Instances.env_ok Instances.cfg "/docs/a.md"
              Instances.w0 (fst reindexed) (Nlp.zero_usage, Nlp.zero_usage))
    as (st & text & truncated & resp & rec & old & Hst & Hread & Hchat & Hold & Hnew & Hcount
        & Hid & _ & _ & _ & _ & _ & Hcreated & Hsummary).
  - apply (IndexInstances.world_ok_demo BlobScan).
  - apply (IndexInstances.world_ok_demo BlobScan).
  - vm_compute. reflexivity.
  - exists rec. split; [exact Hnew|].
    assert (old = Some (IndexInstances.stored "/docs/a.md")) as ->.
    { vm_compute in Hold. inversion Hold. vm_compute. reflexivity. }
    assert (st = Demo.file_stat) as -> by (vm_compute in Hst; by inversion Hst).
    assert (resp = {| chat_content := Some "RANKING"; chat_usage := None |}) as ->
      by (cbn in Hchat; by inversion Hchat).
    split; [rewrite Hid; vm_compute; reflexivity|].
    split; [rewrite Hcreated; vm_compute; reflexivity|].
    split; [rewrite Hsummary; vm_compute; reflexivity|].
    rewrite Hcount. vm_compute. reflexivity.
Defined.

Lemma readTextFile_prefix_witness :
  Nlp.readTextFile Instances.env_ok "/docs/a.md" (-1) = Throw RangeError
  /\ exists head rest,
       fs_readFile Instances.env_ok "/docs/a.md" = Some (head +:+ rest)
       /\ String.length head = 10%nat
       /\ Nlp.readTextFile Instances.env_ok "/docs/a.md" 10 = Ok (head, true).
Proof.
  split.
  - pose proof (UtilsMore.readTextFile_prefix Instances.env_ok "/docs/a.md" (-1)) as H.
    cbn [fs_readFile Instances.env_ok Demo.env] in H. apply H. lia.
  - pose proof (UtilsMore.readTextFile_prefix Instances.env_ok "/docs/a.md" 10) as H.
    cbn [fs_readFile Instances.env_ok Demo.env] in H.
    destruct H as [_ H]. destruct (H ltac:(lia)) as (head & rest & Hc & Hlen & _ & Hread).
    exists head, rest. split; [by rewrite <- Hc|]. split.
    + apply Nat2Z.inj. rewrite Hlen. vm_compute. reflexivity.
    + rewrite Hread. reflexivity.
Defined.

End MoreInstances.

(* ===================================================================== *)
(** * JavaScript strings *)
(* ===================================================================== *)

Module JsString.

(** A string is the sequence of its UTF-16 code units. *)
Definition t := list N.

(** A literal of the source that holds ASCII characters only. *)
Definition lit (s : string) : t := map N_of_ascii (list_ascii_of_string s).

Definition LF : N := 10.
Definition HASH : N := 35.
Definition EQUALS : N := 61.

(** The code units [trim] strips: WhiteSpace and LineTerminator of
    ECMAScript. *)
Definition is_white (c : N) : bool :=
  ((9 <=? c) && (c <=? 13) || (c =? 32) || (c =? 160) || (c =? 5760)
   || (8192 <=? c) && (c <=? 8202) || (c =? 8232) || (c =? 8233) || (c =? 8239)
   || (c =? 8287) || (c =? 12288) || (c =? 65279))%N.

Fixpoint trimStart (s : t) : t :=
  match s with
  | c :: s' => if is_white c then trimStart s' else s
  | [] => []
  end.

Definition trimEnd (s : t) : t := rev (trimStart (rev s)).

(** [String.prototype.trim] *)
Definition trim (s : t) : t := trimStart (trimEnd s).

(** [s.split(sep)] for a separator of one code unit. *)
Fixpoint split (sep : N) (s : t) : list t :=
  match s with
  | [] => [[]]
  | c :: s' =>
      if (c =? sep)%N then [] :: split sep s'
      else match split sep s' with
           | piece :: pieces => (c :: piece) :: pieces
           | [] => [[c]]
           end
  end.

(** [parts.join(sep)] *)
Fixpoint join (sep : N) (parts : list t) : t :=
  match parts with
  | [] => []
  | [s] => s
  | s :: parts' => s ++ sep :: join sep parts'
  end.

(** [s.startsWith(c)] for one code unit. *)
Definition startsWith (c : N) (s : t) : bool :=
  match s with
  | c' :: _ => (c' =? c)%N
  | [] => false
  end.

(** ToBoolean on a string. *)
Definition truthy (s : t) : bool :=
  match s with
  | [] => false
  | _ => true
  end.

End JsString.

(* ===================================================================== *)
(** * config-manager.ts: the [.env] file *)
(* ===================================================================== *)

Module ConfigManager.
Import JsString.

(** [env[key] = value] on an object created by [{}]: the own properties
    of the object are a map; [__proto__] is the accessor of
    [Object.prototype], which ignores a string. *)
Definition assign (key value : t) (env : gmap t t) : gmap t t :=
  if decide (key = lit "__proto__") then env else <[key := value]> env.

(** The body of [content.split('\n').forEach(line => ...)]. *)
Definition loadEnv_line (env : gmap t t) (line : t) : gmap t t :=
  let trimmed := trim line in
  if truthy trimmed && negb (startsWith HASH trimmed) then
    match split EQUALS trimmed with
    | key :: valueParts =>
        if truthy key && (0 <? length valueParts)%nat
        then assign (trim key) (trim (join EQUALS valueParts)) env
        else env
    | [] => env
    end
  else env.

(** [loadEnv()]; [envFile] is the content of the file, [None] when it
    does not exist. *)
Definition loadEnv (envFile : option t) : gmap t t :=
  match envFile with
  | None => ∅
  | Some content => foldl loadEnv_line ∅ (split LF content)
  end.

End ConfigManager.

(* ===================================================================== *)
(** * init-wizard.ts: writing the [.env] file *)
(* ===================================================================== *)

Module InitWizard.
Import JsString.

(** [Partial<InitConfig>], the fields [generateEnvContent] reads. *)
Record InitConfig := {
  azureEndpoint : option t;
  apiKey : option t;
  useAAD : option bool;
  embeddingDeployment : option t;
  rerankDeployment : option t;
  defaultDatabase : option t
}.

(** A string field in a template literal. *)
Definition show (field : option t) : t := default (lit "undefined") field.

(** [this.config.apiKey && !this.config.useAAD] *)
Definition writes_key (c : InitConfig) : bool :=
  match apiKey c with
  | Some k => truthy k && negb (default false (useAAD c))
  | None => false
  end.

(** [generateEnvContent()]; [configPath] is
    [this.configManager.getConfigPath()]. *)
Definition generateEnvContent (c : InitConfig) (configPath : t) : t :=
  let content := lit "# Semantic Search Configuration" ++ [LF] in
  let content := content ++ lit "# Generated by init wizard" ++ [LF; LF] in
  let content := content ++ lit "AZURE_OPENAI_ENDPOINT=" ++ show (azureEndpoint c) ++ [LF] in
  let content :=
    if writes_key c
    then content ++ lit "AZURE_OPENAI_API_KEY=" ++ show (apiKey c) ++ [LF]
    else content in
  let content := content ++ lit "AZURE_OPENAI_EMBED_DEPLOYMENT="
                         ++ show (embeddingDeployment c) ++ [LF] in
  let content := content ++ lit "AZURE_OPENAI_RERANK_DEPLOYMENT="
                         ++ show (rerankDeployment c) ++ [LF] in
  let content := content ++ lit "SEMSEARCH_DEFAULT_DB=" ++ show (defaultDatabase c) ++ [LF] in
  let content := content ++ lit "SEMSEARCH_CONFIG_DIR=" ++ configPath ++ [LF] in
  content.

End InitWizard.

(* ===================================================================== *)
(** * mcp-server.ts: reading requests from stdin *)
(* ===================================================================== *)

Module McpServer.
Import JsString.

(** The handler of [process.stdin.on('data', ...)]: [buffer] is the
    variable of that name; the handler returns its new value and the
    texts it hands to [JSON.parse], in order. *)
Definition on_data (buffer chunk : t) : t * list t :=
  let buffer := buffer ++ chunk in
  let lines := split LF buffer in
  let buffer := List.last lines [] in       (* lines.pop() || '' *)
  let lines := removelast lines in
  (buffer, List.filter truthy (map trim lines)).

(** The handler on the chunks of a stream, the buffer being empty at the
    start: the last buffer and all the texts handed to [JSON.parse]. *)
Definition feed (chunks : list t) : t * list t :=
  foldl (fun st chunk =>
           let '(buffer, parsed) := on_data (fst st) chunk in
           (buffer, snd st ++ parsed))
        ([], []) chunks.

End McpServer.

(* ===================================================================== *)
(** * Properties of the [.env] file and of the request reader *)
(* ===================================================================== *)

Module ConfigProps.
Import JsString ConfigManager InitWizard McpServer.

Lemma split_nonempty sep s : split sep s <> [].
Proof.
  destruct s as [|c s]; simpl; [done|].
  destruct (c =? sep)%N; [done|]. by destruct (split sep s).
Qed.

Lemma split_no_sep sep s : sep ∉ s -> split sep s = [s].
Proof.
  induction s as [|c s IH]; intros Hs; simpl; [done|].
  apply not_elem_of_cons in Hs as [Hc Hs].
  destruct (N.eqb_spec c sep) as [->|_]; [done|]. by rewrite IH.
Qed.

Lemma split_cons_sep sep a rest :
  sep ∉ a -> split sep (a ++ sep :: rest) = a :: split sep rest.
Proof.
  induction a as [|c a IH]; intros Ha; simpl.
  - by rewrite N.eqb_refl.
  - apply not_elem_of_cons in Ha as [Hc Ha].
    destruct (N.eqb_spec c sep) as [->|_]; [done|]. by rewrite IH.
Qed.

Lemma join_split sep s : join sep (split sep s) = s.
Proof.
  induction s as [|c s IH]; simpl; [done|].
  pose proof (split_nonempty sep s) as Hne.
  destruct (N.eqb_spec c sep) as [->|_].
  - destruct (split sep s) as [|p ps]; [done|]. simpl in *. by rewrite IH.
  - destruct (split sep s) as [|p [|q ps]]; [done| |]; simpl in *; by rewrite <- IH.
Qed.

(** [split] on a text that arrives in two parts. *)
Lemma split_app sep a b :
  split sep (a ++ b)
  = removelast (split sep a) ++ split sep (List.last (split sep a) [] ++ b).
Proof.
  induction a as [|c a IH]; [done|]. cbn [app split].
  pose proof (split_nonempty sep a) as Hne.
  destruct (N.eqb_spec c sep) as [->|Hc].
  - rewrite IH. destruct (split sep a) as [|p ps]; [done|]. reflexivity.
  - rewrite IH. destruct (split sep a) as [|p [|q ps]]; [done| |].
    + cbn. destruct (N.eqb_spec c sep); [done|]. reflexivity.
    + reflexivity.
Qed.

Lemma trimStart_app x c y :
  is_white c = false -> trimStart (x ++ c :: y) = trimStart x ++ c :: y.
Proof.
  intros Hc. induction x as [|d x IH]; simpl; [by rewrite Hc|].
  by destruct (is_white d).
Qed.

Lemma trimEnd_app a c b :
  is_white c = false -> trimEnd (a ++ c :: b) = a ++ c :: trimEnd b.
Proof.
  intros Hc. unfold trimEnd. rewrite rev_app_distr. cbn [rev].
  rewrite <- app_assoc. cbn [app]. rewrite (trimStart_app _ _ _ Hc).
  rewrite rev_app_distr. cbn [rev]. rewrite rev_involutive.
  by rewrite <- app_assoc.
Qed.

Lemma trimStart_idem s : trimStart (trimStart s) = trimStart s.
Proof.
  induction s as [|c s IH]; simpl; [done|].
  destruct (is_white c) eqn:E; [done|]. simpl. by rewrite E.
Qed.

Lemma trimEnd_idem s : trimEnd (trimEnd s) = trimEnd s.
Proof. unfold trimEnd. by rewrite rev_involutive, trimStart_idem. Qed.

(** ** [loadEnv] *)

(** A name that [loadEnv] reads as it stands: not empty, no [=] in it,
    no white space at either end, not a comment, not [__proto__]. *)
Definition plain (key : t) : bool :=
  match key with
  | c :: _ => negb (is_white c) && negb (c =? HASH)%N
  | [] => false
  end
  && forallb (fun c => negb (c =? EQUALS)%N) key
  && bool_decide (trim key = key)
  && negb (bool_decide (key = lit "__proto__")).

Lemma loadEnv_line_blank env : loadEnv_line env [] = env.
Proof. reflexivity. Qed.

Lemma loadEnv_line_comment env s : loadEnv_line env (HASH :: s) = env.
Proof.
  unfold loadEnv_line. unfold trim.
  change (HASH :: s) with ([] ++ HASH :: s).
  rewrite (trimEnd_app [] HASH s) by reflexivity. reflexivity.
Qed.

(** A line [key=value] sets [key] to the value without the white space
    around it; the value may hold [=]. *)
Lemma loadEnv_line_assign env key value :
  plain key = true ->
  loadEnv_line env (key ++ EQUALS :: value) = <[key := trim value]> env.
Proof.
  unfold plain. rewrite !andb_true_iff, negb_true_iff.
  intros [[[Hhead Hnoeq] Htrim] Hproto].
  apply bool_decide_eq_true in Htrim. apply bool_decide_eq_false in Hproto.
  destruct key as [|c key]; [done|].
  apply andb_true_iff in Hhead as [Hc Hhash]. rewrite negb_true_iff in Hc, Hhash.
  unfold loadEnv_line.
  assert (Ht : trim ((c :: key) ++ EQUALS :: value) = (c :: key) ++ EQUALS :: trimEnd value).
  { unfold trim. rewrite trimEnd_app by reflexivity. cbn [app trimStart]. by rewrite Hc. }
  rewrite Ht. cbn [app truthy startsWith]. rewrite Hhash. cbn [negb andb].
  change (c :: key ++ EQUALS :: trimEnd value) with ((c :: key) ++ EQUALS :: trimEnd value).
  rewrite split_cons_sep.
  2: { intros Hin. apply forallb_forall with (x := EQUALS) in Hnoeq; [done|].
       by apply list_elem_of_In. }
  pose proof (split_nonempty EQUALS (trimEnd value)) as Hne.
  destruct (split EQUALS (trimEnd value)) as [|p ps] eqn:E; [done|].
  cbn [truthy length andb Nat.ltb Nat.leb]. rewrite <- E, join_split, Htrim.
  unfold trim at 1. rewrite trimEnd_idem. fold (trim value).
  unfold assign. by rewrite decide_False.
Qed.

(** The lines of a text, each of them followed by a line feed. *)
Definition unlines (lines : list t) : t := concat (map (fun l => l ++ [LF]) lines).

Lemma split_unlines lines :
  Forall (fun l => LF ∉ l) lines -> split LF (unlines lines) = lines ++ [[]].
Proof.
  induction 1 as [|l lines Hl _ IH]; [done|]. unfold unlines in *. cbn [map concat].
  rewrite <- app_assoc. cbn [app]. rewrite split_cons_sep by done. by rewrite IH.
Qed.

Lemma not_in_app (c : N) (a b : t) : c ∉ a -> c ∉ b -> c ∉ a ++ b.
Proof. intros Ha Hb. rewrite elem_of_app. tauto. Qed.

Lemma lit_no_LF (s : string) :
  forallb (fun c => negb (c =? LF)%N) (lit s) = true -> LF ∉ lit s.
Proof.
  intros H Hin. apply forallb_forall with (x := LF) in H; [done|]. by apply list_elem_of_In.
Qed.

Ltac name_line :=
  apply not_in_app; [by apply lit_no_LF|]; apply not_elem_of_cons; split; [done|assumption].

(** X18. [loadEnv] reads back the file [generateEnvContent] writes: when
    no value holds a line feed, the result has exactly the names of the
    file, each with its value without the white space around it; a value
    may hold [=] (as a key in base 64 does). The key is there exactly
    when the wizard wrote it. *)
Theorem loadEnv_generateEnvContent (c : InitConfig) (configPath : t) :
  LF ∉ show (azureEndpoint c) -> LF ∉ show (apiKey c) ->
  LF ∉ show (embeddingDeployment c) -> LF ∉ show (rerankDeployment c) ->
  LF ∉ show (defaultDatabase c) -> LF ∉ configPath ->
  loadEnv (Some (generateEnvContent c configPath))
  = <[lit "SEMSEARCH_CONFIG_DIR" := trim configPath]>
      (<[lit "SEMSEARCH_DEFAULT_DB" := trim (show (defaultDatabase c))]>
         (<[lit "AZURE_OPENAI_RERANK_DEPLOYMENT" := trim (show (rerankDeployment c))]>
            (<[lit "AZURE_OPENAI_EMBED_DEPLOYMENT" := trim (show (embeddingDeployment c))]>
               ((if writes_key c
                 then <[lit "AZURE_OPENAI_API_KEY" := trim (show (apiKey c))]>
                 else fun env => env)
                  (<[lit "AZURE_OPENAI_ENDPOINT" := trim (show (azureEndpoint c))]> ∅))))).
Proof.
  intros Hend Hkey Hemb Hrer Hdb Hpath.
  set (key_lines := if writes_key c
                    then [lit "AZURE_OPENAI_API_KEY" ++ EQUALS :: show (apiKey c)] else []).
  assert (Hcontent : generateEnvContent c configPath
    = unlines ([HASH :: lit " Semantic Search Configuration";
                HASH :: lit " Generated by init wizard";
                [];
                lit "AZURE_OPENAI_ENDPOINT" ++ EQUALS :: show (azureEndpoint c)]
               ++ key_lines
               ++ [lit "AZURE_OPENAI_EMBED_DEPLOYMENT" ++ EQUALS :: show (embeddingDeployment c);
                   lit "AZURE_OPENAI_RERANK_DEPLOYMENT" ++ EQUALS :: show (rerankDeployment c);
                   lit "SEMSEARCH_DEFAULT_DB" ++ EQUALS :: show (defaultDatabase c);
                   lit "SEMSEARCH_CONFIG_DIR" ++ EQUALS :: configPath])).
  { unfold generateEnvContent, unlines, key_lines.
    destruct (writes_key c); cbn [map concat app]; rewrite <- ?app_assoc; reflexivity. }
  unfold loadEnv. rewrite Hcontent, split_unlines.
  2: { apply Forall_app. split; [|apply Forall_app; split].
       - repeat constructor; try (by apply (lit_no_LF "# Semantic Search Configuration"));
           try (by apply (lit_no_LF "# Generated by init wizard")); try apply not_elem_of_nil.
         name_line.
       - unfold key_lines. destruct (writes_key c); repeat constructor. name_line.
       - repeat constructor; name_line. }
  rewrite !foldl_app. cbn [foldl].
  rewrite !loadEnv_line_comment, !loadEnv_line_blank.
  rewrite !loadEnv_line_assign by reflexivity.
  unfold key_lines. destruct (writes_key c); cbn [foldl]; [|reflexivity].
  by rewrite loadEnv_line_assign by reflexivity.
Qed.

(** ** The request reader *)

Lemma last_app_nonempty {A} (l l' : list A) d :
  l' <> [] -> List.last (l ++ l') d = List.last l' d.
Proof.
  intros Hne. induction l as [|x l IH]; [done|]. cbn [app].
  destruct (l ++ l') eqn:E; [|by rewrite <- IH].
  apply app_eq_nil in E as [_ ->]. done.
Qed.

Lemma split_pieces sep s : Forall (fun piece => sep ∉ piece) (split sep s).
Proof.
  induction s as [|c s IH]; simpl; [repeat constructor; apply not_elem_of_nil|].
  destruct (N.eqb_spec c sep) as [->|Hc].
  - constructor; [apply not_elem_of_nil|done].
  - pose proof (split_nonempty sep s) as Hne.
    destruct (split sep s) as [|p ps]; [done|].
    apply Forall_cons in IH as [Hp Hps]. constructor; [|done].
    apply not_elem_of_cons. done.
Qed.

Lemma last_elem {A} (l : list A) d : l <> [] -> List.last l d ∈ l.
Proof.
  induction l as [|x [|y l] IH]; intros Hne; [done|left|].
  right. by apply IH.
Qed.

Lemma on_data_buffer buffer chunk : LF ∉ fst (on_data buffer chunk).
Proof.
  unfold on_data. cbn [fst].
  pose proof (split_pieces LF (buffer ++ chunk)) as Hall.
  rewrite Forall_forall in Hall. apply Hall, last_elem, split_nonempty.
Qed.

Lemma on_data_app buffer chunk rest :
  on_data buffer (chunk ++ rest)
  = (fst (on_data (fst (on_data buffer chunk)) rest),
     snd (on_data buffer chunk) ++ snd (on_data (fst (on_data buffer chunk)) rest)).
Proof.
  unfold on_data. cbn [fst snd]. rewrite app_assoc, split_app.
  set (lines := split LF (buffer ++ chunk)).
  set (more := split LF (List.last lines [] ++ rest)).
  assert (Hmore : more <> []) by apply split_nonempty.
  rewrite last_app_nonempty by done. rewrite removelast_app by done.
  by rewrite map_app, List.filter_app.
Qed.

Lemma feed_from chunks : forall buffer parsed,
  LF ∉ buffer ->
  foldl (fun st chunk =>
           let '(buffer, parsed) := on_data (fst st) chunk in
           (buffer, snd st ++ parsed))
        (buffer, parsed) chunks
  = (fst (on_data buffer (concat chunks)), parsed ++ snd (on_data buffer (concat chunks))).
Proof.
  induction chunks as [|chunk chunks IH]; intros buffer parsed Hbuf.
  - cbn [foldl concat]. unfold on_data. rewrite app_nil_r, split_no_sep by done.
    cbn. by rewrite app_nil_r.
  - cbn [foldl concat fst snd]. rewrite on_data_app.
    destruct (on_data buffer chunk) as [b1 p1] eqn:E. cbn [fst snd].
    rewrite IH; [by rewrite app_assoc|].
    pose proof (on_data_buffer buffer chunk) as Hb. by rewrite E in Hb.
Qed.

Lemma join_lines init final : join LF (init ++ [final]) = unlines init ++ final.
Proof.
  induction init as [|l init IH]; [done|].
  assert (Hcons : join LF ((l :: init) ++ [final]) = l ++ LF :: join LF (init ++ [final])).
  { cbn [app]. by destruct init. }
  rewrite Hcons, IH. unfold unlines. cbn [map concat]. by rewrite <- !app_assoc.
Qed.

(** X19. How stdin is cut into chunks does not matter to the request
    reader: after any chunks, the texts it has handed to [JSON.parse] and
    the buffer it keeps are those of the whole input arriving at once.
    The texts are the lines that a line feed has ended, in order,
    without the white space around them, the blank ones left out; what
    follows the last line feed waits in the buffer. *)
Theorem stdin_chunks (chunks : list t) :
  let input := concat chunks in
  feed chunks = on_data [] input
  /\ (LF ∉ fst (feed chunks))
  /\ (exists complete, input = unlines complete ++ fst (feed chunks)
        /\ Forall (fun l => LF ∉ l) complete
        /\ snd (feed chunks) = List.filter truthy (map trim complete)).
Proof.
  intros input. assert (Hfeed : feed chunks = on_data [] input).
  { unfold feed. rewrite feed_from by apply not_elem_of_nil.
    cbn [app]. symmetry. apply surjective_pairing. }
  split; [exact Hfeed|]. rewrite Hfeed. split; [apply on_data_buffer|].
  unfold on_data. cbn [app fst snd].
  exists (removelast (split LF input)).
  pose proof (split_pieces LF input) as Hpieces.
  pose proof (split_nonempty LF input) as Hne.
  pose proof (join_split LF input) as Hjoin.
  destruct (@exists_last _ (split LF input) Hne) as (init & final & Hsplit).
  rewrite Hsplit in *. rewrite removelast_last, last_last.
  apply Forall_app in Hpieces as [Hinit _].
  split; [|done]. by rewrite <- Hjoin, join_lines.
Qed.

End ConfigProps.

(* ===================================================================== *)
(** * store.ts: listing the records; mock-store.ts *)
(* ===================================================================== *)

Module Listing.
Import Sqlite.

(** [listFiles(limit)] of [SemanticStore]:
    [limit ? allFiles.slice(0, limit) : allFiles], for an integer
    [limit]. *)
Definition listFiles (b : Backend) (limit : option Z) (s : Store) : Result (list FileRecord) :=
  match SqliteStore.listAll b s with
  | Throw e => Throw e
  | Ok allFiles =>
      Ok (match limit with
          | Some l => if l =? 0 then allFiles else Js.slice0 allFiles l
          | None => allFiles
          end)
  end.

End Listing.

Module MockStore.

(** The field [records]: the entries of the [Map], in insertion order. *)
Definition Records := list (string * FileRecord).

(** [Map.prototype.set]: the value of a key that is there is replaced
    where it stands, a new key goes last. *)
Definition map_set (k : string) (v : FileRecord) (m : Records) : Records :=
  if existsb (fun e => bool_decide (fst e = k)) m
  then map (fun e => if decide (fst e = k) then (k, v) else e) m
  else m ++ [(k, v)].

(** [upsert(record)] *)
Definition upsert (record : FileRecord) (m : Records) : Records :=
  map_set (fr_id record) record m.

(** [getById(id)] *)
Definition getById (id : string) (m : Records) : option FileRecord :=
  snd <$> List.find (fun e => bool_decide (fst e = id)) m.

(** [listAll()] *)
Definition listAll (m : Records) : list FileRecord := map snd m.

(** [clear()] *)
Definition clear (m : Records) : Records := [].

End MockStore.

Module ListingProps.
Import Sqlite SqliteProps SqliteStore Listing.

Lemma rowToRecord_total b r : exists rec, rowToRecord b r = Ok rec /\ fr_id rec = row_id r.
Proof.
  unfold rowToRecord. destruct b; [|by eexists].
  rewrite SqliteStoreProps.fromFloat32Blob_whole. by eexists.
Qed.

Lemma rowsToRecords_spec b rows :
  exists recs, rowsToRecords b rows = Ok recs
    /\ Forall2 (fun r rec => rowToRecord b r = Ok rec) rows recs.
Proof.
  induction rows as [|r rows (recs & Hrecs & Hall)]; [by exists []|].
  destruct (rowToRecord_total b r) as (rec & Hrec & _).
  exists (rec :: recs). cbn [rowsToRecords]. rewrite Hrec, Hrecs. split; [done|by constructor].
Qed.

Lemma find_unique (rows : list Row) r :
  NoDup (map row_id rows) -> r ∈ rows -> List.find (has_id (row_id r)) rows = Some r.
Proof.
  induction rows as [|x rows IH]; intros Hnd Hin; [by apply elem_of_nil in Hin|].
  cbn [map] in Hnd. apply NoDup_cons in Hnd as [Hx Hnd]. cbn [List.find]. unfold has_id at 1.
  apply elem_of_cons in Hin as [->|Hin]; [by rewrite bool_decide_eq_true_2|].
  rewrite bool_decide_eq_false_2; [by apply IH|].
  intros Heq. apply Hx. rewrite Heq. by apply list_elem_of_fmap_2.
Qed.

(** X20. [listAll] returns one record for every row, in the order of the
    rows, and it is the record [getById] returns for its id; so it
    returns [count()] records. [listFiles] without a limit, or with the
    limit [0], returns all of them; with a positive limit it returns the
    first [limit] records, all of them when there are fewer. *)
Theorem listAll_getById b s :
  NoDup (map row_id (files s)) ->
  exists allFiles,
    listAll b s = Ok allFiles
    /\ map fr_id allFiles = map row_id (files s)
    /\ length allFiles = count s
    /\ (forall rec, rec ∈ allFiles -> getById b (fr_id rec) s = Ok (Some rec))
    /\ listFiles b None s = Ok allFiles
    /\ listFiles b (Some 0) s = Ok allFiles
    /\ (forall limit, 0 < limit ->
          listFiles b (Some limit) s = Ok (take (Z.to_nat limit) allFiles)
          /\ length (take (Z.to_nat limit) allFiles) = Nat.min (Z.to_nat limit) (count s)).
Proof.
  intros Hnd. unfold listFiles, listAll, count.
  destruct (rowsToRecords_spec b (files s)) as (recs & Hrecs & Hall).
  exists recs. rewrite Hrecs.
  assert (Hlen : length recs = length (files s)) by (symmetry; by eapply Forall2_length).
  split; [done|]. split; [|split; [done|split; [|split; [done|split; [done|]]]]].
  - clear Hrecs Hnd Hlen. induction Hall as [|r rec rows recs Hr _ IH]; [done|].
    cbn [map]. rewrite IH. f_equal. by apply IndexProps.rowToRecord_id in Hr.
  - intros rec Hin.
    apply list_elem_of_lookup in Hin as [i Hi].
    destruct (Forall2_lookup_r _ _ _ _ _ Hall Hi) as (r & Hr & Hrec).
    unfold getById, select_one. fold (has_id (fr_id rec)).
    rewrite (IndexProps.rowToRecord_id _ _ _ Hrec).
    rewrite (find_unique (files s) r Hnd) by (by eapply list_elem_of_lookup_2).
    by rewrite Hrec.
  - intros limit Hlimit. unfold Js.slice0.
    replace (limit =? 0) with false by (symmetry; apply Z.eqb_neq; lia).
    replace (limit <? 0) with false by (symmetry; apply Z.ltb_ge; lia).
    split; [done|]. by rewrite length_take, Hlen.
Qed.

(** ** The mock store beside the BLOB store *)

Section WithEnv.
Context (env : Env).

(** The two stores after the same calls of [upsert]. *)
Definition mock_after (recs : list FileRecord) : MockStore.Records :=
  foldl (fun m rec => MockStore.upsert rec m) [] recs.

Definition blob_after (recs : list FileRecord) : Store :=
  foldl (fun s rec => fst (upsert env BlobScan rec s)) (Sqlite.open [] None) recs.

Definition row_of_entry (e : string * FileRecord) : Row := row_of_record env BlobScan (snd e).

Lemma after_rows (recs : list FileRecord) :
  Forall (fun e => fst e = fr_id (snd e)) (mock_after recs)
  /\ files (blob_after recs) = map row_of_entry (mock_after recs).
Proof.
  unfold mock_after, blob_after.
  induction recs as [|rec recs IH] using rev_ind; [by split|].
  rewrite !foldl_app. cbn [foldl].
  destruct IH as [Hkeys Hfiles].
  set (m := foldl (fun m rec => MockStore.upsert rec m) [] recs) in *.
  set (s := foldl (fun s rec => fst (upsert env BlobScan rec s)) (Sqlite.open [] None) recs) in *.
  unfold upsert, upsert_blob, set_files. cbn [fst files].
  unfold MockStore.upsert, MockStore.map_set, upsert_row. rewrite Hfiles.
  assert (Hex : existsb (fun x => bool_decide (row_id x = row_id (row_of_record env BlobScan rec)))
                  (map row_of_entry m)
                = existsb (fun e => bool_decide (fst e = fr_id rec)) m).
  { clear Hfiles. induction Hkeys as [|e m He _ IH]; [done|].
    cbn [map existsb]. rewrite IH. f_equal. unfold row_of_entry. cbn [row_of_record row_id].
    by rewrite He. }
  rewrite Hex. destruct (existsb _ m).
  - split.
    + clear Hfiles Hex. induction Hkeys as [|e m He _ IH]; [done|]. cbn [map].
      constructor; [|done]. by destruct (decide (fst e = fr_id rec)).
    + clear Hfiles Hex. induction Hkeys as [|e m He _ IH]; [done|]. cbn [map].
      rewrite IH. f_equal.
      assert (Hid : row_id (row_of_entry e) = fst e) by (by rewrite He).
      change (row_id (row_of_record env BlobScan rec)) with (fr_id rec).
      destruct (decide (row_id (row_of_entry e) = _)) as [H1|H1];
        destruct (decide (fst e = fr_id rec)) as [H2|H2]; try done; congruence.
  - split; [apply Forall_app; split; [done|by repeat constructor]|].
    by rewrite map_app.
Qed.

Lemma find_entry (m : MockStore.Records) id :
  Forall (fun e => fst e = fr_id (snd e)) m ->
  List.find (has_id id) (map row_of_entry m)
  = row_of_entry <$> List.find (fun e => bool_decide (fst e = id)) m.
Proof.
  induction 1 as [|e m He _ IH]; [done|]. cbn [map List.find]. unfold has_id at 1.
  assert (Hid : row_id (row_of_entry e) = fst e) by (by rewrite He).
  rewrite IH. destruct (decide (fst e = id)) as [Heq|Hne].
  - rewrite !bool_decide_eq_true_2; [done..|congruence].
  - rewrite !bool_decide_eq_false_2; [done..|congruence].
Qed.

(** X21. The mock store stands in for the BLOB store: after the same
    calls of [upsert] on empty stores, both hold the same number of
    records with the same ids in the same order, and for every id the
    BLOB store returns the record the mock store returns, as its columns
    hold it (the embedding rounded to single precision). *)
Theorem mock_store_matches (recs : list FileRecord) :
  let m := mock_after recs in
  let s := blob_after recs in
  count s = length (MockStore.listAll m)
  /\ listAll BlobScan s = Ok (map (SqliteStoreProps.stored_view env) (MockStore.listAll m))
  /\ (forall id, getById BlobScan id s
                 = Ok (SqliteStoreProps.stored_view env <$> MockStore.getById id m))
  /\ (forall rec, rec ∈ recs -> is_Some (MockStore.getById (fr_id rec) m)).
Proof.
  intros m s. destruct (after_rows recs) as [Hkeys Hfiles]. fold m s in Hkeys, Hfiles.
  split; [|split; [|split]].
  - unfold count, MockStore.listAll. by rewrite Hfiles, !length_map.
  - unfold listAll, MockStore.listAll. rewrite Hfiles. clear.
    induction m as [|e m IH]; [done|]. cbn [map rowsToRecords].
    change (row_of_entry e) with (row_of_record env BlobScan (snd e)).
    by rewrite SqliteStoreProps.rowToRecord_row_of_record, IH.
  - intros id. unfold getById, select_one, MockStore.getById. fold (has_id id).
    rewrite Hfiles, (find_entry m id Hkeys).
    destruct (List.find _ m) as [e|]; [|done]. cbn [fmap option_fmap option_map].
    change (row_of_entry e) with (row_of_record env BlobScan (snd e)).
    by rewrite SqliteStoreProps.rowToRecord_row_of_record.
  - intros rec Hin. unfold MockStore.getById.
    assert (Hfind : is_Some (List.find (has_id (fr_id rec)) (files s))).
    { unfold s, blob_after. clear -Hin.
      induction recs as [|r recs IH] using rev_ind; [by apply elem_of_nil in Hin|].
      rewrite foldl_app. cbn [foldl]. unfold upsert, upsert_blob, set_files. cbn [fst files].
      apply elem_of_app in Hin as [Hin|Hin].
      - destruct (decide (fr_id r = fr_id rec)) as [Heq|Hne].
        + rewrite <- Heq. change (fr_id r) with (row_id (row_of_record env BlobScan r)).
          rewrite upsert_row_find. by eexists.
        + rewrite upsert_row_find_other by (cbn; congruence). by apply IH.
      - apply list_elem_of_singleton in Hin as ->.
        change (fr_id r) with (row_id (row_of_record env BlobScan r)).
        rewrite upsert_row_find. by eexists. }
    rewrite Hfiles, (find_entry m _ Hkeys) in Hfind.
    destruct (List.find _ m); [by eexists|]. by destruct Hfind.
Qed.

End WithEnv.

End ListingProps.

(* ===================================================================== *)
(** * The [.env] file and the listing at concrete inputs *)
(* ===================================================================== *)

Module ConfigInstances.
Import JsString ConfigManager InitWizard.

(** A wizard that was given a key of base 64, a deployment name with
    spaces around it and no database. *)
Definition wizard : InitConfig :=
  {| azureEndpoint := Some (lit "https://demo.openai.azure.com/");
     apiKey := Some (lit "c2VjcmV0LWtleQ==");
     useAAD := Some false;
     embeddingDeployment := Some (lit "text-embedding-3-large");
     rerankDeployment := Some (lit " gpt-4o-mini ");
     defaultDatabase := None |}.

Definition configPath : t := lit "/home/demo/.config/semsearch/config.json".

Lemma loadEnv_generateEnvContent_witness :
  let env := loadEnv (Some (generateEnvContent wizard configPath)) in
  env !! lit "AZURE_OPENAI_API_KEY" = Some (lit "c2VjcmV0LWtleQ==")
  /\ env !! lit "AZURE_OPENAI_RERANK_DEPLOYMENT" = Some (lit "gpt-4o-mini")
  /\ env !! lit "SEMSEARCH_DEFAULT_DB" = Some (lit "undefined")
  /\ env !! lit "AZURE_OPENAI_API_VERSION" = None.
Proof.
  intros env. unfold env.
  rewrite (ConfigProps.loadEnv_generateEnvContent wizard configPath);
    try (apply ConfigProps.lit_no_LF; reflexivity).
  vm_compute. done.
Defined.

(** The unit of the request reader: two requests in three chunks. *)
Example stdin_example :
  McpServer.feed [lit "{'id':1"; lit "}" ++ [LF] ++ lit "  " ++ [LF] ++ lit " {'id':2}"; [13%N; LF] ++ lit "{"]
  = (lit "{", [lit "{'id':1}"; lit "{'id':2}"]).
Proof. vm_compute. reflexivity. Qed.

Lemma listAll_getById_witness :
  exists allFiles,
    SqliteStore.listAll Sqlite.BlobScan (w_db Instances.w0) = Ok allFiles
    /\ map fr_id allFiles = ["a"; "b"; "c"]
    /\ Listing.listFiles Sqlite.BlobScan (Some 2) (w_db Instances.w0) = Ok (take 2 allFiles)
    /\ Listing.listFiles Sqlite.BlobScan (Some 0) (w_db Instances.w0) = Ok allFiles.
Proof.
  destruct (ListingProps.listAll_getById Sqlite.BlobScan (w_db Instances.w0))
    as (allFiles & Hall & Hids & _ & _ & _ & Hzero & Hlimit).
  - apply (bool_decide_unpack _). vm_compute. exact I.
  - exists allFiles. split; [exact Hall|]. split; [rewrite Hids; vm_compute; reflexivity|].
    split; [|exact Hzero]. apply (Hlimit 2). lia.
Defined.

End ConfigInstances.
